(** * CStyle: the rule-evaluation engine of [c-name-style.py]

    A shallow embedding of the naming-convention checker: the rule model
    ([Rule], [RuleSet]), the classifier ([_get_config_kind]), the selector
    test ([_rule_applies]), affix and body matching ([_test_rule]), the
    per-node evaluation ([_process_node]), the token pre-pass
    ([_process_tokens]) and the structural walk ([_process]).

    Python's [re] module and libclang are outside the repository.  The
    regular-expression engine is an interface ([ReEngine]) over which the
    whole processor is parameterised; the libclang cursor tree, token
    stream and extent query are plain data handed to the processor.
    Strings are byte strings; the lines printed only at a verbosity above
    zero change no state and are left out.

    A section of the configuration is the map from its options to the
    values [section.get] gives for them.  [ConfigParser] interpolates a
    value that holds [%] when it is read and can raise there; the
    sections of the model are those whose values come back as written,
    ASCII text without [%] ([plain_sections] below), and the statement
    about the failures of the load is made for them. *)

From Stdlib Require Import ZArith Ascii String List Bool Lia.
From stdpp Require Import base option list strings gmap pretty.

Local Open Scope Z_scope.
Local Open Scope nat_scope.

(** ** Python primitives used by the program *)

Module Py.

(** [str.isspace] on the ASCII range: TAB..CR, FS..US and SPACE. *)
Definition isspace (c : ascii) : bool :=
  let n := nat_of_ascii c in
  (Nat.leb 9 n && Nat.leb n 13) || (Nat.leb 28 n && Nat.leb n 32).

Fixpoint lstrip (s : string) : string :=
  match s with
  | EmptyString => EmptyString
  | String c s' => if isspace c then lstrip s' else s
  end.

Fixpoint rstrip (s : string) : string :=
  match s with
  | EmptyString => EmptyString
  | String c s' =>
      match rstrip s' with
      | EmptyString => if isspace c then EmptyString else String c EmptyString
      | r => String c r
      end
  end.

(** [s.strip()] *)
Definition strip (s : string) : string := rstrip (lstrip s).

(** [s.split(sep)] for a one-character separator: never returns []. *)
Fixpoint split (sep : ascii) (s : string) : list string :=
  match s with
  | EmptyString => [EmptyString]
  | String c s' =>
      if Ascii.eqb c sep then EmptyString :: split sep s'
      else match split sep s' with
           | w :: ws => String c w :: ws
           | [] => [String c EmptyString]
           end
  end.

Definition lower_char (c : ascii) : ascii :=
  let n := nat_of_ascii c in
  if Nat.leb 65 n && Nat.leb n 90 then ascii_of_nat (n + 32) else c.

Definition upper_char (c : ascii) : ascii :=
  let n := nat_of_ascii c in
  if Nat.leb 97 n && Nat.leb n 122 then ascii_of_nat (n - 32) else c.

Fixpoint map_chars (f : ascii -> ascii) (s : string) : string :=
  match s with
  | EmptyString => EmptyString
  | String c s' => String (f c) (map_chars f s')
  end.

(** [s.lower()] and [s.upper()] on ASCII letters. *)
Definition lower : string -> string := map_chars lower_char.
Definition upper : string -> string := map_chars upper_char.

(** [s.startswith(p)] *)
Fixpoint startswith (p s : string) : bool :=
  match p, s with
  | EmptyString, _ => true
  | String a p', String b s' => Ascii.eqb a b && startswith p' s'
  | String _ _, EmptyString => false
  end.

(** [sep.join(l)] *)
Fixpoint join (sep : string) (l : list string) : string :=
  match l with
  | [] => EmptyString
  | [x] => x
  | x :: rest => x +:+ sep +:+ join sep rest
  end.

(** Digits of a decimal literal as [int()] reads them: single underscores
    are allowed between digits only. *)
Fixpoint digits_value (acc : Z) (after_digit : bool) (s : string) : option Z :=
  match s with
  | EmptyString => if after_digit then Some acc else None
  | String c s' =>
      match Ascii.is_nat c with
      | Some d => digits_value (10 * acc + Z.of_nat d)%Z true s'
      | None =>
          if Ascii.eqb c "_"%char && after_digit
          then match s' with
               | EmptyString => None
               | _ => digits_value acc false s'
               end
          else None
      end
  end.

(** White space as [int()] skips it around an ASCII literal: TAB..CR and
    SPACE, not FS..US. *)
Definition int_space (c : ascii) : bool :=
  let n := nat_of_ascii c in
  (Nat.leb 9 n && Nat.leb n 13) || Nat.eqb n 32.

Fixpoint int_lstrip (s : string) : string :=
  match s with
  | EmptyString => EmptyString
  | String c s' => if int_space c then int_lstrip s' else s
  end.

Fixpoint int_rstrip (s : string) : string :=
  match s with
  | EmptyString => EmptyString
  | String c s' =>
      match int_rstrip s' with
      | EmptyString => if int_space c then EmptyString else String c EmptyString
      | r => String c r
      end
  end.

(** Number of digits in a literal; [int()] counts them before it
    converts. *)
Fixpoint digit_count (s : string) : Z :=
  match s with
  | EmptyString => 0%Z
  | String c s' =>
      match Ascii.is_nat c with
      | Some _ => (1 + digit_count s')%Z
      | None => digit_count s'
      end
  end.

(** [sys.get_int_max_str_digits()] as Python starts with. *)
Definition int_max_str_digits : Z := 4300%Z.

(** [int(s)] on ASCII text: [None] stands for [ValueError], which
    [int()] also raises for a literal of more than
    [int_max_str_digits] digits. *)
Definition int (s : string) : option Z :=
  let literal := int_rstrip (int_lstrip s) in
  if (int_max_str_digits <? digit_count literal)%Z then None
  else match literal with
       | String "-"%char r => Z.opp <$> digits_value 0%Z false r
       | String "+"%char r => digits_value 0%Z false r
       | t => digits_value 0%Z false t
       end.

(** [ConfigParser.BOOLEAN_STATES] looked up on [value.lower()]. *)
Definition boolean_state (s : string) : option bool :=
  let v := lower s in
  if decide (v ∈ ["1"; "yes"; "true"; "on"]) then Some true
  else if decide (v ∈ ["0"; "no"; "false"; "off"]) then Some false
  else None.

(** [l.index(x, start, stop)]: position of the first [x] at an index in
    [start, stop); [None] stands for [ValueError]. *)
Fixpoint index_go (x : string) (l : list string) (i start stop : nat) : option nat :=
  match l with
  | [] => None
  | y :: l' =>
      if Nat.leb stop i then None
      else if Nat.leb start i && String.eqb x y then Some i
      else index_go x l' (S i) start stop
  end.

Definition index (x : string) (l : list string) (start stop : nat) : option nat :=
  index_go x l 0 start stop.

(** [l.remove(x)] when [x] occurs: drops the first occurrence. *)
Fixpoint remove (x : string) (l : list string) : list string :=
  match l with
  | [] => []
  | y :: l' => if String.eqb x y then l' else y :: remove x l'
  end.

(** Characters that [re.escape] prefixes with a backslash. *)
Definition re_special (c : ascii) : bool :=
  bool_decide (c ∈ list_ascii_of_string "()[]{}?*+-|^$\.&~# ")
  || (Nat.leb 9 (nat_of_ascii c) && Nat.leb (nat_of_ascii c) 13).

Fixpoint re_escape (s : string) : string :=
  match s with
  | EmptyString => EmptyString
  | String c s' =>
      if re_special c then String "\"%char (String c (re_escape s'))
      else String c (re_escape s')
  end.

Definition is_upper (c : ascii) : bool :=
  Nat.leb 65 (nat_of_ascii c) && Nat.leb (nat_of_ascii c) 90.

(** [re.sub(r"(?<!^)(?=[A-Z])", "_", s)]: an underscore before every
    capital letter that is not the first character. *)
Fixpoint underscore_capitals (first : bool) (s : string) : string :=
  match s with
  | EmptyString => EmptyString
  | String c s' =>
      if is_upper c && negb first
      then String "_"%char (String c (underscore_capitals false s'))
      else String c (underscore_capitals false s')
  end.

Definition upper_snake (s : string) : string :=
  upper (underscore_capitals true s).

End Py.

(** ** [pathlib.Path] (POSIX flavour): [name], [suffix], [stem] *)

Module Path.

Definition parts (p : string) : list string :=
  filter (fun x => x <> ""%string /\ x <> "."%string) (Py.split "/" p).

Definition name (p : string) : string := List.last (parts p) "".

(** [s.rfind(".")] *)
Fixpoint rfind_dot (s : string) (i : nat) (found : option nat) : option nat :=
  match s with
  | EmptyString => found
  | String c s' =>
      rfind_dot s' (S i) (if Ascii.eqb c "." then Some i else found)
  end.

(** The position [i] of the last dot when [0 < i < len(name) - 1]. *)
Definition suffix_pos (n : string) : option nat :=
  match rfind_dot n 0 None with
  | Some i => if Nat.ltb 0 i && Nat.ltb i (String.length n - 1) then Some i else None
  | None => None
  end.

Definition suffix (p : string) : string :=
  let n := name p in
  match suffix_pos n with
  | Some i => String.substring i (String.length n - i) n
  | None => ""
  end.

Definition stem (p : string) : string :=
  let n := name p in
  match suffix_pos n with
  | Some i => String.substring 0 i n
  | None => n
  end.

End Path.

(** ** [SubstTemplate]: [string.Template] whose brace identifiers start
    with an ASCII letter or underscore and go on with letters, digits,
    underscores, hyphens and colons, matched ignoring case *)

Module SubstTemplate.

Definition is_letter (c : ascii) : bool :=
  let n := nat_of_ascii c in
  (Nat.leb 65 n && Nat.leb n 90) || (Nat.leb 97 n && Nat.leb n 122).

Definition is_digit (c : ascii) : bool :=
  Nat.leb 48 (nat_of_ascii c) && Nat.leb (nat_of_ascii c) 57.

Definition id_start (c : ascii) : bool := is_letter c || Ascii.eqb c "_".
Definition id_char (c : ascii) : bool := id_start c || is_digit c.
Definition braceid_char (c : ascii) : bool :=
  id_char c || Ascii.eqb c "-" || Ascii.eqb c ":".

(** Scanner state: plain text, just after a [$], inside [$name], inside
    [${name]. *)
Inductive state :=
| Normal
| Dollar
| Named (acc : string)
| Braced (acc : string).

Definition snoc (s : string) (c : ascii) : string := s +:+ String c "".

(** [safe_substitute] leaves a placeholder that is not in the mapping as
    it was written. *)
Definition lookup_or (m : gmap string string) (key orig : string) : string :=
  default orig (m !! key).

Definition normal_step (c : ascii) : string * state :=
  if Ascii.eqb c "$" then ("", Dollar) else (String c "", Normal).

Definition step (m : gmap string string) (st : state) (c : ascii) : string * state :=
  match st with
  | Normal => normal_step c
  | Dollar =>
      if Ascii.eqb c "$" then ("$", Normal)
      else if id_start c then ("", Named (String c ""))
      else if Ascii.eqb c "{" then ("", Braced "")
      else ("$" +:+ fst (normal_step c), snd (normal_step c))
  | Named acc =>
      if id_char c then ("", Named (snoc acc c))
      else (lookup_or m acc ("$" +:+ acc) +:+ fst (normal_step c),
            snd (normal_step c))
  | Braced acc =>
      if (if String.eqb acc "" then id_start c else braceid_char c)
      then ("", Braced (snoc acc c))
      else if Ascii.eqb c "}" && negb (String.eqb acc "")
      then (lookup_or m acc ("${" +:+ acc +:+ "}"), Normal)
      else ("${" +:+ acc +:+ fst (normal_step c), snd (normal_step c))
  end.

Definition finish (m : gmap string string) (st : state) : string :=
  match st with
  | Normal => ""
  | Dollar => "$"
  | Named acc => lookup_or m acc ("$" +:+ acc)
  | Braced acc => "${" +:+ acc
  end.

Fixpoint run (m : gmap string string) (st : state) (s : string) : string :=
  match s with
  | EmptyString => finish m st
  | String c s' => fst (step m st c) +:+ run m (snd (step m st c)) s'
  end.

Definition safe_substitute (m : gmap string string) (template : string) : string :=
  run m Normal template.

End SubstTemplate.

(** ** Exceptions and results *)

Inductive PyExn :=
| AssertionError
| AttributeError
| TypeError
| ReError
| ValueError (msg : string)
| Exception (msg : string).

Inductive Res (A : Type) :=
| Ok (a : A)
| Raise (e : PyExn).
Arguments Ok {A} a.
Arguments Raise {A} e.

(** ** Rule model *)

(** [Rule.pointer] is [int | bool | None]. *)
Inductive PointerField :=
| PBool (b : bool)
| PInt (n : Z).

Module Rule.
Record t := mk {
  name : string;
  kinds : option (list string);
  visibility : option (list string);
  types : option (list string);
  pointer : option PointerField;
  parent_match : option string;
  prefix : option string;
  suffix : option string;
  rule : option string;
  allow_rule : option string
}.

Definition set_kinds (r : t) (ks : option (list string)) : t :=
  mk (name r) ks (visibility r) (types r) (pointer r) (parent_match r)
     (prefix r) (suffix r) (rule r) (allow_rule r).

Definition set_pointer (r : t) (p : option PointerField) : t :=
  mk (name r) (kinds r) (visibility r) (types r) p (parent_match r)
     (prefix r) (suffix r) (rule r) (allow_rule r).
End Rule.
Abbreviation Rule := Rule.t.

Module RuleSet.
Record t := mk {
  rules : list Rule;
  placeholders : gmap string string
}.

(** [[x.strip() for x in v.split(",")]] *)
Definition comma_list (v : string) : list string :=
  Py.strip <$> Py.split "," v.

(** [section.getint("pointer")], falling back on
    [section.getboolean("pointer")] when [int()] raises [ValueError]. *)
Definition get_pointer (section : gmap string string) : Res (option PointerField) :=
  match section !! "pointer" with
  | None => Ok None
  | Some v =>
      match Py.int v with
      | Some n => Ok (Some (PInt n))
      | None =>
          match Py.boolean_state v with
          | Some b => Ok (Some (PBool b))
          | None => Raise (ValueError ("Not a boolean: " +:+ v))
          end
      end
  end.

Definition missing_rule_msg (section_name : string) : string :=
  "Section '" +:+ section_name +:+ "' does not have a 'rule' or 'allow-rule' member".

Definition both_rules_msg (section_name : string) : string :=
  "Section '" +:+ section_name +:+ "' may not have both a 'rule' and an 'allow-rule".

(** Body of the loop of [RuleSet.__init__] for a section that is not
    [placeholders]. *)
Definition load_rule (section_name : string) (section : gmap string string) : Res Rule :=
  let kinds := comma_list <$> section !! "kind" in
  let variable_types := comma_list <$> section !! "type" in
  let visibility := comma_list <$> section !! "visibility" in
  match get_pointer section with
  | Raise e => Raise e
  | Ok pointer =>
      let parent_match := section !! "parent_match" in
      let prefix := section !! "prefix" in
      let suffix := section !! "suffix" in
      let rule := section !! "rule" in
      let allow_rule := section !! "allow-rule" in
      if bool_decide (rule = None) && bool_decide (allow_rule = None)
         && bool_decide (prefix = None) && bool_decide (suffix = None)
      then Raise (Exception (missing_rule_msg section_name))
      else if negb (bool_decide (rule = None)) && negb (bool_decide (allow_rule = None))
      then Raise (Exception (both_rules_msg section_name))
      else Ok (Rule.mk section_name kinds visibility variable_types pointer
                       parent_match prefix suffix rule allow_rule)
  end.

(** [{f"p:{k}": v for k, v in config.items(section_name)}] *)
Definition load_placeholders (section : gmap string string) : gmap string string :=
  list_to_map ((fun kv => ("p:" +:+ kv.1, kv.2)) <$> map_to_list section).

Fixpoint load_from (sections : list (string * gmap string string)) (acc : t) : Res t :=
  match sections with
  | [] => Ok acc
  | (section_name, section) :: rest =>
      if String.eqb section_name "placeholders"
      then load_from rest (mk (rules acc) (load_placeholders section))
      else match load_rule section_name section with
           | Raise e => Raise e
           | Ok r => load_from rest (mk (rules acc ++ [r]) (placeholders acc))
           end
  end.

(** [RuleSet(config)] *)
Definition load (sections : list (string * gmap string string)) : Res t :=
  load_from sections (mk [] ∅).
End RuleSet.
Abbreviation RuleSet := RuleSet.t.

(** ** What the program reads from libclang *)

Inductive CursorKind :=
| TRANSLATION_UNIT
| PARM_DECL
| VAR_DECL
| FUNCTION_DECL
| STRUCT_DECL
| UNION_DECL
| ENUM_DECL
| TYPEDEF_DECL
| FIELD_DECL
| ENUM_CONSTANT_DECL
| OTHER_CURSOR.

Inductive LinkageKind :=
| INVALID
| NO_LINKAGE
| INTERNAL
| UNIQUE_EXTERNAL
| EXTERNAL.

Inductive TypeKind :=
| POINTER
| RECORD
| ENUM
| FUNCTIONPROTO
| OTHER_TYPE.

Inductive TokenKind :=
| PUNCTUATION
| KEYWORD
| IDENTIFIER
| LITERAL
| COMMENT.

Global Instance CursorKind_eq_dec : EqDecision CursorKind.
Proof. solve_decision. Defined.
Global Instance LinkageKind_eq_dec : EqDecision LinkageKind.
Proof. solve_decision. Defined.
Global Instance TypeKind_eq_dec : EqDecision TypeKind.
Proof. solve_decision. Defined.
Global Instance TokenKind_eq_dec : EqDecision TokenKind.
Proof. solve_decision. Defined.

(** A [clang.cindex.Type]: a pointer type has a pointee, any other type
    only its kind and spelling. *)
Module CType.
Inductive t :=
| PointerTo (spelling : string) (pointee : t)
| Plain (k : TypeKind) (spelling : string).

(** [Plain POINTER] is not a type libclang builds; it reads as a type of
    another kind. *)
Definition kind (ty : t) : TypeKind :=
  match ty with
  | PointerTo _ _ => POINTER
  | Plain POINTER _ => OTHER_TYPE
  | Plain k _ => k
  end.

Definition spelling (ty : t) : string :=
  match ty with
  | PointerTo s _ => s
  | Plain _ s => s
  end.

(** [while ty.kind == TypeKind.POINTER: ty = ty.get_pointee()] *)
Fixpoint unwrap_pointers (ty : t) : t :=
  match ty with
  | PointerTo _ p => unwrap_pointers p
  | Plain _ _ => ty
  end.

(** The same loop counting its iterations. *)
Fixpoint pointer_depth (ty : t) : nat :=
  match ty with
  | PointerTo _ p => S (pointer_depth p)
  | Plain _ _ => 0
  end.
End CType.

Module Location.
Record t := mk {
  file : string;          (* [location.file.name] *)
  line : nat;
  column : nat;
  is_from_main_file : bool
}.
End Location.

(** [cursor.semantic_parent], as far as the program looks at it. *)
Module Parent.
Record t := mk {
  spelling : string;
  type_spelling : string;
  is_anonymous : bool
}.
End Parent.

Module Cursor.
Record info := mk {
  kind : CursorKind;
  spelling : string;
  type : CType.t;
  underlying_typedef_type_canonical : CType.t;
  linkage : LinkageKind;
  has_var_decl_external_storage : bool;
  is_function_inlined : bool;
  location : Location.t;
  tokens : list string;     (* spellings of [cursor.get_tokens()] *)
  semantic_parent : Parent.t
}.

(** A cursor with the cursors [get_children()] yields. *)
Inductive t :=
| Node (c : info) (children : list t).
End Cursor.

Module Token.
Record t := mk {
  kind : TokenKind;
  spelling : string;
  location : Location.t;
  extent : (nat * nat) * (nat * nat)   (* start and end (line, column) *)
}.
End Token.

Module TranslationUnit.
Record t := mk {
  cursor : Cursor.t;
  (** [translation_unit.cursor.get_tokens()] *)
  tokens : list Token.t;
  (** [get_tokens(extent=get_extent(file, ((line, 1), (line, 1))))] *)
  tokens_at_line_start : string -> nat -> list Token.t
}.
End TranslationUnit.

(** ** The regular-expression engine

    [fullmatch] and [search] answer whether [re.fullmatch] / [re.search]
    return a match, [search] with the span [(start, end)] of the match;
    [fullmatch_group] is [re.fullmatch] followed by [match.group("name")].
    Every operation may raise [re.error]. *)

Inductive GroupLookup :=
| NoSuchGroup                       (* [IndexError] *)
| Group (value : option string).    (* [None]: the group took no part *)

Record ReEngine := {
  fullmatch : string -> string -> Res bool;
  search : string -> string -> Res (option (nat * nat));
  fullmatch_group : string -> string -> Res (option GroupLookup)
}.

(** ** Diagnostics printed whatever the verbosity *)

Inductive Diag :=
| MissingAffix (location name term expanded_affix : string) (from : list string)
| FailsRule (location name rule_name rule_regex : string)
            (expanded_prefix expanded_suffix : option string)
| ParentMatchFails (location rule_name parent_match parent_name : string)
| NoNameGroup (rule_name : string) (rule_text : option string)
| UnexpectedLinkage (l : LinkageKind) (spelling : string)
| UnrecognisedComment (location spelling : string)
| IgnoreCommentNotUsed (file : string) (line column : nat).

(** ** Processor state *)

Record IgnoreComment := {
  token : Token.t;
  used : bool
}.

Definition mark_used (ic : IgnoreComment) : IgnoreComment :=
  {| token := token ic; used := true |}.

Record Processor := {
  _rule_set : RuleSet;
  _ignore_comments : gmap string IgnoreComment;   (* filename:line -> IgnoreComment *)
  _has_failures : bool;
  stdout : list Diag
}.

(** [Processor(rule_set, verbosity)] *)
Definition new_processor (rule_set : RuleSet) : Processor :=
  {| _rule_set := rule_set; _ignore_comments := ∅;
     _has_failures := false; stdout := [] |}.

(** State and exception monad of the processor. *)
Definition M (A : Type) : Type := Processor -> Res (A * Processor).

Definition ret {A} (a : A) : M A := fun p => Ok (a, p).

Definition bind {A B} (m : M A) (k : A -> M B) : M B :=
  fun p => match m p with
           | Ok (a, p') => k a p'
           | Raise e => Raise e
           end.

Definition raise {A} (e : PyExn) : M A := fun _ => Raise e.

Definition lift {A} (r : Res A) : M A :=
  fun p => match r with Ok a => Ok (a, p) | Raise e => Raise e end.

Definition get : M Processor := fun p => Ok (p, p).

Definition print (d : Diag) : M unit :=
  fun p => Ok (tt, {| _rule_set := _rule_set p;
                      _ignore_comments := _ignore_comments p;
                      _has_failures := _has_failures p;
                      stdout := stdout p ++ [d] |}).

Definition set_ignore_comments (m : gmap string IgnoreComment) : M unit :=
  fun p => Ok (tt, {| _rule_set := _rule_set p;
                      _ignore_comments := m;
                      _has_failures := _has_failures p;
                      stdout := stdout p |}).

Definition set_rules (rs : list Rule) : M unit :=
  fun p => Ok (tt, {| _rule_set := RuleSet.mk rs (RuleSet.placeholders (_rule_set p));
                      _ignore_comments := _ignore_comments p;
                      _has_failures := _has_failures p;
                      stdout := stdout p |}).

Definition set_has_failures : M unit :=
  fun p => Ok (tt, {| _rule_set := _rule_set p;
                      _ignore_comments := _ignore_comments p;
                      _has_failures := true;
                      stdout := stdout p |}).

(** [ignore_comment.used = True] on the comment stored under [key]. *)
Definition set_used (key : string) : M unit :=
  fun p => set_ignore_comments (alter mark_used key (_ignore_comments p)) p.

Declare Scope proc_scope.
Delimit Scope proc_scope with proc.
Notation "x <- m ;; k" := (bind m (fun x => k))
  (at level 100, m at next level, right associativity) : proc_scope.
Notation "m ;;; k" := (bind m (fun _ => k))
  (at level 100, right associativity) : proc_scope.
Local Open Scope proc_scope.

(** ** The processor *)

(** [Processor._KIND_EXPANSION] *)
Definition _KIND_EXPANSION (k : string) : option (list string) :=
  if String.eqb k "tag" then Some ["struct_tag"; "enum_tag"; "union_tag"]
  else if String.eqb k "typedef"
  then Some ["struct_typedef"; "enum_typedef"; "union_typedef";
             "function_typedef"; "scalar_typedef"]
  else if String.eqb k "member" then Some ["struct_member"; "union_member"]
  else None.

Definition is_alias (k : string) : bool :=
  match _KIND_EXPANSION k with Some _ => true | None => false end.

(** The loop at the head of [_rule_applies]:
[[
    for rule_kind in rule_kinds:
        if rule_kind in Processor._KIND_EXPANSION:
            rule_kinds.extend(Processor._KIND_EXPANSION[rule_kind])
            rule_kinds.remove(rule_kind)
]]
    The list iterator holds an index [i] into the list the body changes:
    each round reads [rule_kinds[i]] from the current list and stops once
    [i] is past its end. *)
Fixpoint expand_loop (fuel i : nat) (rule_kinds : list string) : option (list string) :=
  match fuel with
  | 0 => None
  | S fuel' =>
      match rule_kinds !! i with
      | None => Some rule_kinds
      | Some rule_kind =>
          match _KIND_EXPANSION rule_kind with
          | Some members =>
              expand_loop fuel' (S i) (Py.remove rule_kind (rule_kinds ++ members))
          | None => expand_loop fuel' (S i) rule_kinds
          end
      end
  end.

(** Number of aliases in a kinds list. *)
Definition alias_count (l : list string) : nat :=
  length (filter (fun k => is_alias k = true) l).

(** Rounds that always suffice: every round moves the index, and a round
    on an alias trades one alias for at most five concrete kinds. *)
Definition expand_measure (i : nat) (l : list string) : nat :=
  (length l - i) + 7 * alias_count l.

(** The list the loop leaves behind; the loop ends within these rounds
    ([expand_kinds_loop] below). *)
Definition expand_kinds (rule_kinds : list string) : list string :=
  default rule_kinds (expand_loop (S (expand_measure 0 rule_kinds)) 0 rule_kinds).

(** [(isinstance(rule.pointer, bool) and rule.pointer == (pointer_level > 0))
     or (rule.pointer == pointer_level)], where a Python [bool] compares
    with an [int] as 0 or 1. *)
Definition pointer_matches (p : PointerField) (pointer_level : nat) : bool :=
  match p with
  | PBool b => Bool.eqb b (Nat.ltb 0 pointer_level)
               || Z.eqb (Z.b2z b) (Z.of_nat pointer_level)
  | PInt n => Z.eqb n (Z.of_nat pointer_level)
  end.

(** A Python value of type [str | None] taken as a condition. *)
Definition truthy (s : option string) : bool :=
  match s with
  | Some s => negb (String.eqb s "")
  | None => false
  end.

(** [a or b] on [str | None]. *)
Definition py_or (a b : option string) : option string :=
  if truthy a then a else b.

Definition is_None {A} (o : option A) : bool :=
  match o with None => true | Some _ => false end.

Definition str_nat (n : nat) : string := pretty n.

(** [f"{file}:{line}"] *)
Definition ignore_key_of (file : string) (line : nat) : string :=
  file +:+ ":" +:+ str_nat line.

(** [f"{file}:{line}:{column}"] *)
Definition location_str (l : Location.t) : string :=
  Location.file l +:+ ":" +:+ str_nat (Location.line l)
    +:+ ":" +:+ str_nat (Location.column l).

(** [s[n:]] and [s[:n]] *)
Definition slice_from (n : nat) (s : string) : string :=
  String.substring n (String.length s - n) s.
Definition slice_to (n : nat) (s : string) : string :=
  String.substring 0 n s.

Section WithEngine.

Variable re : ReEngine.

(** [_sub_placeholders] given [self._rule_set.placeholders]: the
    placeholders section first, then the variables of the declaration. *)
Definition sub_placeholders_in (section_placeholders : gmap string string)
    (template : string) (placeholders : gmap string string) : string :=
  let result :=
    if Nat.ltb 0 (size section_placeholders)
    then SubstTemplate.safe_substitute section_placeholders template
    else template in
  SubstTemplate.safe_substitute placeholders result.

Definition _sub_placeholders (template : string) (placeholders : gmap string string)
  : M string :=
  p <- get ;;
  ret (sub_placeholders_in (RuleSet.placeholders (_rule_set p)) template placeholders).

Definition _is_struct_enum_union_unnamed (cursor : Cursor.info) : Res bool :=
  match
    match Cursor.kind cursor with
    | ENUM_DECL => Some "enum"
    | STRUCT_DECL => Some "struct"
    | UNION_DECL => Some "union"
    | _ => None
    end
  with
  | None => Raise AssertionError
  | Some t =>
      let tokens := Cursor.tokens cursor in
      match Py.index t tokens 0 (length tokens) with
      | None => Ok false
      | Some type_pos =>
          match Py.index "{" tokens type_pos (length tokens) with
          | None => Ok false
          | Some open_brace_pos =>
              match Py.index (Cursor.spelling cursor) tokens type_pos open_brace_pos with
              | Some _ => Ok false
              | None => Ok true
              end
          end
      end
  end.

Definition tag_kind (cursor : Cursor.info) (kind global_or_file : string)
  : M (option string * option string) :=
  unnamed <- lift (_is_struct_enum_union_unnamed cursor) ;;
  if unnamed then ret (None, None) else ret (Some kind, Some global_or_file).

(** (type, visibility) *)
Definition _get_config_kind (cursor : Cursor.info) (file_path : string)
  : M (option string * option string) :=
  let is_header := bool_decide (Path.suffix file_path ∈ [".h"; ".hpp"]) in
  let global_or_file := if is_header then "global" else "file" in
  match Cursor.kind cursor with
  | PARM_DECL => ret (Some "parameter", None)
  | VAR_DECL =>
      if is_header then ret (Some "variable", Some "global")
      else match Cursor.linkage cursor with
           | INTERNAL => ret (Some "variable", Some "file")
           | NO_LINKAGE => ret (Some "variable", Some "local")
           | EXTERNAL =>
               if Cursor.has_var_decl_external_storage cursor
               then ret (None, None)
               else ret (Some "variable", Some "global")
           | l => print (UnexpectedLinkage l (Cursor.spelling cursor)) ;;;
                  ret (None, None)
           end
  | FUNCTION_DECL =>
      if bool_decide (Cursor.linkage cursor = EXTERNAL)
         || (Cursor.is_function_inlined cursor && is_header)
      then ret (Some "function", Some "global")
      else if bool_decide (Cursor.linkage cursor = INTERNAL)
      then ret (Some "function", Some "file")
      else print (UnexpectedLinkage (Cursor.linkage cursor) (Cursor.spelling cursor)) ;;;
           ret (None, None)
  | STRUCT_DECL => tag_kind cursor "struct_tag" global_or_file
  | UNION_DECL => tag_kind cursor "union_tag" global_or_file
  | ENUM_DECL => tag_kind cursor "enum_tag" global_or_file
  | TYPEDEF_DECL =>
      let underlying_type :=
        CType.unwrap_pointers (Cursor.underlying_typedef_type_canonical cursor) in
      match CType.kind underlying_type with
      | RECORD =>
          if Py.startswith "union " (CType.spelling underlying_type)
          then ret (Some "union_typedef", Some global_or_file)
          else ret (Some "struct_typedef", Some global_or_file)
      | ENUM => ret (Some "enum_typedef", Some global_or_file)
      | FUNCTIONPROTO => ret (Some "function_typedef", Some global_or_file)
      | _ => ret (Some "scalar_typedef", Some global_or_file)
      end
  | FIELD_DECL =>
      if Py.startswith "union " (Parent.type_spelling (Cursor.semantic_parent cursor))
      then ret (Some "union_member", Some global_or_file)
      else ret (Some "struct_member", None)
  | ENUM_CONSTANT_DECL => ret (Some "enum_constant", Some global_or_file)
  | _ => ret (None, None)
  end.

(** [any(re.fullmatch(x, spelling) for x in types)] *)
Fixpoint any_fullmatch (types : list string) (spelling : string) : Res bool :=
  match types with
  | [] => Ok false
  | x :: rest =>
      match fullmatch re x spelling with
      | Raise e => Raise e
      | Ok true => Ok true
      | Ok false => any_fullmatch rest spelling
      end
  end.

(** [_rule_applies] returns its verdict together with the rule as the
    call leaves it: the loop over [rule.kinds] works on the stored list. *)
Definition _rule_applies (cursor : Cursor.info) (rule : Rule) (config_kind : string)
    (visibility : option string) (pointer_level : option nat) : Res (bool * Rule) :=
  let rule' := Rule.set_kinds rule (expand_kinds <$> Rule.kinds rule) in
  if match Rule.kinds rule' with
     | Some rule_kinds => negb (bool_decide (config_kind ∈ rule_kinds))
     | None => false
     end
  then Ok (false, rule')
  else if match pointer_level, Rule.pointer rule' with
          | Some pl, Some p => negb (pointer_matches p pl)
          | _, _ => false
          end
  then Ok (false, rule')
  else
    match
      match Rule.types rule' with
      | Some types => any_fullmatch types (CType.spelling (Cursor.type cursor))
      | None => Ok true
      end
    with
    | Raise e => Raise e
    | Ok false => Ok (false, rule')
    | Ok true =>
        if match visibility, Rule.visibility rule' with
           | Some v, Some vs => negb (bool_decide (v ∈ vs))
           | _, _ => false
           end
        then Ok (false, rule')
        else if negb (is_None (Rule.parent_match rule'))
                && bool_decide (Cursor.kind cursor = ENUM_CONSTANT_DECL)
                && Parent.is_anonymous (Cursor.semantic_parent cursor)
        then Ok (false, rule')
        else Ok (true, rule')
    end.

(** ["".join(self._sub_placeholders(accessor(x), substitute_vars)
            for x in affix_rules)]; a [None] affix is a [TypeError]. *)
Fixpoint join_affixes (accessor : Rule -> option string) (affix_rules : list Rule)
    (substitute_vars : gmap string string) : M string :=
  match affix_rules with
  | [] => ret ""
  | x :: rest =>
      match accessor x with
      | None => raise TypeError
      | Some template =>
          a <- _sub_placeholders template substitute_vars ;;
          b <- join_affixes accessor rest substitute_vars ;;
          ret (a +:+ b)
      end
  end.

(** The closure [test_affix_rules] of [_test_rule]; its nonlocal
    variables [name_without_prefix_suffix] and [success] are taken and
    given back. *)
Definition test_affix_rules (ignore_key : string) (has_ignore_comment : bool)
    (location name : string) (substitute_vars : gmap string string)
    (affix_rules : list Rule) (is_prefix : bool)
    (name_without_prefix_suffix : string) (success : option bool)
  : M (option string * (string * option bool)) :=
  if Nat.ltb 0 (length affix_rules) then
    let accessor := if is_prefix then Rule.prefix else Rule.suffix in
    let term := if is_prefix then "prefix" else "suffix" in
    expanded_affix <- join_affixes accessor affix_rules substitute_vars ;;
    let regex := if is_prefix then "^" +:+ expanded_affix else expanded_affix +:+ "$" in
    m <- lift (search re regex name_without_prefix_suffix) ;;
    match m with
    | None =>
        if has_ignore_comment
        then set_used ignore_key ;;;
             ret (Some expanded_affix, (name_without_prefix_suffix, success))
        else print (MissingAffix location name term expanded_affix
                                 (Rule.name <$> affix_rules)) ;;;
             ret (Some expanded_affix, (name_without_prefix_suffix, Some false))
    | Some (match_start, match_end) =>
        ret (Some expanded_affix,
             (if is_prefix then slice_from match_end name_without_prefix_suffix
              else slice_to match_start name_without_prefix_suffix,
              success))
    end
  else ret (None, (name_without_prefix_suffix, success)).

(** The enum-constant block of [_test_rule]: the parent's name, rewritten
    through [parent_match], enters [substitute_vars]. *)
Definition parent_vars (cursor : Cursor.info) (rule : Rule) (location : string)
    (substitute_vars : gmap string string) : M (gmap string string) :=
  if bool_decide (Cursor.kind cursor = ENUM_CONSTANT_DECL) then
    let parent_name := Parent.spelling (Cursor.semantic_parent cursor) in
    parent_name' <-
      match Rule.parent_match rule with
      | None => ret (Some parent_name)
      | Some parent_match =>
          if Parent.is_anonymous (Cursor.semantic_parent cursor)
          then raise AssertionError
          else
            m <- lift (fullmatch_group re parent_match parent_name) ;;
            match m with
            | None =>
                print (ParentMatchFails location (Rule.name rule)
                                        parent_match parent_name) ;;;
                ret (Some parent_name)
            | Some NoSuchGroup =>
                print (NoNameGroup (Rule.name rule) (Rule.rule rule)) ;;;
                ret (Some parent_name)
            | Some (Group v) => ret v
            end
      end ;;
    match parent_name' with
    | None => raise TypeError          (* [re.escape(None)] *)
    | Some pn =>
        ret (<["parent:upper-snake" := Py.re_escape (Py.upper_snake pn)]>
               (<["parent" := Py.re_escape pn]> substitute_vars))
    end
  else ret substitute_vars.

(** The two calls of the closure in [_test_rule]: an affix whose field
    in the rule under test is the empty string is not tested.  Gives
    [(expanded_prefix, expanded_suffix, (name_without_prefix_suffix,
    success))]. *)
Definition test_affixes (ignore_key : string) (has_ignore_comment : bool)
    (cursor : Cursor.info) (rule : Rule) (prefix_rules suffix_rules : list Rule)
    (location : string) (substitute_vars : gmap string string)
  : M (option string * option string * (string * option bool)) :=
  let name := Cursor.spelling cursor in
  r1 <- (if bool_decide (Rule.prefix rule ≠ Some "")
         then test_affix_rules ignore_key has_ignore_comment location name
                substitute_vars prefix_rules true name (Some true)
         else ret (None, (name, Some true))) ;;
  r2 <- (if bool_decide (Rule.suffix rule ≠ Some "")
         then test_affix_rules ignore_key has_ignore_comment location name
                substitute_vars suffix_rules false r1.2.1 r1.2.2
         else ret (None, r1.2)) ;;
  ret (r1.1, r2.1, r2.2).

(** The end of [_test_rule], from [rule_text = rule.rule or
    rule.allow_rule] on. *)
Definition test_body (ignore_key : string) (has_ignore_comment : bool)
    (cursor : Cursor.info) (rule : Rule) (location : string)
    (substitute_vars : gmap string string)
    (expanded_prefix expanded_suffix : option string)
    (name_without_prefix_suffix : string) (success : option bool)
  : M (option bool) :=
  let rule_text := py_or (Rule.rule rule) (Rule.allow_rule rule) in
  if is_None rule_text then raise AssertionError else
  match py_or rule_text (Rule.allow_rule rule) with
  | None => raise TypeError
  | Some template =>
      rule_regex <- _sub_placeholders template substitute_vars ;;
      matched <- lift (fullmatch re rule_regex name_without_prefix_suffix) ;;
      if matched then ret success
      else if has_ignore_comment
      then set_used ignore_key ;;; ret success
      (* rule: return true or false. allow_rule: return true or None *)
      else if negb (is_None (Rule.rule rule))
      then print (FailsRule location (Cursor.spelling cursor) (Rule.name rule)
                            rule_regex expanded_prefix expanded_suffix) ;;;
           ret (Some false)
      else if is_None (Rule.allow_rule rule) then raise AssertionError
      else ret None
  end.

Definition ignore_key_for (cursor : Cursor.info) : string :=
  ignore_key_of (Location.file (Cursor.location cursor))
                (Location.line (Cursor.location cursor)).

(** [ignore_comment is not None], for the comment [_test_rule] looks up
    when it starts. *)
Definition has_ignore_comment_for (cursor : Cursor.info) (p : Processor) : bool :=
  negb (is_None (_ignore_comments p !! ignore_key_for cursor)).

(** return: true -> everything is OK, false -> rule failed,
    None -> continue processing.  The second component is
    [substitute_vars] as the call leaves it. *)
Definition _test_rule (cursor : Cursor.info) (rule : Rule)
    (prefix_rules suffix_rules : list Rule) (location : string)
    (substitute_vars : gmap string string)
  : M (option bool * gmap string string) :=
  let ignore_key := ignore_key_for cursor in
  p0 <- get ;;
  let has_ignore_comment := has_ignore_comment_for cursor p0 in
  a <- test_affixes ignore_key has_ignore_comment cursor rule
         prefix_rules suffix_rules location substitute_vars ;;
  substitute_vars' <- parent_vars cursor rule location substitute_vars ;;
  success <- test_body ignore_key has_ignore_comment cursor rule location
               substitute_vars' a.1.1 a.1.2 a.2.1 a.2.2 ;;
  ret (success, substitute_vars').

End WithEngine.

(** ** The suppression comment grammar

    [_COMMENT_REGEX] has two alternatives, used with [re.fullmatch]: two
    slashes, blanks, [c-name-style], at least one blank, then a group
    taking the rest of the line; or the same between the opening and the
    closing mark of a block comment.  The pattern is fixed, so it is
    matched here directly: the blanks after the marker are taken
    greedily, and the group matches anything but a newline. *)

Module CommentGrammar.

Fixpoint drop_prefix (p s : string) : option string :=
  match p, s with
  | EmptyString, _ => Some s
  | String a p', String b s' => if Ascii.eqb a b then drop_prefix p' s' else None
  | String _ _, EmptyString => None
  end.

Fixpoint has_newline (s : string) : bool :=
  match s with
  | EmptyString => false
  | String c s' => Ascii.eqb c "010" || has_newline s'
  end.

(** [s] without a closing ["*/"], when it ends with one. *)
Fixpoint drop_close (s : string) : option string :=
  match s with
  | EmptyString => None
  | String c s' =>
      if String.eqb s "*/" then Some ""
      else String c <$> drop_close s'
  end.

(** The text after [\s*c-name-style\s+]. *)
Definition after_marker (s : string) : option string :=
  match drop_prefix "c-name-style" (Py.lstrip s) with
  | Some (String c r) => if Py.isspace c then Some (Py.lstrip r) else None
  | _ => None
  end.

Inductive comment_match :=
| LineForm (group1 : string)
| BlockForm (group2 : string).

(** [re.fullmatch(Processor._COMMENT_REGEX, spelling)] *)
Definition fullmatch_comment (spelling : string) : option comment_match :=
  match drop_prefix "//" spelling with
  | Some body =>
      match after_marker body with
      | Some g => if has_newline g then None else Some (LineForm g)
      | None => None
      end
  | None =>
      match drop_prefix "/*" spelling with
      | Some body =>
          match after_marker body with
          | Some r =>
              match drop_close r with
              | Some g => if has_newline g then None else Some (BlockForm g)
              | None => None
              end
          | None => None
          end
      | None => None
      end
  end.

(** [(match.group(1) or match.group(2)).strip()]: an empty first group
    is falsy, the second is then [None] and [.strip()] fails. *)
Definition value (m : comment_match) : Res string :=
  match m with
  | LineForm g => if String.eqb g "" then Raise AttributeError else Ok (Py.strip g)
  | BlockForm g => Ok (Py.strip g)
  end.

End CommentGrammar.

Section Traversal.

Variable re : ReEngine.

(** [substitute_vars] as [_process_node] builds it. *)
Definition initial_vars (file_path : string) (pointer_level : option nat)
  : gmap string string :=
  <["filename" := Py.re_escape (Path.stem file_path)]>
  (<["case:camel" := "[a-z][a-zA-Z0-9]*"]>
  (<["case:pascal" := "[A-Z][a-zA-Z0-9]*"]>
  (<["case:snake" := "[a-z]([a-z0-9_]*[a-z0-9])?"]>
  (<["case:upper-snake" := "[A-Z]([A-Z0-9_]*[A-Z0-9])?"]>
  (<["pointer-level" := match pointer_level with
                        | Some n => str_nat n
                        | None => "None"
                        end]> ∅))))).

(** The pointer depth [_process_node] computes. *)
Definition pointer_level_of (cursor : Cursor.info) : option nat :=
  if bool_decide (Cursor.kind cursor ∈ [VAR_DECL; PARM_DECL; TYPEDEF_DECL; FIELD_DECL])
  then Some (CType.pointer_depth
               (if bool_decide (Cursor.kind cursor = TYPEDEF_DECL)
                then Cursor.underlying_typedef_type_canonical cursor
                else Cursor.type cursor))
  else None.

(** [if rule.prefix: prefix_rules.append(rule)], and the same for the
    suffix. *)
Definition accumulate (affix : option string) (rule : Rule) (affix_rules : list Rule)
  : list Rule :=
  if truthy affix then affix_rules ++ [rule] else affix_rules.

(** The loop of [_process_node] over [self._rule_set.rules].  It gives
    back the verdict and the rules as the loop leaves them: a rule the
    loop reached carries the [kinds] that [_rule_applies] left in it,
    the rules after an early [return] are untouched. *)
Fixpoint rules_loop (cursor : Cursor.info) (config_kind : string)
    (visibility : option string) (pointer_level : option nat) (location : string)
    (rules prefix_rules suffix_rules : list Rule)
    (substitute_vars : gmap string string) : M (bool * list Rule) :=
  match rules with
  | [] => ret (true, [])
  | rule0 :: rest =>
      a <- lift (_rule_applies re cursor rule0 config_kind visibility pointer_level) ;;
      let rule := a.2 in
      if negb a.1 then
        r <- rules_loop cursor config_kind visibility pointer_level location
               rest prefix_rules suffix_rules substitute_vars ;;
        ret (r.1, rule :: r.2)
      else
        let prefix_rules' := accumulate (Rule.prefix rule) rule prefix_rules in
        let suffix_rules' := accumulate (Rule.suffix rule) rule suffix_rules in
        if negb (is_None (Rule.rule rule)) || negb (is_None (Rule.allow_rule rule))
        then
          t <- _test_rule re cursor rule prefix_rules' suffix_rules' location
                 substitute_vars ;;
          match t.1 with
          | Some result => ret (result, rule :: rest)
          | None =>
              r <- rules_loop cursor config_kind visibility pointer_level location
                     rest prefix_rules' suffix_rules' t.2 ;;
              ret (r.1, rule :: r.2)
          end
        else
          r <- rules_loop cursor config_kind visibility pointer_level location
                 rest prefix_rules' suffix_rules' substitute_vars ;;
          ret (r.1, rule :: r.2)
  end.

Definition _process_node (cursor : Cursor.info) : M bool :=
  if negb (Location.is_from_main_file (Cursor.location cursor)) then ret true
  else
    let file_path := Location.file (Cursor.location cursor) in
    k <- _get_config_kind cursor file_path ;;
    match k.1 with
    | None => ret true
    | Some config_kind =>
        let visibility := k.2 in
        let location := location_str (Cursor.location cursor) in
        let pointer_level := pointer_level_of cursor in
        let substitute_vars := initial_vars file_path pointer_level in
        p <- get ;;
        r <- rules_loop cursor config_kind visibility pointer_level location
               (RuleSet.rules (_rule_set p)) [] [] substitute_vars ;;
        set_rules r.2 ;;;
        ret r.1
    end.

(** The test that stops [_process] from walking into a typedef. *)
Definition recurse_into (cursor : Cursor.info) : bool :=
  negb (bool_decide (Cursor.kind cursor = TYPEDEF_DECL))
  || negb (bool_decide
             (CType.kind (Cursor.underlying_typedef_type_canonical cursor)
                ∈ [RECORD; ENUM])).

Fixpoint _process (cursor : Cursor.t) : M unit :=
  match cursor with
  | Cursor.Node c children =>
      passed <- _process_node c ;;
      (if passed then ret tt else set_has_failures) ;;;
      if recurse_into c
      then (fix each (cs : list Cursor.t) : M unit :=
              match cs with
              | [] => ret tt
              | child :: cs' => _process child ;;; each cs'
              end) children
      else ret tt
  end.

(** [len(tokens_before) == 0 or (len(tokens_before) == 1 and
    tokens_before[0].extent == token.extent)]: nothing before the
    comment on its line. *)
Definition nothing_before (translation_unit : TranslationUnit.t) (token : Token.t)
  : bool :=
  match TranslationUnit.tokens_at_line_start translation_unit
          (Location.file (Token.location token))
          (Location.line (Token.location token)) with
  | [] => true
  | [t] => bool_decide (Token.extent t = Token.extent token)
  | _ => false
  end.

(** The key an ignore comment is stored under. *)
Definition comment_key (translation_unit : TranslationUnit.t) (token : Token.t)
  : string :=
  ignore_key_of (Location.file (Token.location token))
    (if nothing_before translation_unit token
     then Location.line (Token.location token) + 1
     else Location.line (Token.location token)).

(** One round of the loop of [_process_tokens]. *)
Definition process_token (translation_unit : TranslationUnit.t) (token : Token.t)
  : M unit :=
  if bool_decide (Token.kind token = COMMENT) then
    match CommentGrammar.fullmatch_comment (Token.spelling token) with
    | None => ret tt
    | Some m =>
        value <- lift (CommentGrammar.value m) ;;
        let location := location_str (Token.location token) in
        if String.eqb value "ignore" then
          p <- get ;;
          set_ignore_comments
            (<[comment_key translation_unit token
               := {| token := token; used := false |}]> (_ignore_comments p))
        else print (UnrecognisedComment location (Token.spelling token))
    end
  else ret tt.

Fixpoint process_tokens_loop (translation_unit : TranslationUnit.t)
    (tokens : list Token.t) : M unit :=
  match tokens with
  | [] => ret tt
  | token :: rest =>
      process_token translation_unit token ;;;
      process_tokens_loop translation_unit rest
  end.

Definition _process_tokens (translation_unit : TranslationUnit.t) : M unit :=
  process_tokens_loop translation_unit (TranslationUnit.tokens translation_unit).

Definition unused_warning (ic : IgnoreComment) : Diag :=
  IgnoreCommentNotUsed (Location.file (Token.location (token ic)))
                       (Location.line (Token.location (token ic)))
                       (Location.column (Token.location (token ic))).

Fixpoint print_all (ds : list Diag) : M unit :=
  match ds with
  | [] => ret tt
  | d :: rest => print d ;;; print_all rest
  end.

(** [process]: the warnings come in the order the map lists its
    comments, Python prints them in insertion order. *)
Definition process (translation_unit : TranslationUnit.t) : M bool :=
  _process_tokens translation_unit ;;;
  _process (TranslationUnit.cursor translation_unit) ;;;
  p <- get ;;
  print_all (unused_warning <$>
               filter (fun ic => used ic = false)
                      ((map_to_list (_ignore_comments p)).*2)) ;;;
  ret (negb (_has_failures p)).

End Traversal.

(** ** An engine for literal patterns

    Python's [re] on the patterns the examples below use: a pattern made
    of ASCII letters, digits and underscores matches exactly itself, and
    [search] takes such a pattern anchored by a leading [^] or a trailing
    [$].  A pattern without groups has no group called [name].  Every
    other pattern is refused, so no example depends on an answer this
    engine would have to make up. *)

Module Literal.

Fixpoint is_literal (s : string) : bool :=
  match s with
  | EmptyString => true
  | String c s' => SubstTemplate.id_char c && is_literal s'
  end.

Definition lit_fullmatch (pattern s : string) : Res bool :=
  if is_literal pattern then Ok (String.eqb pattern s) else Raise ReError.

(** [s.endswith(p)] *)
Definition endswith (p s : string) : bool :=
  String.eqb p (slice_from (String.length s - String.length p) s)
  && Nat.leb (String.length p) (String.length s).

Definition lit_search (pattern s : string) : Res (option (nat * nat)) :=
  match pattern with
  | String "^" lit =>
      if is_literal lit
      then Ok (if Py.startswith lit s then Some (0, String.length lit) else None)
      else Raise ReError
  | _ =>
      match CommentGrammar.drop_prefix "$" (String.rev pattern) with
      | Some tail =>
          let lit := String.rev tail in
          if is_literal lit
          then Ok (if endswith lit s
                   then Some (String.length s - String.length lit, String.length s)
                   else None)
          else Raise ReError
      | None => Raise ReError
      end
  end.

Definition lit_fullmatch_group (pattern s : string) : Res (option GroupLookup) :=
  if is_literal pattern
  then Ok (if String.eqb pattern s then Some NoSuchGroup else None)
  else Raise ReError.

Definition engine : ReEngine :=
  {| fullmatch := lit_fullmatch;
     search := lit_search;
     fullmatch_group := lit_fullmatch_group |}.

End Literal.

(** ** Notions used in the statements *)

(** The rule applies: [_rule_applies] returns [True]. *)
Definition applies (re : ReEngine) (cursor : Cursor.info) (rule : Rule)
    (config_kind : string) (visibility : option string) (pointer_level : option nat)
  : Prop :=
  exists rule',
    _rule_applies re cursor rule config_kind visibility pointer_level = Ok (true, rule').

(** What [_get_config_kind] returns, apart from the warnings it prints. *)
Definition config_kind_of (cursor : Cursor.info) : option string * option string :=
  match _get_config_kind cursor (Location.file (Cursor.location cursor))
          (new_processor (RuleSet.mk [] ∅)) with
  | Ok (k, _) => k
  | Raise _ => (None, None)
  end.

(** The nodes [_process] hands to [_process_node], in order. *)
Fixpoint visits (cursor : Cursor.t) : list Cursor.info :=
  match cursor with
  | Cursor.Node c children =>
      c :: (if recurse_into c
            then (fix each (cs : list Cursor.t) : list Cursor.info :=
                    match cs with
                    | [] => []
                    | child :: cs' => visits child ++ each cs'
                    end) children
            else [])
  end.

(** [_process_node] on each node of a list, folding a failure into
    [_has_failures]. *)
Fixpoint process_nodes (re : ReEngine) (nodes : list Cursor.info) : M unit :=
  match nodes with
  | [] => ret tt
  | c :: rest =>
      passed <- _process_node re c ;;
      (if passed then ret tt else set_has_failures) ;;;
      process_nodes re rest
  end.

(** ** Inputs of the examples *)

Module Examples.

Definition at_line (line column : nat) : Location.t :=
  Location.mk "src/widget.c" line column true.

Definition no_parent : Parent.t := Parent.mk "" "" false.

Definition int_t : CType.t := CType.Plain OTHER_TYPE "int".
Definition int_ptr_ptr_t : CType.t :=
  CType.PointerTo "int **" (CType.PointerTo "int *" int_t).

(** A local variable [ty name;] at [line]. *)
Definition local_var (name : string) (ty : CType.t) (line column : nat) : Cursor.info :=
  Cursor.mk VAR_DECL name ty ty NO_LINKAGE false false (at_line line column) [] no_parent.

(** A rule with selectors [kind] and [pointer] only. *)
Definition rule_of (name : string) (kind : option (list string))
    (pointer : option PointerField) (prefix suffix rule allow_rule : option string)
  : Rule :=
  Rule.mk name kind None None pointer None prefix suffix rule allow_rule.

(** [int **table;] and a rule with [pointer = true]. *)
Definition table : Cursor.info := local_var "table" int_ptr_ptr_t 4 5.
Definition any_pointer : Rule :=
  rule_of "pointers" (Some ["variable"]) (Some (PBool true)) None None (Some "table") None.


(** The tokens of
[[
    int Foo; // c-name-style ignore
    /* c-name-style ignore */
    int Bar;
]]
    on lines 3 to 5. *)
Definition tok (kind : TokenKind) (spelling : string) (line column width : nat)
  : Token.t :=
  Token.mk kind spelling (at_line line column)
           ((line, column), (line, column + width)).

Definition trailing_comment : Token.t := tok COMMENT "// c-name-style ignore" 3 10 22.
Definition own_line_comment : Token.t := tok COMMENT "/* c-name-style ignore */" 4 1 25.

Definition source_tokens : list Token.t :=
  [tok KEYWORD "int" 3 1 3; tok IDENTIFIER "Foo" 3 5 3; tok PUNCTUATION ";" 3 8 1;
   trailing_comment;
   own_line_comment;
   tok KEYWORD "int" 5 1 3; tok IDENTIFIER "Bar" 5 5 3; tok PUNCTUATION ";" 5 8 1].

(** libclang, asked for the tokens of the empty extent at the start of a
    line, lexes one token from there on: the first token of the stream
    that does not lie before the line. *)
Definition first_token_from (tokens : list Token.t) (file : string) (line : nat)
  : list Token.t :=
  match filter (fun t => Location.file (Token.location t) = file
                         /\ line <= Location.line (Token.location t)) tokens with
  | t :: _ => [t]
  | [] => []
  end.

Definition source_unit : TranslationUnit.t :=
  TranslationUnit.mk (Cursor.Node table []) source_tokens (first_token_from source_tokens).

(** The cursors libclang builds for
[[
    typedef struct S { int x; } *SPtr;
]]
    the tag [S] with its field is a child of the translation unit and,
    defined inside the typedef, a child of the typedef as well. *)
Definition struct_S_t : CType.t := CType.Plain RECORD "struct S".

Definition root : Cursor.info :=
  Cursor.mk TRANSLATION_UNIT "src/widget.c" (CType.Plain OTHER_TYPE "")
            (CType.Plain OTHER_TYPE "") INVALID false false
            (Location.mk "" 0 0 false) [] no_parent.

Definition struct_S : Cursor.info :=
  Cursor.mk STRUCT_DECL "S" struct_S_t struct_S_t EXTERNAL false false (at_line 1 16)
            ["struct"; "S"; "{"; "int"; "x"; ";"; "}"] no_parent.

Definition field_x : Cursor.info :=
  Cursor.mk FIELD_DECL "x" int_t int_t NO_LINKAGE false false (at_line 1 24)
            ["int"; "x"] (Parent.mk "S" "struct S" false).

Definition struct_S_tree : Cursor.t :=
  Cursor.Node struct_S [Cursor.Node field_x []].

(** [typedef ... *SPtr]: the canonical underlying type is a pointer. *)
Definition typedef_SPtr : Cursor.info :=
  Cursor.mk TYPEDEF_DECL "SPtr" (CType.Plain OTHER_TYPE "SPtr")
            (CType.PointerTo "struct S *" struct_S_t) NO_LINKAGE false false
            (at_line 1 31)
            ["typedef"; "struct"; "S"; "{"; "int"; "x"; ";"; "}"; "*"; "SPtr"] no_parent.

Definition pointer_typedef_unit : Cursor.t :=
  Cursor.Node root [struct_S_tree; Cursor.Node typedef_SPtr [struct_S_tree]].

(** [typedef struct S { int x; } SAlias;]: the canonical underlying type
    is the record itself. *)
Definition typedef_SAlias : Cursor.info :=
  Cursor.mk TYPEDEF_DECL "SAlias" (CType.Plain OTHER_TYPE "SAlias")
            struct_S_t NO_LINKAGE false false (at_line 1 30)
            ["typedef"; "struct"; "S"; "{"; "int"; "x"; ";"; "}"; "SAlias"] no_parent.

Definition record_typedef_unit : Cursor.t :=
  Cursor.Node root [struct_S_tree; Cursor.Node typedef_SAlias [struct_S_tree]].

(** Struct members are to be called [value]. *)
Definition member_rules : RuleSet :=
  RuleSet.mk [rule_of "members" (Some ["struct_member"]) None None None (Some "value") None] ∅.

Definition x_fails : Diag :=
  FailsRule "src/widget.c:1:24" "x" "members" "value" None None.

(** [int foo;] on line 7 under a rule that asks for the prefix [T_] and
    allows the name [xyz]. *)
Definition foo : Cursor.info := local_var "foo" int_t 7 5.

Definition prefixed_allow : Rule :=
  rule_of "prefixed" (Some ["variable"]) None (Some "T_") None None (Some "xyz").
Definition prefix_allow_rules : RuleSet := RuleSet.mk [prefixed_allow] ∅.

Definition foo_misses_prefix : Diag :=
  MissingAffix "src/widget.c:7:5" "foo" "prefix" "T_" ["prefixed"].

(** The same prefix under a required rule. *)
Definition prefixed_rule : Rule :=
  rule_of "prefixed" (Some ["variable"]) None (Some "T_") None (Some "xyz") None.

(** [int Foo, Bar; // c-name-style ignore] on line 7, variables to be
    called [value]. *)
Definition Foo : Cursor.info := local_var "Foo" int_t 7 5.
Definition Bar : Cursor.info := local_var "Bar" int_t 7 10.

Definition value_rule : Rule :=
  rule_of "values" (Some ["variable"]) None None None (Some "value") None.
Definition value_rules : RuleSet := RuleSet.mk [value_rule] ∅.

Definition line7_comment : Token.t := tok COMMENT "// c-name-style ignore" 7 15 22.

Definition with_comment (is_used : bool) : Processor :=
  {| _rule_set := value_rules;
     _ignore_comments := {[ "src/widget.c:7" := {| token := line7_comment; used := is_used |} ]};
     _has_failures := false;
     stdout := [] |}.

(** A prefix rule, then a required rule that opts out of the prefix. *)
Definition t_prefix : Rule :=
  rule_of "t-prefix" (Some ["variable"]) None (Some "T_") None None None.
Definition plain_foo : Rule :=
  rule_of "plain" (Some ["variable"]) None (Some "") None (Some "foo") None.
Definition opt_out_rules : RuleSet := RuleSet.mk [t_prefix; plain_foo] ∅.

(** [int T_tmp;] under an allow rule with the prefix [T_], followed by a
    required rule. *)
Definition T_tmp : Cursor.info := local_var "T_tmp" int_t 9 5.

Definition allow_tmp : Rule :=
  rule_of "temporaries" (Some ["variable"]) None (Some "T_") None None (Some "tmp").

Definition vars_of (cursor : Cursor.info) : gmap string string :=
  initial_vars (Location.file (Cursor.location cursor)) (pointer_level_of cursor).

(** [static int counter;] at file scope of the header [widget.h], and the
    typedef [typedef struct S SAlias;]. *)
Definition header_counter : Cursor.info :=
  Cursor.mk VAR_DECL "counter" int_t int_t INTERNAL false false
            (Location.mk "include/widget.h" 3 12 true) [] no_parent.

Definition parameter_n : Cursor.info :=
  Cursor.mk PARM_DECL "n" int_t int_t NO_LINKAGE false false (at_line 12 14) [] no_parent.

(** A configuration with two rules around a [placeholders] section. *)
Definition style_sections : list (string * gmap string string) :=
  [("globals", <["kind" := "variable"]> (<["prefix" := "g_"]> ∅));
   ("placeholders", <["id" := "${case:camel}"]> ∅);
   ("names", <["kind" := "variable, parameter"]> (<["rule" := "${p:id}"]> ∅))].



End Examples.

(** ** The claims as the specification words them, where the program
    does otherwise *)


(** What one call of [_rule_applies], or none, does to a stored rule. *)
Definition kinds_expanded (r r' : Rule) : Prop :=
  r' = r \/ r' = Rule.set_kinds r (expand_kinds <$> Rule.kinds r).

Definition no_alias (r : Rule) : Prop :=
  match Rule.kinds r with
  | Some ks => Forall (fun k => is_alias k = false) ks
  | None => True
  end.

(** A computation keeps a relation between the state it starts from and
    the state it ends in. *)
Definition preserves {A} (R : Processor -> Processor -> Prop) (m : M A) : Prop :=
  forall p a p', m p = Ok (a, p') -> R p p'.

Definition same_rule_set (p p' : Processor) : Prop := _rule_set p' = _rule_set p.





(** [needle in hay] *)
Fixpoint contains (needle hay : string) : bool :=
  Py.startswith needle hay
  || match hay with
     | EmptyString => false
     | String _ hay' => contains needle hay'
     end.








(** A comment of the suppression grammar whose value is [ignore]. *)
Definition is_ignore_comment (token : Token.t) : Prop :=
  Token.kind token = COMMENT
  /\ exists m, CommentGrammar.fullmatch_comment (Token.spelling token) = Some m
               /\ CommentGrammar.value m = Ok "ignore".

(** The processor with the comment [token] registered under [key]. *)
Definition registered (key : string) (token : Token.t) (p : Processor) : Processor :=
  {| _rule_set := _rule_set p;
     _ignore_comments := <[key := {| token := token; used := false |}]> (_ignore_comments p);
     _has_failures := _has_failures p;
     stdout := stdout p |}.

(** An unused ignore comment is stored under [key]. *)
Definition unused_at (key : string) (p : Processor) : Prop :=
  exists ic, _ignore_comments p !! key = Some ic /\ used ic = false.

(** Induction over a cursor tree, with the property known of every
    child. *)
Fixpoint cursor_tree_ind (P : Cursor.t -> Prop)
    (step : forall c children, Forall P children -> P (Cursor.Node c children))
    (cursor : Cursor.t) : P cursor :=
  match cursor with
  | Cursor.Node c children =>
      step c children
        ((fix each (cs : list Cursor.t) : Forall P cs :=
            match cs with
            | [] => @List.Forall_nil _ P
            | child :: cs' =>
                @List.Forall_cons _ P child cs' (cursor_tree_ind P step child) (each cs')
            end) children)
  end.

(** The children loop of [_process] and of [visits]. *)
Fixpoint process_children (re : ReEngine) (cs : list Cursor.t) : M unit :=
  match cs with
  | [] => ret tt
  | child :: cs' => _process re child ;;; process_children re cs'
  end.

Fixpoint visits_children (cs : list Cursor.t) : list Cursor.info :=
  match cs with
  | [] => []
  | child :: cs' => visits child ++ visits_children cs'
  end.


Definition printed (d : Diag) (p : Processor) : Processor :=
  {| _rule_set := _rule_set p;
     _ignore_comments := _ignore_comments p;
     _has_failures := _has_failures p;
     stdout := stdout p ++ [d] |}.



(** C8 as worded: under a rule whose prefix field is the empty string the
    compound prefix of the other rules is still tested, so that a name
    without it is reported. *)
Definition compound_prefix_still_tested (re : ReEngine) (cursor : Cursor.info)
    (rule : Rule) (prefix_rules suffix_rules : list Rule) (location : string)
    (substitute_vars : gmap string string) (p : Processor) : Prop :=
  Rule.prefix rule = Some "" ->
  forall expanded_prefix,
    prefix_rules <> [] ->
    join_affixes Rule.prefix prefix_rules substitute_vars p = Ok (expanded_prefix, p) ->
    search re ("^" +:+ expanded_prefix) (Cursor.spelling cursor) = Ok None ->
    has_ignore_comment_for cursor p = false ->
    exists res p',
      _test_rule re cursor rule prefix_rules suffix_rules location substitute_vars p
      = Ok (res, p')
      /\ MissingAffix location (Cursor.spelling cursor) "prefix" expanded_prefix
                      (Rule.name <$> prefix_rules) ∈ stdout p'.

(** A rule that applies carries no body and no allow pattern. *)
Definition affix_only (re : ReEngine) (cursor : Cursor.info) (config_kind : string)
    (rule : Rule) : Prop :=
  exists b rule',
    _rule_applies re cursor rule config_kind (config_kind_of cursor).2
                  (pointer_level_of cursor) = Ok (b, rule')
    /\ (b = true -> Rule.rule rule = None /\ Rule.allow_rule rule = None).

(** ** Notions used in the further properties *)

(** The cursor with another canonical underlying type, the rule with
    another visibility list. *)
Definition with_canonical (c : Cursor.info) (ty : CType.t) : Cursor.info :=
  Cursor.mk (Cursor.kind c) (Cursor.spelling c) (Cursor.type c) ty (Cursor.linkage c)
            (Cursor.has_var_decl_external_storage c) (Cursor.is_function_inlined c)
            (Cursor.location c) (Cursor.tokens c) (Cursor.semantic_parent c).

Definition with_visibility (r : Rule) (vs : option (list string)) : Rule :=
  Rule.mk (Rule.name r) (Rule.kinds r) vs (Rule.types r) (Rule.pointer r)
          (Rule.parent_match r) (Rule.prefix r) (Rule.suffix r) (Rule.rule r)
          (Rule.allow_rule r).

(** The verdict of [_rule_applies], without the rule it leaves. *)
Definition applies_verdict (re : ReEngine) (cursor : Cursor.info) (rule : Rule)
    (config_kind : string) (visibility : option string) (pointer_level : option nat)
  : Res bool :=
  match _rule_applies re cursor rule config_kind visibility pointer_level with
  | Ok (b, _) => Ok b
  | Raise e => Raise e
  end.

(** [file_path.suffix in [".h", ".hpp"]] for the file of the cursor. *)
Definition in_header (cursor : Cursor.info) : bool :=
  bool_decide (Path.suffix (Location.file (Cursor.location cursor)) ∈ [".h"; ".hpp"]).

(** Where a kind in an expanded list can come from: the list as
    configured, or the members of an alias the list names. *)
Definition named_by (l0 : list string) (k : string) : Prop :=
  k ∈ l0 \/ exists a members, a ∈ l0 /\ _KIND_EXPANSION a = Some members /\ k ∈ members.

(** The keyword [_is_struct_enum_union_unnamed] looks for. *)
Definition tag_keyword (k : CursorKind) : option string :=
  match k with
  | ENUM_DECL => Some "enum"
  | STRUCT_DECL => Some "struct"
  | UNION_DECL => Some "union"
  | _ => None
  end.

(** A text without [$], and an identifier as [SubstTemplate] reads one
    between braces. *)
Fixpoint dollar_free (s : string) : bool :=
  match s with
  | EmptyString => true
  | String c s' => negb (Ascii.eqb c "$") && dollar_free s'
  end.

Fixpoint all_chars (f : ascii -> bool) (s : string) : bool :=
  match s with
  | EmptyString => true
  | String c s' => f c && all_chars f s'
  end.

Definition valid_braceid (name : string) : bool :=
  match name with
  | EmptyString => false
  | String c rest => SubstTemplate.id_start c && all_chars SubstTemplate.braceid_char rest
  end.

(** The sections that are rules, and the last [placeholders] section. *)
Definition rule_sections (sections : list (string * gmap string string))
  : list (string * gmap string string) :=
  filter (fun s => s.1 <> "placeholders") sections.

Definition placeholder_sections (sections : list (string * gmap string string))
  : list (string * gmap string string) :=
  filter (fun s => s.1 = "placeholders") sections.

(** A text of blanks only. *)
Definition blank (s : string) : bool := all_chars Py.isspace s.

(** ** Notions for the walk as a whole *)

(** The diagnostics that report a failed declaration; the others are
    warnings. *)
Definition is_failure (d : Diag) : bool :=
  match d with
  | MissingAffix _ _ _ _ _ | FailsRule _ _ _ _ _ _ => true
  | _ => false
  end.

(** What a computation may add to and never takes back: the placeholder
    table stays, every key of the ignore table keeps its token, a comment
    marked used stays marked, a recorded failure stays recorded, and the
    output is extended at its end. *)
Definition grows (p p' : Processor) : Prop :=
  RuleSet.placeholders (_rule_set p') = RuleSet.placeholders (_rule_set p)
  /\ (forall key, token <$> _ignore_comments p' !! key = token <$> _ignore_comments p !! key)
  /\ (forall key, used <$> _ignore_comments p !! key = Some true ->
                  used <$> _ignore_comments p' !! key = Some true)
  /\ (_has_failures p = true -> _has_failures p' = true)
  /\ exists out, stdout p' = stdout p ++ out.

(** The failure flag is as it was and nothing printed reports a
    failure. *)
Definition quiet (p p' : Processor) : Prop :=
  _has_failures p' = _has_failures p
  /\ exists out, stdout p' = stdout p ++ out
                 /\ Forall (fun d => is_failure d = false) out.

(** Between the two states a failure was printed. *)
Definition failure_reported (p p' : Processor) : Prop :=
  exists out, stdout p' = stdout p ++ out
              /\ Exists (fun d => is_failure d = true) out.

(** The declarations of
[[
    int Foo; // c-name-style ignore
    /* c-name-style ignore */
    int Bar;
    int baz;

    int value; // c-name-style ignore
]]
    on lines 3 to 8 of [src/widget.c], variables to be called [value]. *)
Definition widget_tokens : list Token.t :=
  Examples.source_tokens
  ++ [Examples.tok KEYWORD "int" 6 1 3; Examples.tok IDENTIFIER "baz" 6 5 3;
      Examples.tok PUNCTUATION ";" 6 8 1;
      Examples.tok KEYWORD "int" 8 1 3; Examples.tok IDENTIFIER "value" 8 5 5;
      Examples.tok PUNCTUATION ";" 8 10 1;
      Examples.tok COMMENT "// c-name-style ignore" 8 12 22].

Definition widget_unit : TranslationUnit.t :=
  TranslationUnit.mk
    (Cursor.Node Examples.root
       [Cursor.Node (Examples.local_var "Foo" Examples.int_t 3 5) [];
        Cursor.Node (Examples.local_var "Bar" Examples.int_t 5 5) [];
        Cursor.Node (Examples.local_var "baz" Examples.int_t 6 5) [];
        Cursor.Node (Examples.local_var "value" Examples.int_t 8 5) []])
    widget_tokens (Examples.first_token_from widget_tokens).

Definition baz_fails : Diag :=
  FailsRule "src/widget.c:6:5" "baz" "values" "value" None None.

(** The failure flag is as it was and the output is extended at its
    end. *)
Definition keeps_flag (p p' : Processor) : Prop :=
  _has_failures p' = _has_failures p
  /\ exists out, stdout p' = stdout p ++ out.

(** ** Notions for the exceptions of an evaluation *)

(** A computation raises nothing outside [E]. *)
Definition raises_in {A} (E : PyExn -> Prop) (m : M A) : Prop :=
  forall p e, m p = Raise e -> E e.

(** The engine raises [re.error] and nothing else. *)
Definition raises_re_error_only (re : ReEngine) : Prop :=
  (forall pattern s e, fullmatch re pattern s = Raise e -> e = ReError)
  /\ (forall pattern s e, search re pattern s = Raise e -> e = ReError)
  /\ (forall pattern s e, fullmatch_group re pattern s = Raise e -> e = ReError).

(** A rule whose [rule] field is the empty string, without an
    [allow-rule]. *)
Definition empty_required_rule (r : Rule) : Prop :=
  Rule.rule r = Some "" /\ Rule.allow_rule r = None.

(** What [_test_rule] can raise under [rule] at [cursor]. *)
Definition test_rule_errors (cursor : Cursor.info) (rule : Rule) (e : PyExn) : Prop :=
  e = ReError
  \/ (e = AssertionError
      /\ ((Cursor.kind cursor = ENUM_CONSTANT_DECL /\ Rule.parent_match rule <> None
           /\ Parent.is_anonymous (Cursor.semantic_parent cursor) = true)
          \/ (truthy (Rule.rule rule) = false /\ Rule.allow_rule rule = None)))
  \/ (e = TypeError /\ Cursor.kind cursor = ENUM_CONSTANT_DECL
      /\ Rule.parent_match rule <> None).

(** What the evaluation of a declaration can raise under [rules]. *)
Definition node_errors (cursor : Cursor.info) (rules : list Rule) (e : PyExn) : Prop :=
  e = ReError
  \/ (e = AssertionError /\ Exists empty_required_rule rules)
  \/ (e = TypeError /\ Cursor.kind cursor = ENUM_CONSTANT_DECL
      /\ Exists (fun r => Rule.parent_match r <> None) rules).

(** A rule with [rule =] left empty. *)
Definition empty_rule : Rule :=
  Examples.rule_of "empty" (Some ["variable"]) None None None (Some "") None.

(** The entry of the ignore table under [key] is as it was. *)
Definition keeps_entry (key : string) (p p' : Processor) : Prop :=
  _ignore_comments p' !! key = _ignore_comments p !! key.

(** The selectors of a rule other than [pointer], as [_rule_applies]
    tests them: the kind is in the expanded [kinds], one of the [types]
    matches the spelling of the declared type, the visibility is in
    [visibility], and a rule with [parent_match] is not met at a constant
    of an anonymous enum.  A selector the rule does not have, or an
    attribute the declaration does not have, passes. *)
Definition other_selectors_hold (re : ReEngine) (cursor : Cursor.info) (rule : Rule)
    (config_kind : string) (visibility : option string) : Prop :=
  (forall rule_kinds, Rule.kinds rule = Some rule_kinds ->
                      config_kind ∈ expand_kinds rule_kinds)
  /\ (forall types, Rule.types rule = Some types ->
                    any_fullmatch re types (CType.spelling (Cursor.type cursor)) = Ok true)
  /\ (forall vis allowed, visibility = Some vis -> Rule.visibility rule = Some allowed ->
                          vis ∈ allowed)
  /\ (Rule.parent_match rule <> None -> Cursor.kind cursor = ENUM_CONSTANT_DECL ->
      Parent.is_anonymous (Cursor.semantic_parent cursor) = false).

(** ** The stream of tokens and the start of a line *)

(** [t1] starts before [t2] in the text, when both lie in one file. *)
Definition starts_before (t1 t2 : Token.t) : Prop :=
  Location.file (Token.location t1) = Location.file (Token.location t2) ->
  Location.line (Token.location t1) < Location.line (Token.location t2)
  \/ (Location.line (Token.location t1) = Location.line (Token.location t2)
      /\ Location.column (Token.location t1) < Location.column (Token.location t2)).

(** The tokens come in the order of the text. *)
Fixpoint in_source_order (tokens : list Token.t) : Prop :=
  match tokens with
  | [] => True
  | t :: rest => Forall (starts_before t) rest /\ in_source_order rest
  end.

(** The extent of a token starts at the token's location. *)
Definition extent_starts_at_location (t : Token.t) : Prop :=
  (Token.extent t).1
  = (Location.line (Token.location t), Location.column (Token.location t)).

(** What libclang answers to the query of [_process_tokens]: asked for
    the tokens of the empty extent at the start of a line, it lexes one
    token from there on, which is the first token of the stream that
    does not lie before that line. *)
Definition lexes_from_line_start (translation_unit : TranslationUnit.t) : Prop :=
  forall file line,
    TranslationUnit.tokens_at_line_start translation_unit file line
    = Examples.first_token_from (TranslationUnit.tokens translation_unit) file line.

(** No token of the stream starts before [token] on the line of
    [token]: the comment is the first token on its line. *)
Definition first_on_its_line (tokens : list Token.t) (token : Token.t) : Prop :=
  forall t, t ∈ tokens ->
    Location.file (Token.location t) = Location.file (Token.location token) ->
    Location.line (Token.location t) = Location.line (Token.location token) ->
    Location.column (Token.location token) <= Location.column (Token.location t).

(** A stored rule after a call of [_rule_applies] on it: the expansion
    loop has worked on its [kinds]. *)
Definition expanded (r : Rule) : Rule :=
  Rule.set_kinds r (expand_kinds <$> Rule.kinds r).

(** * Properties *)

(** ** The monad *)

Lemma bind_Ok {A B} (m : M A) (k : A -> M B) p a p' :
  m p = Ok (a, p') -> bind m k p = k a p'.
Proof. unfold bind. intros ->. reflexivity. Qed.

Lemma bind_Raise {A B} (m : M A) (k : A -> M B) p e :
  m p = Raise e -> bind m k p = Raise e.
Proof. unfold bind. intros ->. reflexivity. Qed.

Lemma bind_inv {A B} (m : M A) (k : A -> M B) p b q :
  bind m k p = Ok (b, q) -> exists a p', m p = Ok (a, p') /\ k a p' = Ok (b, q).
Proof.
  unfold bind. destruct (m p) as [[a p']|e]; [|discriminate].
  intros H. exists a, p'. split; [reflexivity | exact H].
Qed.

(** ** Pointer selector *)

Lemma pointer_matches_true d : pointer_matches (PBool true) d = true <-> 1 <= d.
Proof.
  unfold pointer_matches. destruct d as [|d]; simpl.
  - split; [discriminate | lia].
  - split; [lia | reflexivity].
Qed.

Lemma pointer_matches_int n d : pointer_matches (PInt n) d = true <-> n = Z.of_nat d.
Proof. unfold pointer_matches. apply Z.eqb_eq. Qed.

Lemma verdict_chain (ck cp cv cpm : bool) (ct : Res bool) (r : Rule) :
  (exists rule' : Rule,
     (if ck then Ok (false, r)
      else if cp then Ok (false, r)
      else match ct with
           | Raise e => Raise e
           | Ok false => Ok (false, r)
           | Ok true => if cv then Ok (false, r)
                        else if cpm then Ok (false, r) else Ok (true, r)
           end) = Ok (true, rule'))
  <-> ck = false /\ cp = false /\ ct = Ok true /\ cv = false /\ cpm = false.
Proof.
  destruct ck, cp, ct as [[|]|e], cv, cpm; simpl;
    (split; [intros [rule' H]; try discriminate H; repeat split
            | intros (H1 & H2 & H3 & H4 & H5); try discriminate;
              eexists; reflexivity]).
Qed.

Lemma applies_selectors re cursor rule k v pl :
  applies re cursor rule k v pl <->
  (forall d p, pl = Some d -> Rule.pointer rule = Some p -> pointer_matches p d = true)
  /\ other_selectors_hold re cursor rule k v.
Proof.
  unfold applies, other_selectors_hold, _rule_applies.
  destruct rule as [n ks vs ts po pm pre suf r a].
  cbn [Rule.kinds Rule.set_kinds Rule.pointer Rule.types Rule.visibility Rule.parent_match].
  rewrite verdict_chain.
  assert (A1 : match expand_kinds <$> ks with
               | Some rule_kinds => negb (bool_decide (k ∈ rule_kinds))
               | None => false
               end = false
               <-> forall rule_kinds, ks = Some rule_kinds -> k ∈ expand_kinds rule_kinds).
  { destruct ks as [ks|]; simpl.
    - rewrite negb_false_iff, bool_decide_eq_true. split.
      + intros H rk Hrk. inversion Hrk. subst. exact H.
      + intros H. apply H. reflexivity.
    - split; [intros _ rk H; discriminate H | reflexivity]. }
  assert (A2 : match pl with
               | Some pl0 => match po with
                             | Some p => negb (pointer_matches p pl0)
                             | None => false
                             end
               | None => false
               end = false
               <-> forall d p, pl = Some d -> po = Some p -> pointer_matches p d = true).
  { destruct pl as [d|], po as [p|]; simpl.
    - rewrite negb_false_iff. split.
      + intros H d' p' Hd Hp. inversion Hd. inversion Hp. subst. exact H.
      + intros H. apply H; reflexivity.
    - split; [intros _ d' p' _ H; discriminate H | reflexivity].
    - split; [intros _ d' p' H; discriminate H | reflexivity].
    - split; [intros _ d' p' H; discriminate H | reflexivity]. }
  assert (A3 : match ts with
               | Some types => any_fullmatch re types (CType.spelling (Cursor.type cursor))
               | None => Ok true
               end = Ok true
               <-> forall types, ts = Some types ->
                     any_fullmatch re types (CType.spelling (Cursor.type cursor)) = Ok true).
  { destruct ts as [types|].
    - split.
      + intros H types' Ht. inversion Ht. subst. exact H.
      + intros H. apply H. reflexivity.
    - split; [intros _ types H; discriminate H | reflexivity]. }
  assert (A4 : match v with
               | Some v0 => match vs with
                            | Some vs0 => negb (bool_decide (v0 ∈ vs0))
                            | None => false
                            end
               | None => false
               end = false
               <-> forall vis allowed, v = Some vis -> vs = Some allowed -> vis ∈ allowed).
  { destruct v as [vis|], vs as [allowed|]; simpl.
    - rewrite negb_false_iff, bool_decide_eq_true. split.
      + intros H vis' allowed' Hv Ha. inversion Hv. inversion Ha. subst. exact H.
      + intros H. apply H; reflexivity.
    - split; [intros _ ? ? _ H; discriminate H | reflexivity].
    - split; [intros _ ? ? H; discriminate H | reflexivity].
    - split; [intros _ ? ? H; discriminate H | reflexivity]. }
  assert (A5 : negb (is_None pm) && bool_decide (Cursor.kind cursor = ENUM_CONSTANT_DECL)
               && Parent.is_anonymous (Cursor.semantic_parent cursor) = false
               <-> (pm <> None -> Cursor.kind cursor = ENUM_CONSTANT_DECL ->
                    Parent.is_anonymous (Cursor.semantic_parent cursor) = false)).
  { destruct pm as [pm|]; simpl.
    - destruct (bool_decide (Cursor.kind cursor = ENUM_CONSTANT_DECL)) eqn:Hk; simpl.
      + apply bool_decide_eq_true_1 in Hk. split.
        * intros H _ _. exact H.
        * intros H. apply H; [discriminate | exact Hk].
      + apply bool_decide_eq_false_1 in Hk.
        split; [intros _ _ H; contradiction | reflexivity].
    - split; [intros _ H; contradiction | reflexivity]. }
  rewrite A1, A2, A3, A4, A5. tauto.
Qed.

(** C6.  For a declaration whose pointer depth [_process_node] computes
    as [d]: a rule with [pointer = true] applies exactly when [d >= 1]
    and its other selectors hold, and at depth 0 [_rule_applies] returns
    [False]; a rule with [pointer = n] applies exactly when [d = n] and
    its other selectors hold, and at any other depth [_rule_applies]
    returns [False]; and the other selectors are what decides for the
    rule without its pointer field. *)
Theorem pointer_selector re cursor rule k v d :
  pointer_level_of cursor = Some d ->
  (Rule.pointer rule = Some (PBool true) ->
   (applies re cursor rule k v (pointer_level_of cursor)
    <-> 1 <= d /\ other_selectors_hold re cursor rule k v)
   /\ (d = 0 -> exists rule',
         _rule_applies re cursor rule k v (pointer_level_of cursor) = Ok (false, rule')))
  /\ (forall n, Rule.pointer rule = Some (PInt n) ->
      (applies re cursor rule k v (pointer_level_of cursor)
       <-> n = Z.of_nat d /\ other_selectors_hold re cursor rule k v)
      /\ (n <> Z.of_nat d -> exists rule',
            _rule_applies re cursor rule k v (pointer_level_of cursor) = Ok (false, rule')))
  /\ (applies re cursor (Rule.set_pointer rule None) k v (pointer_level_of cursor)
      <-> other_selectors_hold re cursor rule k v).
Proof.
  intros ->.
  assert (Hfalse : forall p, Rule.pointer rule = Some p -> pointer_matches p d = false ->
            exists rule', _rule_applies re cursor rule k v (Some d) = Ok (false, rule')).
  { intros p Hp Hm. unfold _rule_applies.
    destruct (match Rule.kinds _ with Some _ => _ | None => _ end);
      [eexists; reflexivity|].
    replace (Rule.pointer (Rule.set_kinds rule (expand_kinds <$> Rule.kinds rule)))
      with (Some p) by (destruct rule; exact (eq_sym Hp)).
    rewrite Hm. eexists. reflexivity. }
  split; [|split].
  - intros Hp. split.
    + rewrite applies_selectors, <- pointer_matches_true. split.
      * intros [H Ho]. split; [exact (H d _ eq_refl Hp) | exact Ho].
      * intros [H Ho]. split; [|exact Ho].
        intros d' p' Hd Hp'. rewrite Hp in Hp'. inversion Hd. inversion Hp'. subst. exact H.
    + intros ->. exact (Hfalse _ Hp eq_refl).
  - intros n Hp. split.
    + rewrite applies_selectors, <- pointer_matches_int. split.
      * intros [H Ho]. split; [exact (H d _ eq_refl Hp) | exact Ho].
      * intros [H Ho]. split; [|exact Ho].
        intros d' p' Hd Hp'. rewrite Hp in Hp'. inversion Hd. inversion Hp'. subst. exact H.
    + intros Hn. apply (Hfalse _ Hp).
      destruct (pointer_matches (PInt n) d) eqn:Hm; [|reflexivity].
      apply pointer_matches_int in Hm. contradiction.
  - rewrite applies_selectors. split.
    + intros [_ Ho]. destruct rule. exact Ho.
    + intros Ho. split; [|destruct rule; exact Ho].
      intros d' p' _ Hp'. destruct rule. discriminate Hp'.
Qed.

Lemma pointer_selector_witness :
  pointer_level_of Examples.table = Some 2
  /\ applies Literal.engine Examples.table Examples.any_pointer "variable" (Some "local")
       (pointer_level_of Examples.table).
Proof.
  split; [reflexivity|].
  apply (proj1 (proj1 (pointer_selector Literal.engine Examples.table Examples.any_pointer
                         "variable" (Some "local") 2 eq_refl) eq_refl)).
  split; [lia|]. split; [|split; [|split]].
  - intros rule_kinds H. inversion H. subst. vm_compute. constructor.
  - intros types H. discriminate H.
  - intros vis allowed _ H. discriminate H.
  - intros H. contradiction.
Defined.

(** How the configuration yields the two forms of the field: [int()] is
    tried first, so [1] is the integer one and [true] the boolean. *)
Example pointer_field_forms :
  RuleSet.get_pointer (<["pointer" := "true"]> ∅) = Ok (Some (PBool true))
  /\ RuleSet.get_pointer (<["pointer" := "2"]> ∅) = Ok (Some (PInt 2))
  /\ RuleSet.get_pointer (<["pointer" := "1"]> ∅) = Ok (Some (PInt 1))
  /\ RuleSet.get_pointer ∅ = Ok None.
Proof. repeat split; vm_compute; reflexivity. Qed.

(** ** Kind aliases: the expansion loop *)

Lemma expand_measure_eq i l : expand_measure i l = (length l - i) + 7 * alias_count l.
Proof. reflexivity. Qed.

Lemma alias_count_cons k l :
  alias_count (k :: l) = (if is_alias k then 1 else 0) + alias_count l.
Proof.
  unfold alias_count. destruct (is_alias k) eqn:Hk.
  - rewrite filter_cons_True by exact Hk. reflexivity.
  - rewrite filter_cons_False by (rewrite Hk; discriminate). reflexivity.
Qed.

Lemma alias_count_app l1 l2 : alias_count (l1 ++ l2) = alias_count l1 + alias_count l2.
Proof. unfold alias_count. rewrite filter_app, length_app. reflexivity. Qed.

Lemma members_bound k members :
  _KIND_EXPANSION k = Some members -> alias_count members = 0 /\ length members <= 5.
Proof.
  unfold _KIND_EXPANSION.
  repeat (destruct (String.eqb k _));
    intros H; inversion H; subst; split; vm_compute; (reflexivity || lia).
Qed.

Lemma remove_length x l : x ∈ l -> S (length (Py.remove x l)) = length l.
Proof.
  induction l as [|y l IH]; intros Hin.
  - inversion Hin.
  - simpl. destruct (String.eqb x y) eqn:Hxy; [reflexivity|].
    apply String.eqb_neq in Hxy.
    apply elem_of_cons in Hin as [->|Hin]; [congruence|].
    simpl. rewrite IH by exact Hin. reflexivity.
Qed.

Lemma remove_alias_count x l :
  is_alias x = true -> x ∈ l -> S (alias_count (Py.remove x l)) = alias_count l.
Proof.
  intros Hx. induction l as [|y l IH]; intros Hin.
  - inversion Hin.
  - simpl. destruct (String.eqb x y) eqn:Hxy.
    + apply String.eqb_eq in Hxy. subst y.
      rewrite alias_count_cons, Hx. reflexivity.
    + apply String.eqb_neq in Hxy.
      apply elem_of_cons in Hin as [->|Hin]; [congruence|].
      rewrite !alias_count_cons, <- (IH Hin). lia.
Qed.

(** The loop ends within the rounds [expand_kinds] allows it. *)
Lemma expand_loop_terminates fuel : forall i l,
  expand_measure i l < fuel -> exists l', expand_loop fuel i l = Some l'.
Proof.
  induction fuel as [|fuel IH]; intros i l Hm; [lia|].
  simpl. destruct (l !! i) as [rule_kind|] eqn:Hi; [|eexists; reflexivity].
  pose proof (lookup_lt_Some _ _ _ Hi) as Hlt.
  destruct (_KIND_EXPANSION rule_kind) as [members|] eqn:He.
  - apply IH.
    destruct (members_bound _ _ He) as [Hc Hl].
    assert (Hin : rule_kind ∈ l ++ members).
    { apply elem_of_app. left. eapply list_elem_of_lookup_2. exact Hi. }
    assert (Ha : is_alias rule_kind = true) by (unfold is_alias; rewrite He; reflexivity).
    pose proof (remove_length _ _ Hin) as H1.
    pose proof (remove_alias_count _ _ Ha Hin) as H2.
    rewrite length_app in H1. rewrite alias_count_app, Hc in H2.
    rewrite expand_measure_eq in *. lia.
  - apply IH. rewrite expand_measure_eq in *. lia.
Qed.

Lemma expand_kinds_loop l :
  expand_loop (S (expand_measure 0 l)) 0 l = Some (expand_kinds l).
Proof.
  unfold expand_kinds.
  destruct (expand_loop_terminates (S (expand_measure 0 l)) 0 l) as [l' ->]; [lia|].
  reflexivity.
Qed.

(** Without an alias at or after the index, the loop changes nothing. *)
Lemma expand_loop_no_alias fuel : forall i l,
  length l - i < fuel ->
  (forall j k, i <= j -> l !! j = Some k -> is_alias k = false) ->
  expand_loop fuel i l = Some l.
Proof.
  induction fuel as [|fuel IH]; intros i l Hm Hl; [lia|].
  simpl. destruct (l !! i) as [rule_kind|] eqn:Hi; [|reflexivity].
  pose proof (lookup_lt_Some _ _ _ Hi) as Hlt.
  pose proof (Hl i rule_kind (Nat.le_refl _) Hi) as Ha.
  unfold is_alias in Ha. destruct (_KIND_EXPANSION rule_kind); [discriminate|].
  apply IH; [lia|]. intros j k Hj. apply Hl. lia.
Qed.


Lemma expand_kinds_no_alias l :
  Forall (fun k => is_alias k = false) l -> expand_kinds l = l.
Proof.
  intros Hl. unfold expand_kinds.
  rewrite (expand_loop_no_alias _ 0 l); [reflexivity | rewrite expand_measure_eq; lia |].
  intros j k _ Hj. rewrite Forall_forall in Hl. apply Hl.
  eapply list_elem_of_lookup_2. exact Hj.
Qed.



(** ** What a node's evaluation does to the rule set *)

Lemma preserves_ret {A} (R : Processor -> Processor -> Prop) (a : A) :
  Reflexive R -> preserves R (ret a).
Proof. intros HR p a' p' H. inversion H. subst. apply HR. Qed.

Lemma preserves_bind {A B} (R : Processor -> Processor -> Prop) (m : M A) (k : A -> M B) :
  Transitive R -> preserves R m -> (forall a, preserves R (k a)) -> preserves R (bind m k).
Proof.
  intros HT Hm Hk p b q H. apply bind_inv in H as (a & p' & H1 & H2).
  apply (HT _ p'); [eapply Hm | eapply Hk]; eassumption.
Qed.

Lemma preserves_lift {A} (R : Processor -> Processor -> Prop) (r : Res A) :
  Reflexive R -> preserves R (lift r).
Proof. intros HR p a p' H. unfold lift in H. destruct r; inversion H. subst. apply HR. Qed.

Lemma preserves_raise {A} (R : Processor -> Processor -> Prop) e :
  preserves R (@raise A e).
Proof. intros p a p' H. discriminate H. Qed.

Lemma preserves_get (R : Processor -> Processor -> Prop) :
  Reflexive R -> preserves R get.
Proof. intros HR p a p' H. inversion H. subst. apply HR. Qed.

Global Instance same_rule_set_refl : Reflexive same_rule_set.
Proof. intros p. reflexivity. Qed.

Global Instance same_rule_set_trans : Transitive same_rule_set.
Proof. intros p q r H1 H2. unfold same_rule_set in *. congruence. Qed.

Lemma same_rule_set_print d : preserves same_rule_set (print d).
Proof. intros p a p' H. inversion H. reflexivity. Qed.

Lemma same_rule_set_set_used key : preserves same_rule_set (set_used key).
Proof. intros p a p' H. inversion H. reflexivity. Qed.

Lemma same_rule_set_set_has_failures : preserves same_rule_set set_has_failures.
Proof. intros p a p' H. inversion H. reflexivity. Qed.

Lemma same_rule_set_set_ignore_comments m :
  preserves same_rule_set (set_ignore_comments m).
Proof. intros p a p' H. inversion H. reflexivity. Qed.

Create HintDb frame discriminated.
#[global] Hint Resolve preserves_ret preserves_lift preserves_raise preserves_get
  same_rule_set_print same_rule_set_set_used same_rule_set_set_has_failures
  same_rule_set_set_ignore_comments same_rule_set_refl same_rule_set_trans : frame.

(** Splits a computation along its binds and case distinctions. *)
Ltac frame_step :=
  match goal with
  | |- preserves _ (bind _ _) => apply preserves_bind; [auto with frame | | intros ?]
  | |- preserves _ (if ?b then _ else _) => destruct b
  | |- preserves _ (match ?x with _ => _ end) => destruct x
  | |- preserves _ _ => solve [auto with frame]
  end.

Lemma same_rule_set_sub_placeholders t vars :
  preserves same_rule_set (_sub_placeholders t vars).
Proof. unfold _sub_placeholders. repeat frame_step. Qed.
#[global] Hint Resolve same_rule_set_sub_placeholders : frame.

Lemma same_rule_set_join_affixes accessor rules vars :
  preserves same_rule_set (join_affixes accessor rules vars).
Proof.
  induction rules as [|x rules IH]; simpl; [auto with frame|].
  repeat frame_step.
Qed.
#[global] Hint Resolve same_rule_set_join_affixes : frame.

Lemma same_rule_set_test_affix_rules re key has loc name vars rules is_prefix n s :
  preserves same_rule_set (test_affix_rules re key has loc name vars rules is_prefix n s).
Proof. unfold test_affix_rules. repeat frame_step. Qed.
#[global] Hint Resolve same_rule_set_test_affix_rules : frame.


Lemma same_rule_set_get_config_kind cursor file :
  preserves same_rule_set (_get_config_kind cursor file).
Proof.
  unfold _get_config_kind, tag_kind. repeat frame_step.
Qed.

(** [_rule_applies] touches the [kinds] of the rule and nothing else. *)
Lemma rule_applies_kinds re cursor rule k v pl b rule' :
  _rule_applies re cursor rule k v pl = Ok (b, rule') ->
  rule' = Rule.set_kinds rule (expand_kinds <$> Rule.kinds rule).
Proof.
  unfold _rule_applies.
  repeat match goal with
         | |- context [if ?c then _ else _] => destruct c
         | |- context [match ?x with _ => _ end] => destruct x
         end; intros H; inversion H; reflexivity.
Qed.

Lemma set_kinds_no_alias r :
  no_alias r -> Rule.set_kinds r (expand_kinds <$> Rule.kinds r) = r.
Proof.
  unfold no_alias. destruct r as [n ks vs ts po pm pre suf ru al]. simpl.
  destruct ks as [ks|]; simpl; [|reflexivity].
  intros H. unfold Rule.set_kinds. simpl. rewrite (expand_kinds_no_alias _ H). reflexivity.
Qed.


Lemma kinds_expanded_no_alias rules rules' :
  Forall2 kinds_expanded rules rules' -> Forall no_alias rules -> rules' = rules.
Proof.
  induction 1 as [|r r' rs rs' Hr _ IH]; intros Hn; [reflexivity|].
  inversion Hn as [|? ? Hn1 Hn2]. subst. rewrite (IH Hn2). f_equal.
  destruct Hr as [->| ->]; [reflexivity | apply set_kinds_no_alias, Hn1].
Qed.

Lemma is_unnamed_total cursor :
  Cursor.kind cursor ∈ [STRUCT_DECL; UNION_DECL; ENUM_DECL] ->
  exists b, _is_struct_enum_union_unnamed cursor = Ok b.
Proof.
  intros Hk. unfold _is_struct_enum_union_unnamed.
  destruct (Cursor.kind cursor);
    try solve [exfalso; repeat (apply elem_of_cons in Hk as [Hk|Hk]; [discriminate|]);
               inversion Hk];
    repeat match goal with
           | |- context [match Py.index ?a ?b ?c ?d with _ => _ end] =>
               destruct (Py.index a b c d)
           end; eexists; reflexivity.
Qed.

(** [_get_config_kind] returns; it changes the processor only by the
    linkage warning, which goes with the answer [(None, None)]. *)
Lemma get_config_kind_cases cursor p :
  _get_config_kind cursor (Location.file (Cursor.location cursor)) p
  = Ok (config_kind_of cursor, p)
  \/ (config_kind_of cursor = (None, None)
      /\ exists l s,
           _get_config_kind cursor (Location.file (Cursor.location cursor)) p
           = Ok ((None, None), printed (UnexpectedLinkage l s) p)).
Proof.
  unfold config_kind_of, _get_config_kind, tag_kind.
  destruct (Cursor.kind cursor) eqn:Hk;
    try (left; reflexivity);
    try (destruct (is_unnamed_total cursor) as [b Hb];
         [rewrite Hk; repeat constructor
         | unfold bind, lift; rewrite Hb; destruct b; left; reflexivity ]).
  - (* VAR_DECL *)
    destruct (bool_decide _); [left; reflexivity|].
    destruct (Cursor.linkage cursor);
      try (left; reflexivity);
      try (right; split; [reflexivity | eexists _, _; reflexivity]).
    destruct (Cursor.has_var_decl_external_storage cursor); left; reflexivity.
  - (* FUNCTION_DECL *)
    destruct (_ || _); [left; reflexivity|].
    destruct (bool_decide (Cursor.linkage cursor = INTERNAL)); [left; reflexivity|].
    right. split; [reflexivity | eexists _, _; reflexivity].
  - (* TYPEDEF_DECL *)
    destruct (CType.kind _); try (left; reflexivity).
    destruct (Py.startswith _ _); left; reflexivity.
  - (* FIELD_DECL *)
    destruct (Py.startswith _ _); left; reflexivity.
Qed.






(** The loop changes the list it iterates: after the first alias is
    taken out, the iterator steps over the element that moved into its
    place.  With [kind = tag, typedef] the alias [typedef] is expanded
    only by the second call. *)
Example second_alias_skipped_once :
  expand_kinds ["tag"; "typedef"] = ["typedef"; "struct_tag"; "enum_tag"; "union_tag"]
  /\ expand_kinds (expand_kinds ["tag"; "typedef"])
     = ["struct_tag"; "enum_tag"; "union_tag"; "struct_typedef"; "enum_typedef";
        "union_typedef"; "function_typedef"; "scalar_typedef"].
Proof. split; vm_compute; reflexivity. Qed.


(** ** Loading the configuration *)

Lemma startswith_app n b : Py.startswith n (n +:+ b) = true.
Proof.
  induction n as [|c n IH]; [reflexivity|].
  change (Py.startswith (String c n) (String c (n +:+ b)) = true).
  simpl. rewrite Ascii.eqb_refl. exact IH.
Qed.

Lemma contains_app a n b : contains n (a +:+ n +:+ b) = true.
Proof.
  induction a as [|c a IH].
  - change (contains n (n +:+ b) = true).
    destruct n as [|c n].
    + change (contains "" b = true). destruct b; reflexivity.
    + change (contains (String c n) (String c (n +:+ b)) = true).
      simpl. rewrite Ascii.eqb_refl, (startswith_app n b). reflexivity.
  - change (contains n (String c (a +:+ n +:+ b)) = true).
    simpl. rewrite IH. apply orb_true_r.
Qed.


Lemma is_None_decide {A} `{EqDecision (option A)} (o : option A) :
  bool_decide (o = None) = true <-> o = None.
Proof. apply bool_decide_eq_true. Qed.







(** ** The token pre-pass *)

Lemma process_token_ignore translation_unit token p :
  is_ignore_comment token ->
  process_token translation_unit token p
  = Ok (tt, registered (comment_key translation_unit token) token p).
Proof.
  intros (Hk & m & Hm & Hv). unfold process_token.
  rewrite Hk, Hm. simpl. unfold bind, lift. rewrite Hv. reflexivity.
Qed.

(** A round of the pre-pass either leaves the table alone or stores an
    unused comment. *)
Lemma process_token_table translation_unit token p p' :
  process_token translation_unit token p = Ok (tt, p') ->
  _ignore_comments p' = _ignore_comments p
  \/ _ignore_comments p'
     = <[comment_key translation_unit token := {| token := token; used := false |}]>
         (_ignore_comments p).
Proof.
  unfold process_token.
  destruct (bool_decide (Token.kind token = COMMENT)); [|intros H; inversion H; tauto].
  destruct (CommentGrammar.fullmatch_comment (Token.spelling token)) as [m|];
    [|intros H; inversion H; tauto].
  unfold bind, lift. destruct (CommentGrammar.value m) as [value|e]; [|discriminate].
  destruct (String.eqb value "ignore"); intros H; inversion H; simpl; tauto.
Qed.

Lemma unused_at_kept translation_unit key token p p' :
  process_token translation_unit token p = Ok (tt, p') ->
  unused_at key p -> unused_at key p'.
Proof.
  intros H (ic & Hic & Hu). unfold unused_at.
  apply process_token_table in H as [-> | ->]; [exists ic; tauto|].
  destruct (decide (comment_key translation_unit token = key)) as [<-|Hne].
  - rewrite lookup_insert_eq. eexists. split; reflexivity.
  - rewrite lookup_insert_ne by exact Hne. exists ic. tauto.
Qed.

Lemma process_tokens_loop_keeps translation_unit key tokens : forall p p',
  process_tokens_loop translation_unit tokens p = Ok (tt, p') ->
  unused_at key p -> unused_at key p'.
Proof.
  induction tokens as [|t rest IH]; intros p p' H Hu.
  - inversion H. subst. exact Hu.
  - simpl in H. apply bind_inv in H as ([] & p1 & H1 & H2).
    apply (IH _ _ H2). exact (unused_at_kept _ _ _ _ _ H1 Hu).
Qed.

Lemma process_tokens_loop_registers translation_unit token tokens : forall p p',
  is_ignore_comment token -> token ∈ tokens ->
  process_tokens_loop translation_unit tokens p = Ok (tt, p') ->
  unused_at (comment_key translation_unit token) p'.
Proof.
  induction tokens as [|t rest IH]; intros p p' Hi Hin H.
  - inversion Hin.
  - simpl in H. apply bind_inv in H as ([] & p1 & H1 & H2).
    apply elem_of_cons in Hin as [<-|Hin].
    + apply (process_tokens_loop_keeps _ _ _ _ _ H2).
      rewrite (process_token_ignore _ _ _ Hi) in H1. inversion H1. subst p1.
      unfold unused_at, registered. simpl. rewrite lookup_insert_eq.
      eexists. split; reflexivity.
    + exact (IH _ _ Hi Hin H2).
Qed.

Lemma filter_head_first (P : Token.t -> Prop) `{forall t, Decision (P t)} tokens :
  forall t0 rest,
    in_source_order tokens ->
    filter P tokens = t0 :: rest ->
    forall t, t ∈ filter P tokens -> t = t0 \/ starts_before t0 t.
Proof.
  induction tokens as [|a l IH]; intros t0 rest Hs Hf t Ht; [discriminate Hf|].
  destruct Hs as [Ha Hl]. destruct (decide (P a)) as [Hp|Hp].
  - rewrite filter_cons_True in Hf, Ht by exact Hp.
    inversion Hf. subst a rest.
    apply elem_of_cons in Ht as [->|Ht]; [left; reflexivity|].
    right. apply list_elem_of_filter in Ht as [_ Ht].
    rewrite Forall_forall in Ha. exact (Ha _ Ht).
  - rewrite filter_cons_False in Hf, Ht by exact Hp.
    exact (IH _ _ Hl Hf _ Ht).
Qed.

(** Under the law of the extent query, the test of [_process_tokens]
    holds exactly of a comment that is the first token on its line. *)
Lemma nothing_before_first translation_unit token :
  lexes_from_line_start translation_unit ->
  in_source_order (TranslationUnit.tokens translation_unit) ->
  Forall extent_starts_at_location (TranslationUnit.tokens translation_unit) ->
  token ∈ TranslationUnit.tokens translation_unit ->
  nothing_before translation_unit token = true
  <-> first_on_its_line (TranslationUnit.tokens translation_unit) token.
Proof.
  intros Hlaw Hs He Hin. unfold nothing_before. rewrite Hlaw.
  unfold Examples.first_token_from.
  set (P := fun t : Token.t =>
              Location.file (Token.location t) = Location.file (Token.location token)
              /\ Location.line (Token.location token) <= Location.line (Token.location t)).
  assert (Htok : token ∈ filter P (TranslationUnit.tokens translation_unit)).
  { apply list_elem_of_filter. split; [|exact Hin]. split; [reflexivity | lia]. }
  destruct (filter P (TranslationUnit.tokens translation_unit)) as [|t0 rest] eqn:Hf;
    [inversion Htok|].
  assert (Ht0 : t0 ∈ filter P (TranslationUnit.tokens translation_unit))
    by (rewrite Hf; apply elem_of_cons; left; reflexivity).
  apply list_elem_of_filter in Ht0 as [[Hfile Hline] Ht0].
  pose proof (filter_head_first P _ _ _ Hs Hf) as Hfirst.
  rewrite Forall_forall in He.
  rewrite bool_decide_eq_true. split.
  - intros Hext t Ht Htf Htl.
    pose proof (He _ Ht0) as E0. pose proof (He _ Hin) as E1.
    unfold extent_starts_at_location in E0, E1. rewrite Hext, E1 in E0.
    inversion E0 as [[El Ec]].
    assert (HtQ : t ∈ filter P (TranslationUnit.tokens translation_unit)).
    { apply list_elem_of_filter. split; [|exact Ht]. split; [exact Htf | lia]. }
    destruct (Hfirst t HtQ) as [->|Hb]; [lia|].
    destruct (Hb (eq_trans Hfile (eq_sym Htf))) as [Hlt | [_ Hlt]]; lia.
  - intros Hfst. rewrite <- Hf in Htok.
    destruct (Hfirst token Htok) as [->|Hb]; [reflexivity|].
    exfalso. destruct (Hb Hfile) as [Hlt | [Heq Hlt]]; [lia|].
    pose proof (Hfst t0 Ht0 Hfile Heq). lia.
Qed.

(** C9.  Once libclang answers the extent query with the token it lexes
    from the start of the line, and the token stream is in the order of
    the text: an ignore comment that is the first token on its line is
    registered, unused, under the key of the following line, and an
    ignore comment with a token before it on its line under the key of
    its own line; once the whole pre-pass has run, an unused comment is
    stored under that key. *)
Theorem ignore_comment_keyed translation_unit token :
  lexes_from_line_start translation_unit ->
  in_source_order (TranslationUnit.tokens translation_unit) ->
  Forall extent_starts_at_location (TranslationUnit.tokens translation_unit) ->
  token ∈ TranslationUnit.tokens translation_unit ->
  is_ignore_comment token ->
  (first_on_its_line (TranslationUnit.tokens translation_unit) token ->
   (forall p,
      process_token translation_unit token p
      = Ok (tt, registered (ignore_key_of (Location.file (Token.location token))
                              (Location.line (Token.location token) + 1)) token p))
   /\ (forall p p',
         _process_tokens translation_unit p = Ok (tt, p') ->
         unused_at (ignore_key_of (Location.file (Token.location token))
                      (Location.line (Token.location token) + 1)) p'))
  /\ (~ first_on_its_line (TranslationUnit.tokens translation_unit) token ->
      (forall p,
         process_token translation_unit token p
         = Ok (tt, registered (ignore_key_of (Location.file (Token.location token))
                                 (Location.line (Token.location token))) token p))
      /\ (forall p p',
            _process_tokens translation_unit p = Ok (tt, p') ->
            unused_at (ignore_key_of (Location.file (Token.location token))
                         (Location.line (Token.location token))) p')).
Proof.
  intros Hlaw Hs He Hin Hi.
  pose proof (nothing_before_first _ _ Hlaw Hs He Hin) as Hnb.
  split; intros Hf.
  - assert (Hk : comment_key translation_unit token
                 = ignore_key_of (Location.file (Token.location token))
                     (Location.line (Token.location token) + 1)).
    { unfold comment_key. rewrite (proj2 Hnb Hf). reflexivity. }
    rewrite <- Hk. split.
    + intros p. apply process_token_ignore, Hi.
    + intros p p' H. exact (process_tokens_loop_registers _ _ _ _ _ Hi Hin H).
  - assert (Hk : comment_key translation_unit token
                 = ignore_key_of (Location.file (Token.location token))
                     (Location.line (Token.location token))).
    { unfold comment_key.
      destruct (nothing_before translation_unit token) eqn:Hn; [|reflexivity].
      exfalso. apply Hf, Hnb. reflexivity. }
    rewrite <- Hk. split.
    + intros p. apply process_token_ignore, Hi.
    + intros p p' H. exact (process_tokens_loop_registers _ _ _ _ _ Hi Hin H).
Qed.

Lemma source_unit_stream :
  lexes_from_line_start Examples.source_unit
  /\ in_source_order (TranslationUnit.tokens Examples.source_unit)
  /\ Forall extent_starts_at_location (TranslationUnit.tokens Examples.source_unit).
Proof.
  split; [intros file line; reflexivity|]. split.
  - cbn [in_source_order TranslationUnit.tokens Examples.source_unit Examples.source_tokens].
    repeat (split; [repeat (constructor; [intros _; cbn; lia|]); constructor|]).
    exact I.
  - cbn [TranslationUnit.tokens Examples.source_unit Examples.source_tokens].
    repeat (constructor; [reflexivity|]). constructor.
Qed.

Lemma ignore_comment_keyed_witness :
  (forall p, process_token Examples.source_unit Examples.own_line_comment p
             = Ok (tt, registered "src/widget.c:5" Examples.own_line_comment p))
  /\ (forall p, process_token Examples.source_unit Examples.trailing_comment p
                = Ok (tt, registered "src/widget.c:3" Examples.trailing_comment p)).
Proof.
  destruct source_unit_stream as (Hlaw & Hs & He).
  split.
  - refine (proj1 (proj1 (ignore_comment_keyed Examples.source_unit
                            Examples.own_line_comment Hlaw Hs He _ _) _)).
    + apply (list_elem_of_lookup_2 _ 4). reflexivity.
    + split; [reflexivity|]. eexists. split; vm_compute; reflexivity.
    + clear. intros t Ht _ Hl.
      cbn [TranslationUnit.tokens Examples.source_unit Examples.source_tokens] in Ht.
      repeat (apply elem_of_cons in Ht as [->|Ht]; [cbn in Hl |- *; lia|]).
      inversion Ht.
  - refine (proj1 (proj2 (ignore_comment_keyed Examples.source_unit
                            Examples.trailing_comment Hlaw Hs He _ _) _)).
    + apply (list_elem_of_lookup_2 _ 3). reflexivity.
    + split; [reflexivity|]. eexists. split; vm_compute; reflexivity.
    + clear. intros Hf.
      assert (H : 10 <= 1); [|lia].
      apply (Hf (Examples.tok KEYWORD "int" 3 1 3)); [|reflexivity|reflexivity].
      apply (list_elem_of_lookup_2 _ 0). reflexivity.
Defined.

(** The comment alone on line 4 is keyed by line 5, and the pre-pass ends
    with both keys in the table. *)
Example own_line_comment_key :
  comment_key Examples.source_unit Examples.own_line_comment = "src/widget.c:5".
Proof. vm_compute. reflexivity. Qed.

Example prepass_keys :
  exists p', _process_tokens Examples.source_unit (new_processor (RuleSet.mk [] ∅))
             = Ok (tt, p')
             /\ (map_to_list (_ignore_comments p')).*1 ≡ₚ ["src/widget.c:3"; "src/widget.c:5"].
Proof.
  eexists. split; [vm_compute; reflexivity|]. vm_compute.
  first [reflexivity | apply Permutation_swap].
Qed.

(** ** The structural walk *)

Lemma bind_assoc {A B C} (m : M A) (k : A -> M B) (h : B -> M C) p :
  bind (bind m k) h p = bind m (fun a => bind (k a) h) p.
Proof. unfold bind. destruct (m p) as [[a p']|e]; reflexivity. Qed.

Lemma bind_ext {A B} (m : M A) (k k' : A -> M B) p :
  (forall a q, k a q = k' a q) -> bind m k p = bind m k' p.
Proof. intros H. unfold bind. destruct (m p) as [[a p']|e]; [apply H | reflexivity]. Qed.

Lemma bind_ret_l {A B} (a : A) (k : A -> M B) p : bind (ret a) k p = k a p.
Proof. reflexivity. Qed.

Lemma process_nodes_app re l1 l2 p :
  process_nodes re (l1 ++ l2) p
  = bind (process_nodes re l1) (fun _ => process_nodes re l2) p.
Proof.
  revert p. induction l1 as [|c l1 IH]; intros p; [reflexivity|].
  simpl. rewrite bind_assoc. apply bind_ext. intros passed q.
  rewrite bind_assoc. apply bind_ext. intros _ q'. apply IH.
Qed.

Lemma process_unfold re c children p :
  _process re (Cursor.Node c children) p
  = bind (_process_node re c)
      (fun passed =>
         bind (if passed then ret tt else set_has_failures)
           (fun _ => if recurse_into c then process_children re children else ret tt)) p.
Proof.
  simpl. apply bind_ext. intros passed q. apply bind_ext. intros _ q'.
  destruct (recurse_into c); [|reflexivity].
  clear. revert q'. induction children as [|child cs IH]; intros q'; [reflexivity|].
  simpl. apply bind_ext. intros _ q. apply IH.
Qed.

Lemma visits_unfold c children :
  visits (Cursor.Node c children)
  = c :: (if recurse_into c then visits_children children else []).
Proof.
  reflexivity.
Qed.

Lemma process_children_visits re cs :
  Forall (fun c => forall p, _process re c p = process_nodes re (visits c) p) cs ->
  forall p, process_children re cs p = process_nodes re (visits_children cs) p.
Proof.
  induction 1 as [|child cs Hc _ IH]; intros p; [reflexivity|].
  change (bind (_process re child) (fun _ => process_children re cs) p
          = process_nodes re (visits child ++ visits_children cs) p).
  rewrite process_nodes_app. unfold bind. rewrite (Hc p).
  destruct (process_nodes re (visits child) p) as [[[] q]|e]; [apply IH | reflexivity].
Qed.

(** [_process] is [_process_node] on the nodes of [visits], in order. *)
Lemma process_visits re cursor :
  forall p, _process re cursor p = process_nodes re (visits cursor) p.
Proof.
  induction cursor as [c children IH] using cursor_tree_ind. intros p.
  rewrite process_unfold, visits_unfold.
  change (process_nodes re (c :: (if recurse_into c then visits_children children else [])) p)
    with (bind (_process_node re c)
            (fun passed =>
               bind (if passed then ret tt else set_has_failures)
                 (fun _ => process_nodes re
                             (if recurse_into c then visits_children children else []))) p).
  apply bind_ext. intros passed q. apply bind_ext. intros _ q'.
  destruct (recurse_into c); [|reflexivity].
  apply process_children_visits, IH.
Qed.

(** A typedef whose canonical underlying type is a record or an enum is
    evaluated and not walked into. *)
Lemma record_typedef_not_walked c children :
  Cursor.kind c = TYPEDEF_DECL ->
  CType.kind (Cursor.underlying_typedef_type_canonical c) ∈ [RECORD; ENUM] ->
  visits (Cursor.Node c children) = [c].
Proof.
  intros Hk Hty. rewrite visits_unfold. unfold recurse_into.
  rewrite Hk, (bool_decide_eq_true_2 _ Hty). reflexivity.
Qed.

Example record_typedef_visits :
  visits Examples.record_typedef_unit
  = [Examples.root; Examples.struct_S; Examples.field_x; Examples.typedef_SAlias].
Proof. reflexivity. Qed.

(** C10 at [typedef struct S { int x; } *SPtr;].  The canonical underlying
    type of the typedef is a pointer, so the walk goes into the typedef
    and reaches the field [x] of [S] a second time: [x] is evaluated
    twice and its violation is printed twice. *)
Theorem member_visited_twice :
  visits Examples.pointer_typedef_unit
  = [Examples.root; Examples.struct_S; Examples.field_x;
     Examples.typedef_SPtr; Examples.struct_S; Examples.field_x]
  /\ exists p',
       _process Literal.engine Examples.pointer_typedef_unit
         (new_processor Examples.member_rules) = Ok (tt, p')
       /\ stdout p' = [Examples.x_fails; Examples.x_fails]
       /\ _has_failures p' = true.
Proof.
  split; [reflexivity|]. eexists. split; [vm_compute; reflexivity|].
  split; reflexivity.
Qed.

Example record_typedef_run :
  exists p',
    _process Literal.engine Examples.record_typedef_unit
      (new_processor Examples.member_rules) = Ok (tt, p')
    /\ stdout p' = [Examples.x_fails].
Proof. eexists. split; [vm_compute; reflexivity | reflexivity]. Qed.

(** ** Affix failures and the verdict *)

(** C1 at [int foo;] under a rule with [prefix = T_] and
    [allow-rule = xyz], no ignore comment.  The prefix does not match and
    the failure is printed, but the allow pattern does not match either
    and [success = None] replaces the recorded [False]: the loop goes on,
    no rule is left, and the verdict of the declaration is a pass. *)
Theorem affix_failure_lost :
  _process_node Literal.engine Examples.foo (new_processor Examples.prefix_allow_rules)
  = Ok (true, printed Examples.foo_misses_prefix
                (new_processor Examples.prefix_allow_rules)).
Proof. vm_compute. reflexivity. Qed.

(** Under a required rule the recorded failure stays: whether or not the
    body pattern matches, [test_body] gives [False] back. *)
Lemma test_body_keeps_failure re key cursor rule loc vars ep es n p res p' :
  Rule.rule rule <> None ->
  test_body re key false cursor rule loc vars ep es n (Some false) p = Ok (res, p') ->
  res = Some false.
Proof.
  intros Hr. unfold test_body.
  destruct (is_None _); [discriminate|].
  destruct (py_or _ _) as [template|]; [|discriminate].
  intros H. apply bind_inv in H as (regex & p1 & _ & H).
  apply bind_inv in H as (matched & p2 & _ & H).
  destruct matched; [inversion H; reflexivity|].
  destruct (Rule.rule rule); [|contradiction]. simpl in H.
  apply bind_inv in H as ([] & p3 & _ & H). inversion H. reflexivity.
Qed.

Example affix_failure_kept :
  _process_node Literal.engine Examples.foo
    (new_processor (RuleSet.mk [Examples.prefixed_rule] ∅))
  = Ok (false,
        printed (FailsRule "src/widget.c:7:5" "foo" "prefixed" "xyz" (Some "T_") None)
          (printed Examples.foo_misses_prefix
             (new_processor (RuleSet.mk [Examples.prefixed_rule] ∅)))).
Proof. vm_compute. reflexivity. Qed.

(** ** Suppression by an ignore comment *)

Lemma has_ignore_comment_registered cursor p :
  has_ignore_comment_for cursor p = true
  <-> exists ic, _ignore_comments p !! ignore_key_for cursor = Some ic.
Proof.
  unfold has_ignore_comment_for.
  destruct (_ignore_comments p !! ignore_key_for cursor) as [ic|]; simpl.
  - split; [intros _; exists ic; reflexivity | reflexivity].
  - split; [discriminate | intros [ic H]; discriminate].
Qed.




(** [Foo] uses the comment of line 7; [Bar], on the same line, fails the
    rule as well and is let through by the comment already used. *)
Example Foo_suppressed :
  _process_node Literal.engine Examples.Foo (Examples.with_comment false)
  = Ok (true, Examples.with_comment true).
Proof. vm_compute. reflexivity. Qed.





(** ** Rules that carry affixes only *)

Lemma any_fullmatch_ext re re' types spelling :
  (forall x s, fullmatch re' x s = fullmatch re x s) ->
  any_fullmatch re' types spelling = any_fullmatch re types spelling.
Proof.
  intros H. induction types as [|x rest IH]; [reflexivity|].
  simpl. rewrite H, IH. reflexivity.
Qed.

(** [_rule_applies] asks the engine for [fullmatch] only. *)
Lemma rule_applies_ext re re' cursor rule k v pl :
  (forall x s, fullmatch re' x s = fullmatch re x s) ->
  _rule_applies re' cursor rule k v pl = _rule_applies re cursor rule k v pl.
Proof.
  intros H. unfold _rule_applies.
  destruct (Rule.types (Rule.set_kinds rule (expand_kinds <$> Rule.kinds rule)));
    [rewrite (any_fullmatch_ext re re' _ _ H)|]; reflexivity.
Qed.

Lemma rules_loop_affix_only re re' cursor k loc rules :
  (forall x s, fullmatch re' x s = fullmatch re x s) ->
  Forall (affix_only re cursor k) rules ->
  forall pre suf vars p,
    exists rules',
      rules_loop re' cursor k (config_kind_of cursor).2 (pointer_level_of cursor) loc
                 rules pre suf vars p = Ok ((true, rules'), p).
Proof.
  intros Hre. induction 1 as [|rule rest (b & rule' & Ha & Hb) _ IH]; intros pre suf vars p.
  - eexists. reflexivity.
  - simpl. unfold bind at 1. unfold lift. rewrite (rule_applies_ext re re' _ _ _ _ _ Hre), Ha.
    pose proof (rule_applies_kinds _ _ _ _ _ _ _ _ Ha) as Hk. simpl.
    destruct b; simpl.
    + destruct (Hb eq_refl) as [Hr Hal].
      assert (Hr' : Rule.rule rule' = None) by (subst rule'; exact Hr).
      assert (Hal' : Rule.allow_rule rule' = None) by (subst rule'; exact Hal).
      rewrite Hr', Hal'. simpl.
      destruct (IH (accumulate (Rule.prefix rule') rule' pre)
                   (accumulate (Rule.suffix rule') rule' suf) vars p) as [rules' Hl].
      unfold bind. rewrite Hl. eexists. reflexivity.
    + destruct (IH pre suf vars p) as [rules' Hl]. unfold bind. rewrite Hl.
      eexists. reflexivity.
Qed.

(** C3.  When every rule that applies to a declaration carries no body
    and no allow pattern, the declaration passes whatever its name:
    nothing is printed for it beyond a linkage warning of the classifier,
    no ignore comment is marked, and the outcome is the same for every
    engine with the same [fullmatch], so [search], the only operation the
    affix test uses, is never asked. *)
Theorem affix_only_rules_pass re cursor p :
  (forall config_kind, (config_kind_of cursor).1 = Some config_kind ->
     Forall (affix_only re cursor config_kind) (RuleSet.rules (_rule_set p))) ->
  forall re', (forall x s, fullmatch re' x s = fullmatch re x s) ->
    exists p', _process_node re' cursor p = Ok (true, p')
      /\ _ignore_comments p' = _ignore_comments p
      /\ _has_failures p' = _has_failures p
      /\ (stdout p' = stdout p
          \/ exists l s, stdout p' = stdout p ++ [UnexpectedLinkage l s]).
Proof.
  intros Hrules re' Hre. unfold _process_node.
  destruct (negb (Location.is_from_main_file (Cursor.location cursor))).
  { exists p. repeat split. left. reflexivity. }
  unfold bind at 1.
  destruct (get_config_kind_cases cursor p) as [Hc|(Hn & l & s & Hc)]; rewrite Hc.
  - destruct (config_kind_of cursor) as [[config_kind|] vis] eqn:Hck; simpl.
    + specialize (Hrules config_kind eq_refl).
      destruct (rules_loop_affix_only re re' cursor config_kind
                  (location_str (Cursor.location cursor)) _ Hre Hrules [] []
                  (initial_vars (Location.file (Cursor.location cursor))
                                (pointer_level_of cursor)) p) as [rules' Hl].
      rewrite Hck in Hl. simpl in Hl.
      unfold bind, get. rewrite Hl. simpl.
      eexists. split; [reflexivity|]. simpl. repeat split. left. reflexivity.
    + exists p. repeat split. left. reflexivity.
  - simpl. eexists. split; [reflexivity|]. simpl. repeat split.
    right. exists l, s. reflexivity.
Qed.

(** [int foo;] under a rule that only asks for the prefix [T_]. *)
Lemma affix_only_rules_pass_witness :
  (forall config_kind, (config_kind_of Examples.foo).1 = Some config_kind ->
     Forall (affix_only Literal.engine Examples.foo config_kind)
            (RuleSet.rules (_rule_set (new_processor (RuleSet.mk [Examples.t_prefix] ∅)))))
  /\ exists p',
       _process_node Literal.engine Examples.foo
         (new_processor (RuleSet.mk [Examples.t_prefix] ∅)) = Ok (true, p')
       /\ _ignore_comments p' = ∅
       /\ _has_failures p' = false
       /\ (stdout p' = [] \/ exists l s, stdout p' = [] ++ [UnexpectedLinkage l s]).
Proof.
  assert (H : forall config_kind, (config_kind_of Examples.foo).1 = Some config_kind ->
     Forall (affix_only Literal.engine Examples.foo config_kind)
            (RuleSet.rules (_rule_set (new_processor (RuleSet.mk [Examples.t_prefix] ∅))))).
  { intros config_kind Hk. vm_compute in Hk. inversion Hk. subst config_kind.
    apply List.Forall_cons; [|apply List.Forall_nil].
    exists true, Examples.t_prefix. split; [vm_compute; reflexivity|].
    intros _. split; reflexivity. }
  split; [exact H|].
  exact (affix_only_rules_pass Literal.engine Examples.foo
           (new_processor (RuleSet.mk [Examples.t_prefix] ∅)) H
           Literal.engine (fun _ _ => eq_refl)).
Defined.

(** ** A matched allow rule ends the evaluation *)

Lemma test_body_match re key has cursor rule location vars ep es stripped success p
      template :
  py_or (py_or (Rule.rule rule) (Rule.allow_rule rule)) (Rule.allow_rule rule)
  = Some template ->
  fullmatch re (sub_placeholders_in (RuleSet.placeholders (_rule_set p)) template vars)
            stripped = Ok true ->
  test_body re key has cursor rule location vars ep es stripped success p
  = Ok (success, p).
Proof.
  intros Ht Hm. unfold test_body.
  destruct (is_None (py_or (Rule.rule rule) (Rule.allow_rule rule))) eqn:Hn.
  { exfalso. unfold py_or in Ht, Hn.
    destruct (truthy (Rule.rule rule)) eqn:Hr.
    - rewrite Hr in Ht. destruct (Rule.rule rule); discriminate.
    - destruct (Rule.allow_rule rule); [discriminate|]. simpl in Ht. discriminate. }
  rewrite Ht. cbv [bind _sub_placeholders get ret lift]. rewrite Hm. reflexivity.
Qed.

(** C5.  The rule [rule0] applies and is an allow rule; its affix tests
    record no failure and leave the name [a.2.1], and its allow pattern,
    placeholders expanded, full-matches that name.  Then the loop over
    [rule0 :: rest] returns a pass at once: the rules of [rest] come
    back as they were, and the state is the one the test of [rule0]
    left, whatever [rest] holds. *)
Theorem allow_match_stops re cursor k v pl loc rule0 rule rest pre suf vars p
        a p1 vars' p2 template :
  _rule_applies re cursor rule0 k v pl = Ok (true, rule) ->
  Rule.rule rule = None ->
  Rule.allow_rule rule = Some template ->
  test_affixes re (ignore_key_for cursor) (has_ignore_comment_for cursor p) cursor rule
    (accumulate (Rule.prefix rule) rule pre) (accumulate (Rule.suffix rule) rule suf)
    loc vars p = Ok (a, p1) ->
  a.2.2 = Some true ->
  parent_vars re cursor rule loc vars p1 = Ok (vars', p2) ->
  fullmatch re (sub_placeholders_in (RuleSet.placeholders (_rule_set p2)) template vars')
            a.2.1 = Ok true ->
  rules_loop re cursor k v pl loc (rule0 :: rest) pre suf vars p
  = Ok ((true, rule :: rest), p2).
Proof.
  intros Ha Hr Hal Haff Hs Hpar Hm.
  simpl. unfold bind at 1. unfold lift. rewrite Ha. simpl. rewrite Hr, Hal. simpl.
  unfold bind at 1. unfold _test_rule. unfold bind at 1. unfold get.
  unfold bind at 1. rewrite Haff. unfold bind at 1. rewrite Hpar.
  unfold bind at 1.
  rewrite (test_body_match _ _ _ _ _ _ _ _ _ _ _ _ template); [| |exact Hm].
  - simpl. rewrite Hs. reflexivity.
  - rewrite Hr, Hal. unfold py_or. simpl. destruct (negb (String.eqb template ""));
      reflexivity.
Qed.

(** [int T_tmp;]: the prefix [T_] is stripped, [tmp] is allowed, and the
    required rule [values] after it is not evaluated. *)
Lemma allow_match_stops_witness :
  rules_loop Literal.engine Examples.T_tmp "variable" (Some "local") (Some 0)
    "src/widget.c:9:5" [Examples.allow_tmp; Examples.value_rule] [] []
    (Examples.vars_of Examples.T_tmp) (new_processor (RuleSet.mk [] ∅))
  = Ok ((true, [Examples.allow_tmp; Examples.value_rule]),
        new_processor (RuleSet.mk [] ∅)).
Proof.
  apply (allow_match_stops Literal.engine Examples.T_tmp "variable" (Some "local")
           (Some 0) "src/widget.c:9:5" Examples.allow_tmp Examples.allow_tmp
           [Examples.value_rule] [] [] (Examples.vars_of Examples.T_tmp)
           (new_processor (RuleSet.mk [] ∅))
           (Some "T_", None, ("tmp", Some true)) (new_processor (RuleSet.mk [] ∅))
           (Examples.vars_of Examples.T_tmp) (new_processor (RuleSet.mk [] ∅)) "tmp");
    vm_compute; reflexivity.
Defined.

Example required_rule_alone_fails :
  exists p',
    _process_node Literal.engine Examples.T_tmp (new_processor Examples.value_rules)
    = Ok (false, p').
Proof. eexists. vm_compute. reflexivity. Qed.

(** ** A rule that opts out of the affix chain *)

(** C8, amended.  A rule whose prefix (or suffix) field is the empty
    string adds nothing to the accumulated prefix (suffix) rules, and
    under that rule the accumulated prefix (suffix) is neither tested
    nor stripped: the test of the rule goes as if no prefix (suffix)
    rule had been met.  The accumulated rules themselves are kept for
    the rules that follow. *)
Theorem empty_affix_opts_out re cursor rule pre suf loc vars p :
  (Rule.prefix rule = Some "" ->
   accumulate (Rule.prefix rule) rule pre = pre
   /\ _test_rule re cursor rule pre suf loc vars p
      = _test_rule re cursor rule [] suf loc vars p)
  /\ (Rule.suffix rule = Some "" ->
      accumulate (Rule.suffix rule) rule suf = suf
      /\ _test_rule re cursor rule pre suf loc vars p
         = _test_rule re cursor rule pre [] loc vars p).
Proof.
  split; intros H; (split; [unfold accumulate; rewrite H; reflexivity|]);
    unfold _test_rule, test_affixes; rewrite H; reflexivity.
Qed.

Lemma empty_affix_opts_out_witness :
  _test_rule Literal.engine Examples.foo Examples.plain_foo [Examples.t_prefix] []
    "src/widget.c:7:5" (Examples.vars_of Examples.foo)
    (new_processor Examples.opt_out_rules)
  = _test_rule Literal.engine Examples.foo Examples.plain_foo [] []
      "src/widget.c:7:5" (Examples.vars_of Examples.foo)
      (new_processor Examples.opt_out_rules).
Proof.
  exact (proj2 (proj1 (empty_affix_opts_out Literal.engine Examples.foo Examples.plain_foo
                         [Examples.t_prefix] [] "src/widget.c:7:5"
                         (Examples.vars_of Examples.foo)
                         (new_processor Examples.opt_out_rules)) eq_refl)).
Defined.

Example plain_foo_test :
  _test_rule Literal.engine Examples.foo Examples.plain_foo [Examples.t_prefix] []
    "src/widget.c:7:5" (Examples.vars_of Examples.foo)
    (new_processor Examples.opt_out_rules)
  = Ok ((Some true, Examples.vars_of Examples.foo), new_processor Examples.opt_out_rules).
Proof. vm_compute. reflexivity. Qed.

(** [int foo;] passes under [prefix = T_] followed by a rule with
    [prefix =] and [rule = foo]. *)
Example opt_out_passes :
  _process_node Literal.engine Examples.foo (new_processor Examples.opt_out_rules)
  = Ok (true, new_processor Examples.opt_out_rules).
Proof. vm_compute. reflexivity. Qed.

(** C8 as worded fails: under the rule with the empty prefix the compound
    prefix [T_] is not tested, and [foo] is not reported. *)
Lemma compound_prefix_not_tested :
  ~ compound_prefix_still_tested Literal.engine Examples.foo Examples.plain_foo
      [Examples.t_prefix] [] "src/widget.c:7:5" (Examples.vars_of Examples.foo)
      (new_processor Examples.opt_out_rules).
Proof.
  intros H. destruct (H eq_refl "T_") as (res & p' & Hrun & Hin).
  - discriminate.
  - vm_compute. reflexivity.
  - vm_compute. reflexivity.
  - reflexivity.
  - rewrite plain_foo_test in Hrun. inversion Hrun. subst p'.
    simpl in Hin. inversion Hin.
Qed.

(** * Further properties of the program *)

(** ** The classifier *)

(** X1.  [_get_config_kind] always returns: the assertion of
    [_is_struct_enum_union_unnamed] cannot fire from it, whatever the
    cursor.  It leaves the processor as it was, except for one linkage
    warning, which it prints only for a variable or a function and only
    together with the answer [(None, None)]. *)
Theorem config_kind_returns cursor p :
  _get_config_kind cursor (Location.file (Cursor.location cursor)) p
  = Ok (config_kind_of cursor, p)
  \/ (config_kind_of cursor = (None, None)
      /\ Cursor.kind cursor ∈ [VAR_DECL; FUNCTION_DECL]
      /\ _get_config_kind cursor (Location.file (Cursor.location cursor)) p
         = Ok ((None, None),
               printed (UnexpectedLinkage (Cursor.linkage cursor) (Cursor.spelling cursor)) p)).
Proof.
  unfold config_kind_of, _get_config_kind, tag_kind.
  destruct (Cursor.kind cursor) eqn:Hk;
    try (left; reflexivity);
    try (destruct (is_unnamed_total cursor) as [b Hb];
         [rewrite Hk; repeat constructor
         | unfold bind, lift; rewrite Hb; destruct b; left; reflexivity ]).
  - destruct (bool_decide _); [left; reflexivity|].
    destruct (Cursor.linkage cursor);
      try (left; reflexivity);
      try (right; split; [reflexivity | split; [repeat constructor | reflexivity]]).
    destruct (Cursor.has_var_decl_external_storage cursor); left; reflexivity.
  - destruct (_ || _); [left; reflexivity|].
    destruct (bool_decide (Cursor.linkage cursor = INTERNAL)); [left; reflexivity|].
    right. split; [reflexivity | split; [repeat constructor | reflexivity]].
  - destruct (CType.kind _); try (left; reflexivity).
    destruct (Py.startswith _ _); left; reflexivity.
  - destruct (Py.startswith _ _); left; reflexivity.
Qed.

(** X2.  Visibility follows the file type.  In a header no declaration is
    [local], and only a function with internal linkage that is not
    inline is [file]; outside a header only a variable or a function
    with external linkage is [global]. *)
Theorem visibility_by_file_type cursor :
  (in_header cursor = true ->
   (config_kind_of cursor).2 = None
   \/ (config_kind_of cursor).2 = Some "global"
   \/ ((config_kind_of cursor).2 = Some "file"
       /\ Cursor.kind cursor = FUNCTION_DECL
       /\ Cursor.linkage cursor = INTERNAL
       /\ Cursor.is_function_inlined cursor = false))
  /\ (in_header cursor = false ->
      (config_kind_of cursor).2 = Some "global" ->
      Cursor.linkage cursor = EXTERNAL
      /\ Cursor.kind cursor ∈ [VAR_DECL; FUNCTION_DECL]).
Proof.
  unfold in_header, config_kind_of, _get_config_kind, tag_kind.
  split; intros Hh; rewrite Hh.
  - destruct (Cursor.kind cursor) eqn:Hk; cbv [ret bind lift print snd fst];
      try (left; reflexivity); try (right; left; reflexivity);
      try (destruct (is_unnamed_total cursor) as [b Hb];
           [rewrite Hk; repeat constructor
           | unfold bind, lift; rewrite Hb; destruct b; cbv [ret bind lift print snd fst];
             [left; reflexivity | right; left; reflexivity] ]).
    + destruct (Cursor.linkage cursor) eqn:Hl, (Cursor.is_function_inlined cursor) eqn:Hi;
        cbv [ret bind lift print snd fst]; try (left; reflexivity); try (right; left; reflexivity).
      right; right. repeat split; reflexivity.
    + destruct (CType.kind _); try (right; left; reflexivity).
      destruct (Py.startswith _ _); right; left; reflexivity.
    + destruct (Py.startswith _ _); [right; left; reflexivity | left; reflexivity].
  - destruct (Cursor.kind cursor) eqn:Hk; cbv [ret bind lift print snd fst]; try discriminate;
      try (destruct (is_unnamed_total cursor) as [b Hb];
           [rewrite Hk; repeat constructor
           | unfold bind, lift; rewrite Hb; destruct b; cbv [ret bind lift print snd fst]; discriminate ]).
    + destruct (Cursor.linkage cursor) eqn:Hl; cbv [ret bind lift print snd fst]; try discriminate.
      intros _. split; [reflexivity | repeat constructor].
    + destruct (Cursor.linkage cursor) eqn:Hl; cbv [ret bind lift print snd fst]; rewrite ?andb_false_r; cbv [ret bind lift print snd fst];
        try discriminate.
      intros _. split; [reflexivity | repeat constructor].
    + destruct (CType.kind _); try discriminate.
      destruct (Py.startswith _ _); discriminate.
    + destruct (Py.startswith _ _); discriminate.
Qed.

Lemma visibility_by_file_type_witness :
  in_header Examples.header_counter = true
  /\ ((config_kind_of Examples.header_counter).2 = None
      \/ (config_kind_of Examples.header_counter).2 = Some "global"
      \/ ((config_kind_of Examples.header_counter).2 = Some "file"
          /\ Cursor.kind Examples.header_counter = FUNCTION_DECL
          /\ Cursor.linkage Examples.header_counter = INTERNAL
          /\ Cursor.is_function_inlined Examples.header_counter = false)).
Proof.
  split; [vm_compute; reflexivity|].
  apply (proj1 (visibility_by_file_type Examples.header_counter)).
  vm_compute. reflexivity.
Defined.

Lemma unwrap_pointers_kind ty : CType.kind (CType.unwrap_pointers ty) <> POINTER.
Proof.
  induction ty as [s ty IH|k s]; [exact IH|]. simpl. destruct k; discriminate.
Qed.

(** X3.  A typedef is classified through the pointer layers of its
    canonical underlying type: one more layer leaves kind and visibility
    as they were and raises the pointer level by one.  The type the
    classification looks at is never a pointer. *)
Theorem typedef_through_pointers cursor s :
  Cursor.kind cursor = TYPEDEF_DECL ->
  let wrapped :=
    with_canonical cursor
      (CType.PointerTo s (Cursor.underlying_typedef_type_canonical cursor)) in
  config_kind_of wrapped = config_kind_of cursor
  /\ pointer_level_of wrapped
     = Some (S (CType.pointer_depth (Cursor.underlying_typedef_type_canonical cursor)))
  /\ pointer_level_of cursor
     = Some (CType.pointer_depth (Cursor.underlying_typedef_type_canonical cursor))
  /\ CType.kind (CType.unwrap_pointers (Cursor.underlying_typedef_type_canonical cursor))
     <> POINTER.
Proof.
  intros Hk wrapped. subst wrapped. split; [|split; [|split]].
  - unfold config_kind_of, _get_config_kind, with_canonical.
    cbn [Cursor.kind Cursor.location Cursor.underlying_typedef_type_canonical].
    rewrite !Hk. reflexivity.
  - unfold pointer_level_of, with_canonical.
    cbn [Cursor.kind Cursor.underlying_typedef_type_canonical].
    rewrite Hk. reflexivity.
  - unfold pointer_level_of. rewrite Hk. reflexivity.
  - apply unwrap_pointers_kind.
Qed.

Lemma typedef_through_pointers_witness :
  config_kind_of (with_canonical Examples.typedef_SAlias
                    (CType.PointerTo "struct S *" Examples.struct_S_t))
  = (Some "struct_typedef", Some "file")
  /\ pointer_level_of (with_canonical Examples.typedef_SAlias
                         (CType.PointerTo "struct S *" Examples.struct_S_t)) = Some 1.
Proof.
  destruct (typedef_through_pointers Examples.typedef_SAlias "struct S *" eq_refl)
    as (H1 & H2 & _).
  split; [etransitivity; [exact H1 | vm_compute; reflexivity] | exact H2].
Defined.

(** ** Selectors on attributes a declaration does not have *)

Lemma applies_verdict_visibility re cursor rule k pl vs :
  applies_verdict re cursor (with_visibility rule vs) k None pl
  = applies_verdict re cursor rule k None pl.
Proof.
  destruct rule as [n ks vs0 ts po pm pre suf r a].
  unfold applies_verdict, _rule_applies, with_visibility. cbn.
  destruct (match expand_kinds <$> ks with
            | Some rule_kinds => negb (bool_decide (k ∈ rule_kinds))
            | None => false
            end); [reflexivity|].
  destruct (match pl with Some _ => _ | None => _ end); [reflexivity|].
  destruct (match ts with Some _ => _ | None => _ end) as [[|]|e]; try reflexivity.
  destruct (_ && _); reflexivity.
Qed.

Lemma applies_verdict_pointer re cursor rule k v po :
  applies_verdict re cursor (Rule.set_pointer rule po) k v None
  = applies_verdict re cursor rule k v None.
Proof.
  destruct rule as [n ks vs ts po0 pm pre suf r a].
  unfold applies_verdict, _rule_applies, Rule.set_pointer. cbn.
  destruct (match expand_kinds <$> ks with
            | Some rule_kinds => negb (bool_decide (k ∈ rule_kinds))
            | None => false
            end); [reflexivity|].
  destruct (match ts with Some _ => _ | None => _ end) as [[|]|e]; try reflexivity.
  destruct (match v with Some _ => _ | None => _ end); [reflexivity|].
  destruct (_ && _); reflexivity.
Qed.

(** X4.  A selector on an attribute the declaration does not have is not
    applied.  Parameters and the members of a struct (a field whose
    parent is not a union) have no visibility, so the [visibility] of a
    rule does not keep it from them; functions, tags and enum constants
    have no pointer level, so the [pointer] of a rule does not keep it
    from them. *)
Theorem absent_attribute_not_selected re cursor rule k :
  (forall pl vs,
     applies_verdict re cursor (with_visibility rule vs) k None pl
     = applies_verdict re cursor rule k None pl)
  /\ (forall v po,
        applies_verdict re cursor (Rule.set_pointer rule po) k v None
        = applies_verdict re cursor rule k v None)
  /\ (Cursor.kind cursor = PARM_DECL -> config_kind_of cursor = (Some "parameter", None))
  /\ (Cursor.kind cursor = FIELD_DECL ->
      Py.startswith "union " (Parent.type_spelling (Cursor.semantic_parent cursor)) = false ->
      config_kind_of cursor = (Some "struct_member", None))
  /\ (Cursor.kind cursor ∈ [FUNCTION_DECL; STRUCT_DECL; UNION_DECL; ENUM_DECL;
                            ENUM_CONSTANT_DECL] ->
      pointer_level_of cursor = None).
Proof.
  split; [intros; apply applies_verdict_visibility|].
  split; [intros; apply applies_verdict_pointer|].
  split; [|split].
  - intros Hk. unfold config_kind_of, _get_config_kind. rewrite Hk. reflexivity.
  - intros Hk Hu. unfold config_kind_of, _get_config_kind. rewrite Hk, Hu. reflexivity.
  - intros Hk. unfold pointer_level_of.
    destruct (Cursor.kind cursor); try reflexivity;
      exfalso; repeat (apply elem_of_cons in Hk as [Hk|Hk]; [discriminate|]);
      inversion Hk.
Qed.

(** A rule for parameters with [visibility = global] applies to the
    parameter [n]. *)
Example parameter_rule_with_visibility :
  applies_verdict Literal.engine Examples.parameter_n
    (Rule.mk "params" (Some ["parameter"]) (Some ["global"]) None None None None None
             (Some "n") None)
    "parameter" None (pointer_level_of Examples.parameter_n)
  = Ok true.
Proof. vm_compute. reflexivity. Qed.

(** ** What the alias expansion does to a kinds list *)

Lemma remove_keeps x k l : k <> x -> k ∈ l -> k ∈ Py.remove x l.
Proof.
  intros Hne. induction l as [|y l IH]; intros Hin; [inversion Hin|].
  simpl. destruct (String.eqb x y) eqn:Hxy.
  - apply String.eqb_eq in Hxy. subst y.
    apply elem_of_cons in Hin as [->|Hin]; [congruence | exact Hin].
  - apply elem_of_cons in Hin as [->|Hin]; apply elem_of_cons; [left; reflexivity|].
    right. exact (IH Hin).
Qed.

Lemma remove_subset x k l : k ∈ Py.remove x l -> k ∈ l.
Proof.
  induction l as [|y l IH]; simpl; [intros H; exact H|].
  destruct (String.eqb x y); intros H; apply elem_of_cons.
  - right. exact H.
  - apply elem_of_cons in H as [->|H]; [left; reflexivity | right; exact (IH H)].
Qed.

Lemma members_not_alias a members k :
  _KIND_EXPANSION a = Some members -> k ∈ members -> is_alias k = false.
Proof.
  intros He Hin. destruct (members_bound _ _ He) as [Hc _].
  destruct (is_alias k) eqn:Hk; [|reflexivity].
  apply list_elem_of_split in Hin as (l1 & l2 & ->).
  rewrite alias_count_app, alias_count_cons, Hk in Hc. lia.
Qed.

Lemma alias_is_alias a members : _KIND_EXPANSION a = Some members -> is_alias a = true.
Proof. intros He. unfold is_alias. rewrite He. reflexivity. Qed.

Lemma expand_loop_keeps_concrete fuel : forall i l l' k,
  expand_loop fuel i l = Some l' -> is_alias k = false -> k ∈ l -> k ∈ l'.
Proof.
  induction fuel as [|fuel IH]; intros i l l' k H Hk Hin; [discriminate|].
  simpl in H. destruct (l !! i) as [rule_kind|] eqn:Hi; [|inversion H; subst; exact Hin].
  destruct (_KIND_EXPANSION rule_kind) as [members|] eqn:He.
  - apply (IH _ _ _ _ H Hk). apply remove_keeps.
    + intros ->. rewrite (alias_is_alias _ _ He) in Hk. discriminate.
    + apply elem_of_app. left. exact Hin.
  - exact (IH _ _ _ _ H Hk Hin).
Qed.

Lemma expand_loop_named l0 fuel : forall i l l',
  (forall k, k ∈ l -> named_by l0 k) ->
  expand_loop fuel i l = Some l' ->
  forall k, k ∈ l' -> named_by l0 k.
Proof.
  induction fuel as [|fuel IH]; intros i l l' Hl H k Hin; [discriminate|].
  simpl in H. destruct (l !! i) as [rule_kind|] eqn:Hi;
    [|inversion H; subst; exact (Hl k Hin)].
  destruct (_KIND_EXPANSION rule_kind) as [members|] eqn:He.
  - refine (IH _ _ _ _ H k Hin). intros k' Hk'.
    apply remove_subset, elem_of_app in Hk' as [Hk'|Hk']; [exact (Hl k' Hk')|].
    right. exists rule_kind, members. split; [|split; [exact He | exact Hk']].
    destruct (Hl rule_kind (list_elem_of_lookup_2 _ _ _ Hi))
      as [Hin0|(a & ms & _ & Ha & Hm)]; [exact Hin0|].
    pose proof (alias_is_alias _ _ He) as Hal.
    rewrite (members_not_alias _ _ _ Ha Hm) in Hal. discriminate.
  - exact (IH _ _ _ Hl H k Hin).
Qed.

Lemma expand_loop_alias_count fuel : forall i l l',
  expand_loop fuel i l = Some l' -> alias_count l' <= alias_count l.
Proof.
  induction fuel as [|fuel IH]; intros i l l' H; [discriminate|].
  simpl in H. destruct (l !! i) as [rule_kind|] eqn:Hi; [|inversion H; subst; lia].
  destruct (_KIND_EXPANSION rule_kind) as [members|] eqn:He; [|exact (IH _ _ _ H)].
  apply IH in H.
  assert (Hin : rule_kind ∈ l ++ members).
  { apply elem_of_app. left. eapply list_elem_of_lookup_2. exact Hi. }
  pose proof (remove_alias_count _ _ (alias_is_alias _ _ He) Hin) as H2.
  destruct (members_bound _ _ He) as [Hc _].
  rewrite alias_count_app, Hc in H2. lia.
Qed.

Lemma expand_loop_progress fuel : forall i l l' j a,
  expand_loop fuel i l = Some l' ->
  i <= j -> l !! j = Some a -> is_alias a = true ->
  alias_count l' < alias_count l.
Proof.
  induction fuel as [|fuel IH]; intros i l l' j a H Hij Hj Ha; [discriminate|].
  simpl in H. destruct (l !! i) as [rule_kind|] eqn:Hi.
  - destruct (_KIND_EXPANSION rule_kind) as [members|] eqn:He.
    + apply expand_loop_alias_count in H.
      assert (Hin : rule_kind ∈ l ++ members).
      { apply elem_of_app. left. eapply list_elem_of_lookup_2. exact Hi. }
      pose proof (remove_alias_count _ _ (alias_is_alias _ _ He) Hin) as H2.
      destruct (members_bound _ _ He) as [Hc _].
      rewrite alias_count_app, Hc in H2. lia.
    + apply (IH _ _ _ j a H); [|exact Hj | exact Ha].
      destruct (decide (i = j)) as [->|Hne]; [|lia].
      rewrite Hj in Hi. inversion Hi. subst rule_kind.
      unfold is_alias in Ha. rewrite He in Ha. discriminate.
  - apply lookup_ge_None in Hi. apply lookup_lt_Some in Hj. lia.
Qed.

Lemma alias_count_pos l : 0 < alias_count l -> exists j a, l !! j = Some a /\ is_alias a = true.
Proof.
  induction l as [|k l IH]; [unfold alias_count; simpl; lia|].
  rewrite alias_count_cons. destruct (is_alias k) eqn:Hk.
  - intros _. exists 0, k. split; [reflexivity | exact Hk].
  - intros H. destruct IH as (j & a & Hj & Ha); [lia|].
    exists (S j), a. split; assumption.
Qed.

Lemma alias_count_zero l : alias_count l = 0 -> Forall (fun k => is_alias k = false) l.
Proof.
  induction l as [|k l IH]; [constructor|].
  rewrite alias_count_cons. destruct (is_alias k) eqn:Hk; [lia|].
  intros H. apply List.Forall_cons; [exact Hk | apply IH; lia].
Qed.

Lemma expand_kinds_iter n : forall l,
  alias_count (Nat.iter n expand_kinds l) <= alias_count l - n.
Proof.
  induction n as [|n IH]; intros l; simpl; [lia|].
  specialize (IH l).
  destruct (Nat.eq_dec (alias_count (Nat.iter n expand_kinds l)) 0) as [Hz|Hnz].
  - rewrite (expand_kinds_no_alias _ (alias_count_zero _ Hz)). lia.
  - destruct (alias_count_pos (Nat.iter n expand_kinds l)) as (j & a & Hj & Ha); [lia|].
    pose proof (expand_loop_progress _ _ _ _ j a
                  (expand_kinds_loop (Nat.iter n expand_kinds l)) (Nat.le_0_l _) Hj Ha).
    lia.
Qed.

(** X5.  The expansion of a kinds list keeps every concrete kind the list
    names and adds only members of the aliases it names, so a rule never
    comes to apply to a kind its configuration does not name.  One
    evaluation need not expand every alias, but it expands at least one
    when there is one; after as many evaluations as the list names
    aliases none is left. *)
Theorem kinds_expansion l :
  (forall k, is_alias k = false -> k ∈ l -> k ∈ expand_kinds l)
  /\ (forall k, k ∈ expand_kinds l -> named_by l k)
  /\ (0 < alias_count l -> alias_count (expand_kinds l) < alias_count l)
  /\ alias_count (Nat.iter (alias_count l) expand_kinds l) = 0.
Proof.
  pose proof (expand_kinds_loop l) as Hloop. repeat split.
  - intros k Hk Hin. exact (expand_loop_keeps_concrete _ _ _ _ _ Hloop Hk Hin).
  - intros k Hin.
    refine (expand_loop_named l _ _ _ _ _ Hloop k Hin). intros k' Hk'. left. exact Hk'.
  - intros Hpos. destruct (alias_count_pos l Hpos) as (j & a & Hj & Ha).
    exact (expand_loop_progress _ _ _ _ j a Hloop (Nat.le_0_l _) Hj Ha).
  - pose proof (expand_kinds_iter (alias_count l) l). lia.
Qed.

(** ** The test for an unnamed tag *)

Lemma index_go_past x l i start stop :
  stop <= i -> Py.index_go x l i start stop = None.
Proof.
  intros H. destruct l as [|y l]; [reflexivity|]. simpl.
  rewrite (proj2 (Nat.leb_le stop i) H). reflexivity.
Qed.

(** Elements that differ from [x] are stepped over. *)
Lemma index_go_skip x start stop pre : forall i rest,
  x ∉ pre ->
  Py.index_go x (pre ++ rest) i start stop
  = Py.index_go x rest (i + length pre) start stop.
Proof.
  induction pre as [|y pre IH]; intros i rest Hx.
  - simpl. rewrite Nat.add_0_r. reflexivity.
  - simpl. destruct (Nat.leb stop i) eqn:Hs.
    + apply Nat.leb_le in Hs. symmetry. apply index_go_past. lia.
    + assert (Hxy : String.eqb x y = false).
      { apply String.eqb_neq. intros ->. apply Hx. apply elem_of_cons. left. reflexivity. }
      rewrite Hxy, andb_false_r, IH.
      * f_equal. lia.
      * intros Hin. apply Hx. apply elem_of_cons. right. exact Hin.
Qed.

(** So are the elements before [start]. *)
Lemma index_go_before x start stop pre : forall i rest,
  i + length pre <= start ->
  Py.index_go x (pre ++ rest) i start stop
  = Py.index_go x rest (i + length pre) start stop.
Proof.
  induction pre as [|y pre IH]; intros i rest Hle.
  - simpl. rewrite Nat.add_0_r. reflexivity.
  - simpl in *. destruct (Nat.leb stop i) eqn:Hs.
    + apply Nat.leb_le in Hs. symmetry. apply index_go_past. lia.
    + rewrite (proj2 (Nat.leb_gt start i)) by lia. simpl. rewrite IH by lia.
      f_equal. lia.
Qed.

Lemma index_go_hit x rest i start stop :
  start <= i -> i < stop -> Py.index_go x (x :: rest) i start stop = Some i.
Proof.
  intros H1 H2. simpl.
  rewrite (proj2 (Nat.leb_gt stop i) H2), (proj2 (Nat.leb_le start i) H1), String.eqb_refl.
  reflexivity.
Qed.

Lemma index_go_miss x y rest i start stop :
  x <> y -> Py.index_go x (y :: rest) i start stop = Py.index_go x rest (S i) start stop.
Proof.
  intros Hne. change (y :: rest) with ([y] ++ rest).
  rewrite index_go_skip; [f_equal; simpl; lia|].
  intros H. apply list_elem_of_singleton in H. contradiction.
Qed.

(** Inside the window [start, stop) the search succeeds exactly when [x]
    is there. *)
Lemma index_go_window x start w : forall i rest,
  start <= i ->
  Py.index_go x (w ++ rest) i start (i + length w)
  = None <-> x ∉ w.
Proof.
  induction w as [|y w IH]; intros i rest Hi.
  - simpl. rewrite Nat.add_0_r. split.
    + intros _ H. inversion H.
    + intros _. apply index_go_past. lia.
  - simpl. rewrite (proj2 (Nat.leb_gt (i + S (length w)) i)) by lia.
    rewrite (proj2 (Nat.leb_le start i) Hi). simpl.
    destruct (String.eqb x y) eqn:Hxy.
    + apply String.eqb_eq in Hxy. subst y. split; [discriminate|].
      intros H. exfalso. apply H. apply elem_of_cons. left. reflexivity.
    + apply String.eqb_neq in Hxy.
      replace (i + S (length w)) with (S i + length w) by lia.
      rewrite (IH (S i) rest) by lia. rewrite not_elem_of_cons. tauto.
Qed.

Lemma keyword_not_brace k kw : tag_keyword k = Some kw -> kw <> "{".
Proof. destruct k; intros H; inversion H; discriminate. Qed.

Lemma unnamed_unfold cursor kw :
  tag_keyword (Cursor.kind cursor) = Some kw ->
  _is_struct_enum_union_unnamed cursor
  = match Py.index kw (Cursor.tokens cursor) 0 (length (Cursor.tokens cursor)) with
    | None => Ok false
    | Some type_pos =>
        match Py.index "{" (Cursor.tokens cursor) type_pos
                       (length (Cursor.tokens cursor)) with
        | None => Ok false
        | Some open_brace_pos =>
            match Py.index (Cursor.spelling cursor) (Cursor.tokens cursor)
                           type_pos open_brace_pos with
            | Some _ => Ok false
            | None => Ok true
            end
        end
    end.
Proof.
  unfold _is_struct_enum_union_unnamed, tag_keyword.
  destruct (Cursor.kind cursor); intros H; inversion H; reflexivity.
Qed.

(** X6.  [_is_struct_enum_union_unnamed] on the tokens of a tag
    declaration: without the keyword, or without an opening brace after
    the first keyword, the tag counts as named; with the brace, the tag
    is unnamed exactly when its spelling is not one of the tokens from
    the first keyword up to the first brace after it. *)
Theorem unnamed_tag_test cursor kw :
  tag_keyword (Cursor.kind cursor) = Some kw ->
  (kw ∉ Cursor.tokens cursor -> _is_struct_enum_union_unnamed cursor = Ok false)
  /\ (forall pre rest,
        Cursor.tokens cursor = pre ++ kw :: rest -> kw ∉ pre -> "{" ∉ rest ->
        _is_struct_enum_union_unnamed cursor = Ok false)
  /\ (forall pre mid post,
        Cursor.tokens cursor = pre ++ kw :: mid ++ "{" :: post ->
        kw ∉ pre -> "{" ∉ mid ->
        _is_struct_enum_union_unnamed cursor
        = Ok (negb (bool_decide (Cursor.spelling cursor ∈ kw :: mid)))).
Proof.
  intros Hkw. rewrite (unnamed_unfold _ _ Hkw).
  pose proof (keyword_not_brace _ _ Hkw) as Hnb. unfold Py.index.
  split; [|split].
  - intros Hno.
    rewrite <- (app_nil_r (Cursor.tokens cursor)) at 1.
    rewrite (index_go_skip _ _ _ _ 0 [] Hno). reflexivity.
  - intros pre rest Ht Hpre Hrest. rewrite Ht.
    rewrite (index_go_skip _ _ _ _ 0 _ Hpre).
    rewrite index_go_hit; [|lia | rewrite length_app; simpl; lia].
    rewrite (index_go_before _ _ _ pre 0) by (simpl; lia).
    rewrite index_go_miss by congruence.
    rewrite <- (app_nil_r rest) at 1.
    rewrite (index_go_skip _ _ _ _ _ [] Hrest). reflexivity.
  - intros pre mid post Ht Hpre Hmid. rewrite Ht.
    rewrite (index_go_skip _ _ _ _ 0 _ Hpre).
    rewrite index_go_hit; [|lia | rewrite length_app; simpl; lia].
    rewrite (index_go_before _ _ _ pre 0) by (simpl; lia).
    assert (Hbrace : Py.index_go "{" (kw :: mid ++ "{" :: post) (0 + length pre)
                       (0 + length pre) (length (pre ++ kw :: mid ++ "{" :: post))
                     = Some (S (length pre) + length mid)).
    { rewrite index_go_miss by congruence.
      rewrite (index_go_skip _ _ _ _ _ _ Hmid).
      apply index_go_hit; [lia|].
      rewrite length_app. simpl. rewrite length_app. simpl. lia. }
    rewrite Hbrace.
    rewrite (index_go_before _ _ _ pre 0) by (simpl; lia).
    pose proof (index_go_window (Cursor.spelling cursor) (0 + length pre) (kw :: mid)
                  (0 + length pre) ("{" :: post) (Nat.le_refl _)) as Hw.
    replace (0 + length pre + length (kw :: mid)) with (S (length pre) + length mid)
      in Hw by (simpl; lia).
    change ((kw :: mid) ++ "{" :: post) with (kw :: mid ++ "{" :: post) in Hw.
    destruct (Py.index_go (Cursor.spelling cursor) (kw :: mid ++ "{" :: post)
                (0 + length pre) (0 + length pre) (S (length pre) + length mid))
      as [n|] eqn:Hidx.
    + rewrite bool_decide_eq_true_2; [reflexivity|].
      destruct (decide (Cursor.spelling cursor ∈ kw :: mid)) as [Hin|Hnin]; [exact Hin|].
      apply Hw in Hnin. discriminate.
    + rewrite bool_decide_eq_false_2; [reflexivity|]. apply Hw. reflexivity.
Qed.

(** [struct S { int x; }] is named. *)
Lemma unnamed_tag_test_witness :
  _is_struct_enum_union_unnamed Examples.struct_S = Ok false.
Proof.
  exact (proj2 (proj2 (unnamed_tag_test Examples.struct_S "struct" eq_refl))
           [] ["S"] ["int"; "x"; ";"; "}"] eq_refl
           (not_elem_of_nil _)
           (fun H => match proj1 (list_elem_of_singleton _ _) H with end)).
Defined.

(** ** Placeholder substitution *)

Lemma string_app_cons c s t : String c s +:+ t = String c (s +:+ t).
Proof. reflexivity. Qed.

Lemma string_app_nil_l s : "" +:+ s = s.
Proof. reflexivity. Qed.

Lemma string_app_nil_r s : s +:+ "" = s.
Proof. induction s as [|c s IH]; [reflexivity|]. rewrite string_app_cons, IH. reflexivity. Qed.

Lemma string_app_assoc s t u : (s +:+ t) +:+ u = s +:+ t +:+ u.
Proof.
  induction s as [|c s IH]; [reflexivity|]. rewrite !string_app_cons, IH. reflexivity.
Qed.

Lemma run_cons m st c s :
  SubstTemplate.run m st (String c s)
  = fst (SubstTemplate.step m st c) +:+ SubstTemplate.run m (snd (SubstTemplate.step m st c)) s.
Proof. reflexivity. Qed.

(** Text without [$] is copied. *)
Lemma run_plain m pre : forall s,
  dollar_free pre = true ->
  SubstTemplate.run m SubstTemplate.Normal (pre +:+ s)
  = pre +:+ SubstTemplate.run m SubstTemplate.Normal s.
Proof.
  induction pre as [|c pre IH]; intros s H; [reflexivity|].
  simpl in H. apply andb_true_iff in H as [Hc Hpre].
  rewrite string_app_cons, run_cons. unfold SubstTemplate.step, SubstTemplate.normal_step.
  apply negb_true_iff in Hc. rewrite Hc. simpl fst. simpl snd.
  rewrite (IH s Hpre). reflexivity.
Qed.

Lemma braceid_char_not_close c : SubstTemplate.braceid_char c = true -> c <> "}"%char.
Proof. intros H ->. vm_compute in H. discriminate. Qed.

(** Inside [${...}]: the identifier runs up to the closing brace and is
    looked up. *)
Lemma run_braced m name : forall acc rest,
  all_chars SubstTemplate.braceid_char name = true -> acc <> "" ->
  SubstTemplate.run m (SubstTemplate.Braced acc) (name +:+ "}" +:+ rest)
  = SubstTemplate.lookup_or m (acc +:+ name) ("${" +:+ (acc +:+ name) +:+ "}")
    +:+ SubstTemplate.run m SubstTemplate.Normal rest.
Proof.
  induction name as [|c name IH]; intros acc rest Hn Hacc.
  - rewrite string_app_nil_l, string_app_nil_r, string_app_cons, run_cons.
    unfold SubstTemplate.step.
    rewrite (proj2 (String.eqb_neq acc "") Hacc). reflexivity.
  - simpl in Hn. apply andb_true_iff in Hn as [Hc Hname].
    rewrite string_app_cons, run_cons. unfold SubstTemplate.step.
    rewrite (proj2 (String.eqb_neq acc "") Hacc), Hc. simpl fst. simpl snd.
    rewrite string_app_nil_l, (IH _ rest Hname).
    + unfold SubstTemplate.snoc. rewrite !string_app_assoc. reflexivity.
    + unfold SubstTemplate.snoc. destruct acc; discriminate.
Qed.

Lemma run_placeholder m name rest :
  valid_braceid name = true ->
  SubstTemplate.run m SubstTemplate.Normal ("${" +:+ name +:+ "}" +:+ rest)
  = SubstTemplate.lookup_or m name ("${" +:+ name +:+ "}")
    +:+ SubstTemplate.run m SubstTemplate.Normal rest.
Proof.
  destruct name as [|c name]; [discriminate|]. intros H. simpl in H.
  apply andb_true_iff in H as [Hc Hname].
  change ("${" +:+ String c name +:+ "}" +:+ rest)
    with (String "$" (String "{" (String c (name +:+ "}" +:+ rest)))).
  rewrite !run_cons.
  change (SubstTemplate.step m SubstTemplate.Normal "$") with ("", SubstTemplate.Dollar).
  cbn [fst snd].
  change (SubstTemplate.step m SubstTemplate.Dollar "{") with ("", SubstTemplate.Braced "").
  cbn [fst snd].
  assert (Hstep : SubstTemplate.step m (SubstTemplate.Braced "") c
                  = ("", SubstTemplate.Braced (String c ""))).
  { unfold SubstTemplate.step. change (String.eqb "" "") with true. cbv iota.
    rewrite Hc. reflexivity. }
  rewrite Hstep. cbn [fst snd]. rewrite !string_app_nil_l.
  rewrite (run_braced m name (String c "") rest Hname); [reflexivity | discriminate].
Qed.

(** X7.  [safe_substitute] copies text without [$], replaces a braced
    placeholder whose identifier is in the mapping by the mapped text,
    and leaves a braced placeholder that is not in the mapping as it was
    written; neither case is an error. *)
Theorem placeholder_substitution m pre name rest :
  dollar_free pre = true ->
  valid_braceid name = true ->
  SubstTemplate.safe_substitute m (pre +:+ "${" +:+ name +:+ "}" +:+ rest)
  = pre +:+ default ("${" +:+ name +:+ "}") (m !! name)
        +:+ SubstTemplate.safe_substitute m rest.
Proof.
  intros Hpre Hname. unfold SubstTemplate.safe_substitute.
  rewrite (run_plain m pre _ Hpre), (run_placeholder m name rest Hname). reflexivity.
Qed.

Lemma placeholder_substitution_witness :
  SubstTemplate.safe_substitute (<["case:camel" := "[a-z][a-zA-Z0-9]*"]> ∅)
    ("g_" +:+ "${" +:+ "case:camel" +:+ "}" +:+ "_t")
  = "g_[a-z][a-zA-Z0-9]*_t".
Proof.
  exact (placeholder_substitution (<["case:camel" := "[a-z][a-zA-Z0-9]*"]> ∅)
           "g_" "case:camel" "_t" eq_refl eq_refl).
Defined.

Lemma safe_substitute_plain m s :
  dollar_free s = true -> SubstTemplate.safe_substitute m s = s.
Proof.
  intros H. unfold SubstTemplate.safe_substitute.
  rewrite <- (string_app_nil_r s) at 1. rewrite (run_plain m s "" H).
  apply string_app_nil_r.
Qed.

Lemma safe_substitute_escape m t :
  dollar_free t = true -> SubstTemplate.safe_substitute m ("$$" +:+ t) = "$" +:+ t.
Proof.
  intros H. unfold SubstTemplate.safe_substitute.
  change ("$$" +:+ t) with (String "$" (String "$" t)). rewrite !run_cons.
  change (SubstTemplate.step m SubstTemplate.Normal "$") with ("", SubstTemplate.Dollar).
  cbn [fst snd].
  change (SubstTemplate.step m SubstTemplate.Dollar "$") with ("$", SubstTemplate.Normal).
  cbn [fst snd]. rewrite string_app_nil_l.
  fold (SubstTemplate.safe_substitute m t). rewrite (safe_substitute_plain m t H).
  reflexivity.
Qed.

(** X8.  [_sub_placeholders] substitutes twice when the configuration has
    a non-empty [placeholders] section and once when it has none, so the
    escape [$$] means different things: without the section it yields a
    literal [$]; with the section the [$] it yields is read again by the
    second pass and starts a placeholder there.  A pattern without [$]
    is used as written in both cases. *)
Theorem escape_depends_on_section section_placeholders vars t :
  dollar_free t = true ->
  sub_placeholders_in section_placeholders ("$$" +:+ t) vars
  = (if Nat.ltb 0 (size section_placeholders)
     then SubstTemplate.safe_substitute vars ("$" +:+ t)
     else "$" +:+ t)
  /\ sub_placeholders_in section_placeholders t vars = t.
Proof.
  intros H. unfold sub_placeholders_in.
  destruct (Nat.ltb 0 (size section_placeholders)).
  - rewrite (safe_substitute_escape _ t H), (safe_substitute_plain _ t H).
    split; [reflexivity | apply safe_substitute_plain, H].
  - split; [apply safe_substitute_escape, H | apply safe_substitute_plain, H].
Qed.

(** With a [placeholders] section, [$$filename] ends up as the file name;
    without one, as the text [$filename]. *)
Lemma escape_depends_on_section_witness :
  sub_placeholders_in (<["p:id" := "x"]> ∅) ("$$" +:+ "filename")
                      (<["filename" := "widget"]> ∅) = "widget"
  /\ sub_placeholders_in ∅ ("$$" +:+ "filename") (<["filename" := "widget"]> ∅)
     = "$filename".
Proof.
  split.
  - etransitivity;
      [exact (proj1 (escape_depends_on_section (<["p:id" := "x"]> ∅)
                       (<["filename" := "widget"]> ∅) "filename" eq_refl))
      | vm_compute; reflexivity].
  - exact (proj1 (escape_depends_on_section ∅ (<["filename" := "widget"]> ∅)
                    "filename" eq_refl)).
Defined.

(** X9.  The text a [placeholders] section gives for [${name}] is itself
    a template for the second pass: the variables of the declaration are
    substituted into it. *)
Theorem section_placeholder_is_template section_placeholders vars pre name rest v :
  dollar_free pre = true ->
  valid_braceid name = true ->
  dollar_free rest = true ->
  section_placeholders !! name = Some v ->
  sub_placeholders_in section_placeholders (pre +:+ "${" +:+ name +:+ "}" +:+ rest) vars
  = pre +:+ SubstTemplate.safe_substitute vars (v +:+ rest).
Proof.
  intros Hpre Hname Hrest Hv. unfold sub_placeholders_in.
  assert (Hsize : Nat.ltb 0 (size section_placeholders) = true).
  { apply Nat.ltb_lt. destruct (size section_placeholders) eqn:Hs; [|lia].
    apply map_size_empty_iff in Hs. rewrite Hs, lookup_empty in Hv. discriminate. }
  rewrite Hsize, (placeholder_substitution _ pre name rest Hpre Hname), Hv.
  simpl default. rewrite (safe_substitute_plain _ rest Hrest).
  unfold SubstTemplate.safe_substitute. apply run_plain, Hpre.
Qed.

Lemma section_placeholder_is_template_witness :
  sub_placeholders_in (<["p:id" := "${case:camel}"]> ∅)
    ("g_" +:+ "${" +:+ "p:id" +:+ "}" +:+ "_t")
    (<["case:camel" := "[a-z][a-zA-Z0-9]*"]> ∅)
  = "g_[a-z][a-zA-Z0-9]*_t".
Proof.
  etransitivity;
    [exact (section_placeholder_is_template (<["p:id" := "${case:camel}"]> ∅)
              (<["case:camel" := "[a-z][a-zA-Z0-9]*"]> ∅)
              "g_" "p:id" "_t" "${case:camel}" eq_refl eq_refl eq_refl eq_refl)
    | vm_compute; reflexivity].
Defined.

(** ** Order of the rules and keys of the placeholders *)

Lemma rule_sections_cons s sections :
  rule_sections (s :: sections)
  = if String.eqb s.1 "placeholders" then rule_sections sections
    else s :: rule_sections sections.
Proof.
  unfold rule_sections. destruct (String.eqb s.1 "placeholders") eqn:H.
  - apply String.eqb_eq in H. rewrite filter_cons_False; [reflexivity|]. intros Hn. exact (Hn H).
  - apply String.eqb_neq in H. rewrite filter_cons_True; [reflexivity | exact H].
Qed.

Lemma placeholder_sections_cons s sections :
  placeholder_sections (s :: sections)
  = if String.eqb s.1 "placeholders" then s :: placeholder_sections sections
    else placeholder_sections sections.
Proof.
  unfold placeholder_sections. destruct (String.eqb s.1 "placeholders") eqn:H.
  - apply String.eqb_eq in H. rewrite filter_cons_True; [reflexivity | exact H].
  - apply String.eqb_neq in H. rewrite filter_cons_False; [reflexivity | exact H].
Qed.

Lemma load_from_order sections : forall acc rs,
  RuleSet.load_from sections acc = Ok rs ->
  exists new_rules,
    RuleSet.rules rs = RuleSet.rules acc ++ new_rules
    /\ Forall2 (fun s r => RuleSet.load_rule s.1 s.2 = Ok r) (rule_sections sections) new_rules
    /\ RuleSet.placeholders rs
       = default (RuleSet.placeholders acc)
           (RuleSet.load_placeholders <$> last ((placeholder_sections sections).*2)).
Proof.
  induction sections as [|[name section] rest IH]; intros acc rs H.
  - inversion H. subst. exists []. rewrite app_nil_r. repeat split. constructor.
  - simpl in H. rewrite rule_sections_cons, placeholder_sections_cons. simpl.
    destruct (String.eqb name "placeholders") eqn:Hn.
    + apply IH in H as (new_rules & Hr & Hf & Hp). exists new_rules.
      split; [exact Hr|]. split; [exact Hf|]. rewrite Hp.
      change (((name, section) :: placeholder_sections rest).*2)
        with (section :: (placeholder_sections rest).*2).
      rewrite last_cons.
      destruct (last ((placeholder_sections rest).*2)); reflexivity.
    + destruct (RuleSet.load_rule name section) as [r|e] eqn:Hl; [|discriminate].
      apply IH in H as (new_rules & Hr & Hf & Hp). exists (r :: new_rules).
      split; [simpl in Hr; rewrite Hr, <- app_assoc; reflexivity|].
      split; [constructor; [exact Hl | exact Hf] | exact Hp].
Qed.

Lemma load_rule_name name section r :
  RuleSet.load_rule name section = Ok r -> Rule.name r = name.
Proof.
  unfold RuleSet.load_rule. destruct (RuleSet.get_pointer section); [|discriminate].
  destruct (_ && _); [discriminate|]. destruct (_ && _); [discriminate|].
  intros H. inversion H. reflexivity.
Qed.

(** X10.  A load that succeeds keeps the order of the configuration: the
    rules are the sections other than [placeholders], each read by
    itself, in the order of the file, under the names of their sections;
    the placeholder table is that of the last [placeholders] section,
    and empty when there is none. *)
Theorem load_keeps_order sections rs :
  RuleSet.load sections = Ok rs ->
  Forall2 (fun s r => RuleSet.load_rule s.1 s.2 = Ok r)
          (rule_sections sections) (RuleSet.rules rs)
  /\ Rule.name <$> RuleSet.rules rs = (rule_sections sections).*1
  /\ RuleSet.placeholders rs
     = default ∅ (RuleSet.load_placeholders <$> last ((placeholder_sections sections).*2)).
Proof.
  intros H. apply load_from_order in H as (new_rules & Hr & Hf & Hp).
  simpl in Hr. subst new_rules. split; [exact Hf|]. split; [|exact Hp].
  clear Hp. induction Hf as [|s r ss rs' Hl _ IH]; [reflexivity|].
  rewrite !fmap_cons, IH, (load_rule_name _ _ _ Hl). reflexivity.
Qed.

Lemma load_keeps_order_witness :
  exists rs,
    RuleSet.load Examples.style_sections = Ok rs
    /\ Rule.name <$> RuleSet.rules rs = ["globals"; "names"].
Proof.
  destruct (RuleSet.load Examples.style_sections) as [rs|e] eqn:H;
    [|vm_compute in H; discriminate H].
  exists rs. split; [reflexivity|].
  exact (proj1 (proj2 (load_keeps_order Examples.style_sections rs H))).
Defined.

Global Instance p_prefix_inj : Inj (=) (=) (String.append "p:").
Proof. intros a b H. inversion H as [H1]. exact H1. Qed.

Lemma load_placeholders_kmap (section : gmap string string) :
  RuleSet.load_placeholders section = kmap (String.append "p:") section.
Proof.
  reflexivity.
Qed.

(** X11.  The placeholder table holds each field of the [placeholders]
    section under its name prefixed with [p:], and nothing else: a key
    that does not have this form is not in the table. *)
Theorem placeholders_keyed_by_prefix (section : gmap string string) :
  (forall k, RuleSet.load_placeholders section !! ("p:" +:+ k) = section !! k)
  /\ (forall key, (forall k, key <> "p:" +:+ k) ->
                  RuleSet.load_placeholders section !! key = None).
Proof.
  rewrite load_placeholders_kmap. split.
  - intros k. apply (lookup_kmap (String.append "p:")).
  - intros key Hkey. apply (lookup_kmap_None (String.append "p:")).
    intros k Hk. exfalso. exact (Hkey k Hk).
Qed.

(** ** What the pre-pass registers, and where it stops *)

Lemma process_token_other translation_unit token p :
  ~ is_ignore_comment token ->
  forall p', process_token translation_unit token p = Ok (tt, p') ->
  _ignore_comments p' = _ignore_comments p.
Proof.
  intros Hn p'. unfold process_token.
  destruct (bool_decide (Token.kind token = COMMENT)) eqn:Hk;
    [|intros H; inversion H; reflexivity].
  apply bool_decide_eq_true in Hk.
  destruct (CommentGrammar.fullmatch_comment (Token.spelling token)) as [m|] eqn:Hm;
    [|intros H; inversion H; reflexivity].
  unfold bind, lift. destruct (CommentGrammar.value m) as [value|e] eqn:Hv; [|discriminate].
  destruct (String.eqb value "ignore") eqn:Hi; [|intros H; inversion H; reflexivity].
  apply String.eqb_eq in Hi. subst value. exfalso. apply Hn.
  split; [exact Hk|]. exists m. split; assumption.
Qed.

Lemma classic_ignore token : is_ignore_comment token \/ ~ is_ignore_comment token.
Proof.
  unfold is_ignore_comment.
  destruct (decide (Token.kind token = COMMENT)) as [Hk|Hk]; [|right; tauto].
  destruct (CommentGrammar.fullmatch_comment (Token.spelling token)) as [m|];
    [|right; intros (_ & m & Hm & _); discriminate].
  destruct (CommentGrammar.value m) as [v|e] eqn:Hv.
  - destruct (String.eqb v "ignore") eqn:Hi.
    + apply String.eqb_eq in Hi. subst v. left. split; [exact Hk|]. exists m. tauto.
    + apply String.eqb_neq in Hi. right. intros (_ & m' & Hm & Hv').
      inversion Hm. subst m'. rewrite Hv in Hv'. inversion Hv'. contradiction.
  - right. intros (_ & m' & Hm & Hv'). inversion Hm. subst m'.
    rewrite Hv in Hv'. discriminate.
Qed.

Lemma process_tokens_loop_origin translation_unit tokens : forall p p',
  process_tokens_loop translation_unit tokens p = Ok (tt, p') ->
  forall key ic,
    _ignore_comments p' !! key = Some ic ->
    _ignore_comments p !! key = Some ic
    \/ exists token,
         token ∈ tokens /\ is_ignore_comment token
         /\ key = comment_key translation_unit token
         /\ ic = {| token := token; used := false |}.
Proof.
  induction tokens as [|t rest IH]; intros p p' H key ic Hic.
  - inversion H. subst. left. exact Hic.
  - simpl in H. apply bind_inv in H as ([] & p1 & H1 & H2).
    destruct (IH _ _ H2 key ic Hic) as [Hp1|(token & Hin & Hi & Hk & Hc)].
    + destruct (classic_ignore t) as [Hi|Hn].
      * rewrite (process_token_ignore _ _ _ Hi) in H1. inversion H1. subst p1.
        simpl in Hp1.
        destruct (decide (comment_key translation_unit t = key)) as [Hk|Hk].
        -- subst key. rewrite lookup_insert_eq in Hp1. inversion Hp1.
           right. exists t. split; [apply elem_of_cons; left; reflexivity|].
           split; [exact Hi|]. split; reflexivity.
        -- rewrite lookup_insert_ne in Hp1 by exact Hk. left. exact Hp1.
      * rewrite (process_token_other _ _ _ Hn _ H1) in Hp1. left. exact Hp1.
    + right. exists token. split; [apply elem_of_cons; right; exact Hin|].
      split; [exact Hi|]. split; assumption.
Qed.

(** X12.  The ignore table after the pre-pass holds nothing but what it
    held before and the ignore comments of the token stream: every new
    entry is an unused [IgnoreComment] for a comment token of the
    suppression grammar with value [ignore], under the key of that
    token's line or of the next.  A token that is not such a comment
    leaves the table as it is. *)
Theorem prepass_registers_only_ignore_comments translation_unit p p' :
  _process_tokens translation_unit p = Ok (tt, p') ->
  forall key ic,
    _ignore_comments p' !! key = Some ic ->
    _ignore_comments p !! key = Some ic
    \/ exists token,
         token ∈ TranslationUnit.tokens translation_unit /\ is_ignore_comment token
         /\ key = comment_key translation_unit token
         /\ ic = {| token := token; used := false |}.
Proof. apply process_tokens_loop_origin. Qed.

Example source_unit_prepass :
  _process_tokens Examples.source_unit (new_processor (RuleSet.mk [] ∅))
  = Ok (tt, registered "src/widget.c:5" Examples.own_line_comment
              (registered "src/widget.c:3" Examples.trailing_comment
                 (new_processor (RuleSet.mk [] ∅)))).
Proof. vm_compute. reflexivity. Qed.

Lemma prepass_registers_only_ignore_comments_witness :
  _ignore_comments (new_processor (RuleSet.mk [] ∅)) !! "src/widget.c:5"
  = Some {| token := Examples.own_line_comment; used := false |}
  \/ exists token,
       token ∈ TranslationUnit.tokens Examples.source_unit /\ is_ignore_comment token
       /\ "src/widget.c:5" = comment_key Examples.source_unit token
       /\ {| token := Examples.own_line_comment; used := false |}
          = {| token := token; used := false |}.
Proof.
  apply (prepass_registers_only_ignore_comments Examples.source_unit _ _
           source_unit_prepass "src/widget.c:5").
  vm_compute. reflexivity.
Defined.

Lemma lstrip_blank ws s : blank ws = true -> Py.lstrip (ws +:+ s) = Py.lstrip s.
Proof.
  induction ws as [|c ws IH]; intros H; [reflexivity|].
  simpl in H. apply andb_true_iff in H as [Hc Hws].
  rewrite string_app_cons. simpl. rewrite Hc. exact (IH Hws).
Qed.

Lemma lstrip_all_blank ws : blank ws = true -> Py.lstrip ws = "".
Proof.
  intros H. rewrite <- (string_app_nil_r ws). rewrite (lstrip_blank ws "" H). reflexivity.
Qed.

Lemma drop_prefix_app p s : CommentGrammar.drop_prefix p (p +:+ s) = Some s.
Proof.
  induction p as [|c p IH]; [reflexivity|].
  rewrite string_app_cons. simpl. rewrite Ascii.eqb_refl. exact IH.
Qed.

Lemma after_marker_blank ws1 ws2 rest :
  blank ws1 = true -> blank ws2 = true -> ws2 <> "" ->
  (forall c r, rest = String c r -> Py.isspace c = false) ->
  CommentGrammar.after_marker (ws1 +:+ "c-name-style" +:+ ws2 +:+ rest) = Some rest.
Proof.
  intros H1 H2 Hne Hrest. unfold CommentGrammar.after_marker.
  rewrite (lstrip_blank ws1 _ H1).
  change (Py.lstrip ("c-name-style" +:+ ws2 +:+ rest))
    with ("c-name-style" +:+ ws2 +:+ rest).
  rewrite drop_prefix_app.
  destruct ws2 as [|c ws2]; [contradiction|].
  simpl in H2. apply andb_true_iff in H2 as [Hc Hws].
  rewrite string_app_cons, Hc, (lstrip_blank ws2 rest Hws).
  destruct rest as [|c' r]; [reflexivity|].
  simpl. rewrite (Hrest c' r eq_refl). reflexivity.
Qed.

(** X13.  A directive without a value.  A line comment that holds
    [c-name-style] followed by blanks only matches the grammar with an
    empty first group; [match.group(1) or match.group(2)] is then [None]
    and [.strip()] raises [AttributeError], which ends the pre-pass.  The
    block comment of the same content matches with an empty second
    group and is reported as an unrecognised comment. *)
Theorem directive_without_value translation_unit token ws1 ws2 p :
  Token.kind token = COMMENT ->
  blank ws1 = true -> blank ws2 = true -> ws2 <> "" ->
  (Token.spelling token = "//" +:+ ws1 +:+ "c-name-style" +:+ ws2 ->
   process_token translation_unit token p = Raise AttributeError)
  /\ (Token.spelling token = "/*" +:+ ws1 +:+ "c-name-style" +:+ ws2 +:+ "*/" ->
      process_token translation_unit token p
      = Ok (tt, printed (UnrecognisedComment (location_str (Token.location token))
                           (Token.spelling token)) p)).
Proof.
  intros Hk H1 H2 Hne. unfold process_token. rewrite Hk.
  change (bool_decide (COMMENT = COMMENT)) with true. cbv iota.
  unfold CommentGrammar.fullmatch_comment. split; intros Hs; rewrite Hs.
  - rewrite (drop_prefix_app "//").
    assert (Ha : CommentGrammar.after_marker (ws1 +:+ "c-name-style" +:+ ws2) = Some "").
    { pose proof (after_marker_blank ws1 ws2 "" H1 H2 Hne) as Ha.
      rewrite string_app_nil_r in Ha. apply Ha. intros c r Hc. discriminate. }
    rewrite Ha. reflexivity.
  - change ("/*" +:+ ws1 +:+ "c-name-style" +:+ ws2 +:+ "*/")
      with (String "/" (String "*" (ws1 +:+ "c-name-style" +:+ ws2 +:+ "*/"))).
    cbn [CommentGrammar.drop_prefix Ascii.eqb Bool.eqb]. cbv iota.
    rewrite (after_marker_blank ws1 ws2 "*/" H1 H2 Hne); [reflexivity|].
    intros c r Hc. inversion Hc. reflexivity.
Qed.

Lemma directive_without_value_witness :
  process_token Examples.source_unit (Examples.tok COMMENT "// c-name-style " 8 1 16)
    (new_processor (RuleSet.mk [] ∅))
  = Raise AttributeError.
Proof.
  exact (proj1 (directive_without_value Examples.source_unit
                  (Examples.tok COMMENT "// c-name-style " 8 1 16) " " " "
                  (new_processor (RuleSet.mk [] ∅)) eq_refl eq_refl eq_refl
                  (fun H => match H in _ = s return
                                  match s with EmptyString => False | _ => True end
                            with eq_refl => I end))
           eq_refl).
Defined.

(** * The walk as a whole *)

(** ** What the walk only adds to *)

Global Instance grows_refl : Reflexive grows.
Proof.
  intros p. repeat split; auto. exists []. rewrite app_nil_r. reflexivity.
Qed.

Global Instance grows_trans : Transitive grows.
Proof.
  intros p q r (H1 & H2 & H3 & H4 & out1 & H5) (K1 & K2 & K3 & K4 & out2 & K5).
  split; [congruence|]. split; [intros key; rewrite K2; apply H2|].
  split; [intros key Hk; apply K3, H3, Hk|]. split; [auto|].
  exists (out1 ++ out2). rewrite K5, H5, app_assoc. reflexivity.
Qed.

Lemma grows_print d : preserves grows (print d).
Proof.
  intros p a p' H. inversion H. repeat split; auto. exists [d]. reflexivity.
Qed.

Lemma grows_set_has_failures : preserves grows set_has_failures.
Proof.
  intros p a p' H. inversion H. repeat split; auto.
  exists []. simpl. rewrite app_nil_r. reflexivity.
Qed.

Lemma grows_set_rules rs : preserves grows (set_rules rs).
Proof.
  intros p a p' H. inversion H. repeat split; auto.
  exists []. simpl. rewrite app_nil_r. reflexivity.
Qed.

Lemma grows_set_used key : preserves grows (set_used key).
Proof.
  intros p a p' H. inversion H. subst. clear H.
  cbv [grows]. cbn [_ignore_comments _rule_set _has_failures stdout].
  split; [reflexivity|]. split; [|split; [|split; [auto|]]].
  - intros k. destruct (decide (k = key)) as [->|Hne].
    + rewrite lookup_alter_eq. destruct (_ignore_comments p !! key); reflexivity.
    + rewrite lookup_alter_ne by congruence. reflexivity.
  - intros k Hk. destruct (decide (k = key)) as [->|Hne].
    + rewrite lookup_alter_eq. destruct (_ignore_comments p !! key); [reflexivity|discriminate].
    + rewrite lookup_alter_ne by congruence. exact Hk.
  - exists []. rewrite app_nil_r. reflexivity.
Qed.

#[global] Hint Resolve grows_refl grows_trans grows_print grows_set_has_failures
  grows_set_rules grows_set_used : frame.

Lemma grows_sub_placeholders t vars : preserves grows (_sub_placeholders t vars).
Proof. unfold _sub_placeholders. repeat frame_step. Qed.
#[global] Hint Resolve grows_sub_placeholders : frame.

Lemma grows_join_affixes accessor rules vars :
  preserves grows (join_affixes accessor rules vars).
Proof.
  induction rules as [|x rules IH]; simpl; [auto with frame|].
  repeat frame_step.
Qed.
#[global] Hint Resolve grows_join_affixes : frame.

Lemma grows_test_rule re cursor rule pre suf loc vars :
  preserves grows (_test_rule re cursor rule pre suf loc vars).
Proof.
  unfold _test_rule, test_affixes, test_affix_rules, parent_vars, test_body.
  repeat frame_step.
Qed.

Lemma grows_get_config_kind cursor file :
  preserves grows (_get_config_kind cursor file).
Proof.
  unfold _get_config_kind, tag_kind. repeat frame_step.
Qed.
#[global] Hint Resolve grows_test_rule grows_get_config_kind : frame.

Lemma grows_rules_loop re cursor k v pl loc rules : forall pre suf vars,
  preserves grows (rules_loop re cursor k v pl loc rules pre suf vars).
Proof.
  induction rules as [|rule0 rest IH]; intros pre suf vars; simpl; [auto with frame|].
  repeat frame_step.
Qed.
#[global] Hint Resolve grows_rules_loop : frame.

Lemma grows_process_node re cursor : preserves grows (_process_node re cursor).
Proof. unfold _process_node. repeat frame_step. Qed.
#[global] Hint Resolve grows_process_node : frame.

Lemma grows_process_nodes re nodes : preserves grows (process_nodes re nodes).
Proof.
  induction nodes as [|c rest IH]; simpl; [auto with frame|].
  repeat frame_step.
Qed.

(** X14.  The walk only adds.  Whatever tree [_process] walks, the state
    it ends in has the placeholder table it started with, the same keys
    of the ignore table with the same tokens, every comment that was
    marked used still marked, a recorded failure still recorded, and
    the output it started with at the head of its output. *)
Theorem walk_only_adds re cursor p p' :
  _process re cursor p = Ok (tt, p') ->
  RuleSet.placeholders (_rule_set p') = RuleSet.placeholders (_rule_set p)
  /\ (forall key, token <$> _ignore_comments p' !! key = token <$> _ignore_comments p !! key)
  /\ (forall key, used <$> _ignore_comments p !! key = Some true ->
                  used <$> _ignore_comments p' !! key = Some true)
  /\ (_has_failures p = true -> _has_failures p' = true)
  /\ exists out, stdout p' = stdout p ++ out.
Proof.
  intros H. rewrite process_visits in H.
  exact (grows_process_nodes re _ _ _ _ H).
Qed.

Lemma walk_only_adds_witness :
  exists p',
    _process Literal.engine Examples.record_typedef_unit
      (new_processor Examples.member_rules) = Ok (tt, p')
    /\ exists out, stdout p' = stdout (new_processor Examples.member_rules) ++ out.
Proof.
  destruct (_process Literal.engine Examples.record_typedef_unit
              (new_processor Examples.member_rules)) as [[[] p']|e] eqn:H;
    [|vm_compute in H; discriminate H].
  exists p'. split; [reflexivity|].
  exact (proj2 (proj2 (proj2 (proj2
           (walk_only_adds Literal.engine Examples.record_typedef_unit _ _ H))))).
Defined.

(** ** A declaration on a line with an ignore comment *)

Global Instance quiet_refl : Reflexive quiet.
Proof.
  intros p. split; [reflexivity|]. exists []. rewrite app_nil_r.
  split; [reflexivity | constructor].
Qed.

Global Instance quiet_trans : Transitive quiet.
Proof.
  intros p q r (H1 & out1 & H2 & H3) (K1 & out2 & K2 & K3).
  split; [congruence|]. exists (out1 ++ out2).
  split; [rewrite K2, H2, app_assoc; reflexivity | apply Forall_app; split; assumption].
Qed.

Lemma quiet_print d : is_failure d = false -> preserves quiet (print d).
Proof.
  intros Hd p a p' H. inversion H. split; [reflexivity|].
  exists [d]. split; [reflexivity | constructor; [exact Hd | constructor]].
Qed.

Lemma quiet_set_rules rs : preserves quiet (set_rules rs).
Proof. intros p a p' H. inversion H. exact (quiet_refl p). Qed.

Lemma quiet_set_used key : preserves quiet (set_used key).
Proof. intros p a p' H. inversion H. exact (quiet_refl p). Qed.

#[global] Hint Resolve quiet_refl quiet_trans quiet_set_rules quiet_set_used : frame.
#[global] Hint Extern 1 (preserves quiet (print _)) =>
  apply quiet_print; reflexivity : frame.

Lemma quiet_sub_placeholders t vars : preserves quiet (_sub_placeholders t vars).
Proof. unfold _sub_placeholders. repeat frame_step. Qed.
#[global] Hint Resolve quiet_sub_placeholders : frame.

Lemma quiet_join_affixes accessor rules vars :
  preserves quiet (join_affixes accessor rules vars).
Proof.
  induction rules as [|x rules IH]; simpl; [auto with frame|].
  repeat frame_step.
Qed.
#[global] Hint Resolve quiet_join_affixes : frame.

Lemma quiet_get_config_kind cursor file :
  preserves quiet (_get_config_kind cursor file).
Proof.
  unfold _get_config_kind, tag_kind. repeat frame_step.
Qed.

Lemma quiet_test_affixes re key cursor rule pre suf loc vars :
  preserves quiet (test_affixes re key true cursor rule pre suf loc vars).
Proof.
  unfold test_affixes, test_affix_rules. cbv beta iota. repeat frame_step.
Qed.

Lemma quiet_parent_vars re cursor rule loc vars :
  preserves quiet (parent_vars re cursor rule loc vars).
Proof. unfold parent_vars. repeat frame_step. Qed.

Lemma quiet_test_body re key cursor rule loc vars ep es n s :
  preserves quiet (test_body re key true cursor rule loc vars ep es n s).
Proof. unfold test_body. cbv beta iota. repeat frame_step. Qed.

Lemma test_affix_rules_comment re key loc name vars rules is_prefix n s p r p' :
  test_affix_rules re key true loc name vars rules is_prefix n s p = Ok (r, p') ->
  r.2.2 = s.
Proof.
  unfold test_affix_rules. destruct (Nat.ltb 0 (length rules)).
  - intros H. apply bind_inv in H as (e & p1 & _ & H).
    apply bind_inv in H as (m & p2 & _ & H). destruct m as [[ms me]|].
    + inversion H. reflexivity.
    + apply bind_inv in H as ([] & p3 & _ & H). inversion H. reflexivity.
  - intros H. inversion H. reflexivity.
Qed.

Lemma test_affixes_comment re key cursor rule pre suf loc vars p r p' :
  test_affixes re key true cursor rule pre suf loc vars p = Ok (r, p') ->
  r.2.2 = Some true.
Proof.
  unfold test_affixes. intros H.
  apply bind_inv in H as (r1 & p1 & H1 & H).
  apply bind_inv in H as (r2 & p2 & H2 & H). inversion H. subst. clear H.
  cbn [snd].
  assert (Hr1 : r1.2.2 = Some true).
  { destruct (bool_decide (Rule.prefix rule ≠ Some "")).
    - exact (test_affix_rules_comment _ _ _ _ _ _ _ _ _ _ _ _ H1).
    - inversion H1. reflexivity. }
  destruct (bool_decide (Rule.suffix rule ≠ Some "")).
  - rewrite (test_affix_rules_comment _ _ _ _ _ _ _ _ _ _ _ _ H2). exact Hr1.
  - inversion H2. exact Hr1.
Qed.

Lemma test_body_comment re key cursor rule loc vars ep es n s p r p' :
  test_body re key true cursor rule loc vars ep es n s p = Ok (r, p') -> r = s.
Proof.
  unfold test_body. destruct (is_None _); [discriminate|].
  destruct (py_or _ _) as [template|]; [|discriminate].
  intros H. apply bind_inv in H as (regex & p1 & _ & H).
  apply bind_inv in H as (matched & p2 & _ & H).
  destruct matched; [inversion H; reflexivity|].
  apply bind_inv in H as ([] & p3 & _ & H). inversion H. reflexivity.
Qed.

Lemma test_rule_comment re cursor rule pre suf loc vars p res vars' p' :
  has_ignore_comment_for cursor p = true ->
  _test_rule re cursor rule pre suf loc vars p = Ok ((res, vars'), p') ->
  res = Some true /\ quiet p p'.
Proof.
  intros Hc H. unfold _test_rule in H.
  apply bind_inv in H as (p0 & q & Hg & H). inversion Hg. subst p0 q. clear Hg.
  rewrite Hc in H.
  apply bind_inv in H as (a & p1 & Ha & H).
  apply bind_inv in H as (vars1 & p2 & Hv & H).
  apply bind_inv in H as (success & p3 & Hb & H). inversion H. subst. clear H.
  split.
  - rewrite (test_body_comment _ _ _ _ _ _ _ _ _ _ _ _ _ Hb).
    exact (test_affixes_comment _ _ _ _ _ _ _ _ _ _ _ Ha).
  - apply (quiet_trans _ p1); [exact (quiet_test_affixes _ _ _ _ _ _ _ _ _ _ _ Ha)|].
    apply (quiet_trans _ p2); [exact (quiet_parent_vars _ _ _ _ _ _ _ _ Hv)|].
    exact (quiet_test_body _ _ _ _ _ _ _ _ _ _ _ _ _ Hb).
Qed.

Lemma rules_loop_comment re cursor k v pl loc rules : forall pre suf vars p b rules' p',
  has_ignore_comment_for cursor p = true ->
  rules_loop re cursor k v pl loc rules pre suf vars p = Ok ((b, rules'), p') ->
  b = true /\ quiet p p'.
Proof.
  induction rules as [|rule0 rest IH]; intros pre suf vars p b rules' p' Hc H.
  - inversion H. subst. split; [reflexivity | apply quiet_refl].
  - simpl in H. apply bind_inv in H as ([b0 rule] & p1 & H1 & H).
    unfold lift in H1.
    destruct (_rule_applies re cursor rule0 k v pl) as [[b0' rule1]|e]; [|discriminate].
    inversion H1. subst b0' rule1 p1. clear H1. simpl in H.
    destruct b0; simpl in H.
    + destruct (negb (is_None (Rule.rule rule)) || negb (is_None (Rule.allow_rule rule))).
      * apply bind_inv in H as ([res vars'] & p2 & H2 & H). simpl in H.
        apply (test_rule_comment _ _ _ _ _ _ _ _ _ _ _ Hc) in H2 as [-> Hq].
        inversion H. subst. split; [reflexivity | exact Hq].
      * apply bind_inv in H as ([b1 rs1] & p3 & H3 & H). inversion H. subst.
        exact (IH _ _ _ _ _ _ _ Hc H3).
    + apply bind_inv in H as ([b1 rs1] & p3 & H3 & H). inversion H. subst.
      exact (IH _ _ _ _ _ _ _ Hc H3).
Qed.

Lemma grows_has_ignore_comment cursor p p' :
  grows p p' -> has_ignore_comment_for cursor p' = has_ignore_comment_for cursor p.
Proof.
  intros (_ & Ht & _). unfold has_ignore_comment_for.
  specialize (Ht (ignore_key_for cursor)).
  destruct (_ignore_comments p' !! ignore_key_for cursor),
           (_ignore_comments p !! ignore_key_for cursor); try discriminate; reflexivity.
Qed.

Lemma process_node_comment re cursor p b p' :
  has_ignore_comment_for cursor p = true ->
  _process_node re cursor p = Ok (b, p') ->
  b = true /\ quiet p p'.
Proof.
  intros Hc H. unfold _process_node in H.
  destruct (negb (Location.is_from_main_file (Cursor.location cursor))).
  { inversion H. subst. split; [reflexivity | apply quiet_refl]. }
  apply bind_inv in H as ([ck vis] & p1 & H1 & H). simpl in H.
  pose proof (quiet_get_config_kind _ _ _ _ _ H1) as Hq1.
  pose proof (grows_has_ignore_comment cursor _ _ (grows_get_config_kind _ _ _ _ _ H1)) as Hc1.
  rewrite Hc in Hc1.
  destruct ck as [config_kind|].
  - apply bind_inv in H as (p0 & q & Hg & H). inversion Hg. subst p0 q. clear Hg.
    apply bind_inv in H as ([b1 rs1] & p2 & H2 & H).
    apply bind_inv in H as ([] & p3 & H3 & H). inversion H. subst. clear H.
    apply (rules_loop_comment _ _ _ _ _ _ _ _ _ _ _ _ _ _ Hc1) in H2 as [-> Hq2].
    split; [reflexivity|].
    apply (quiet_trans _ p1); [exact Hq1|].
    apply (quiet_trans _ p2); [exact Hq2|].
    exact (quiet_set_rules _ _ _ _ H3).
  - inversion H. subst. split; [reflexivity | exact Hq1].
Qed.

(** X15.  A declaration whose line has a registered ignore comment
    passes, whatever the rules: the evaluation gives [True] whenever it
    returns, leaves the failure flag as it was, and prints nothing that
    reports a failure (warnings about the parent pattern or the linkage
    can still be printed). *)
Theorem ignored_declaration_passes re cursor p b p' :
  has_ignore_comment_for cursor p = true ->
  _process_node re cursor p = Ok (b, p') ->
  b = true
  /\ _has_failures p' = _has_failures p
  /\ exists out, stdout p' = stdout p ++ out
                 /\ Forall (fun d => is_failure d = false) out.
Proof. intros Hc H. exact (process_node_comment _ _ _ _ _ Hc H). Qed.

Lemma ignored_declaration_passes_witness :
  has_ignore_comment_for Examples.Bar (Examples.with_comment false) = true
  /\ true = true
  /\ _has_failures (Examples.with_comment true)
     = _has_failures (Examples.with_comment false)
  /\ exists out, stdout (Examples.with_comment true)
                 = stdout (Examples.with_comment false) ++ out
                 /\ Forall (fun d => is_failure d = false) out.
Proof.
  split; [vm_compute; reflexivity|].
  apply (ignored_declaration_passes Literal.engine Examples.Bar
           (Examples.with_comment false) true (Examples.with_comment true)).
  - vm_compute. reflexivity.
  - vm_compute. reflexivity.
Defined.

(** X16.  The pre-pass and the walk together.  Once the pre-pass has run
    over a token stream that holds an ignore comment, a declaration on
    the line the comment is keyed to passes at whatever point of the
    walk it is reached: the evaluations before it do not take the
    comment away. *)
Theorem commented_line_passes re translation_unit token cursor before p p0 p1 b p2 :
  token ∈ TranslationUnit.tokens translation_unit ->
  is_ignore_comment token ->
  ignore_key_for cursor = comment_key translation_unit token ->
  _process_tokens translation_unit p = Ok (tt, p0) ->
  process_nodes re before p0 = Ok (tt, p1) ->
  _process_node re cursor p1 = Ok (b, p2) ->
  b = true.
Proof.
  intros Hin Hi Hkey Ht Hw Hn.
  pose proof (process_tokens_loop_registers _ _ _ _ _ Hi Hin Ht) as (ic & Hic & _).
  assert (Hc0 : has_ignore_comment_for cursor p0 = true).
  { apply has_ignore_comment_registered. exists ic. rewrite Hkey. exact Hic. }
  rewrite <- (grows_has_ignore_comment cursor _ _ (grows_process_nodes _ _ _ _ _ Hw)) in Hc0.
  exact (proj1 (process_node_comment _ _ _ _ _ Hc0 Hn)).
Qed.

Lemma commented_line_passes_witness :
  exists p2,
    bind (_process_tokens widget_unit)
      (fun _ => bind (process_nodes Literal.engine
                        [Examples.root; Examples.local_var "Foo" Examples.int_t 3 5])
                  (fun _ => _process_node Literal.engine
                              (Examples.local_var "Bar" Examples.int_t 5 5)))
      (new_processor Examples.value_rules)
    = Ok (true, p2).
Proof.
  destruct (bind (_process_tokens widget_unit)
              (fun _ => bind (process_nodes Literal.engine
                                [Examples.root; Examples.local_var "Foo" Examples.int_t 3 5])
                          (fun _ => _process_node Literal.engine
                                      (Examples.local_var "Bar" Examples.int_t 5 5)))
              (new_processor Examples.value_rules)) as [[b p2]|e] eqn:H;
    [|vm_compute in H; discriminate H].
  exists p2. f_equal. f_equal.
  apply bind_inv in H as ([] & p0 & Ht & H).
  apply bind_inv in H as ([] & p1 & Hw & Hn).
  apply (commented_line_passes Literal.engine widget_unit Examples.own_line_comment
           (Examples.local_var "Bar" Examples.int_t 5 5)
           [Examples.root; Examples.local_var "Foo" Examples.int_t 3 5]
           (new_processor Examples.value_rules) p0 p1 b p2).
  - apply (list_elem_of_lookup_2 _ 4). reflexivity.
  - split; [reflexivity|]. eexists. split; vm_compute; reflexivity.
  - vm_compute. reflexivity.
  - exact Ht.
  - exact Hw.
  - exact Hn.
Defined.

(** ** Failures and the verdict of a run *)

Global Instance keeps_flag_refl : Reflexive keeps_flag.
Proof. intros p. split; [reflexivity|]. exists []. rewrite app_nil_r. reflexivity. Qed.

Global Instance keeps_flag_trans : Transitive keeps_flag.
Proof.
  intros p q r (H1 & out1 & H2) (K1 & out2 & K2).
  split; [congruence|]. exists (out1 ++ out2). rewrite K2, H2, app_assoc. reflexivity.
Qed.

Lemma keeps_flag_print d : preserves keeps_flag (print d).
Proof. intros p a p' H. inversion H. split; [reflexivity|]. exists [d]. reflexivity. Qed.

Lemma keeps_flag_set_rules rs : preserves keeps_flag (set_rules rs).
Proof. intros p a p' H. inversion H. exact (keeps_flag_refl p). Qed.

Lemma keeps_flag_set_ignore_comments m : preserves keeps_flag (set_ignore_comments m).
Proof. intros p a p' H. inversion H. exact (keeps_flag_refl p). Qed.

Lemma keeps_flag_set_used key : preserves keeps_flag (set_used key).
Proof. intros p a p' H. inversion H. exact (keeps_flag_refl p). Qed.

#[global] Hint Resolve keeps_flag_refl keeps_flag_trans keeps_flag_print keeps_flag_set_rules
  keeps_flag_set_ignore_comments keeps_flag_set_used : frame.

Lemma keeps_flag_sub_placeholders t vars : preserves keeps_flag (_sub_placeholders t vars).
Proof. unfold _sub_placeholders. repeat frame_step. Qed.
#[global] Hint Resolve keeps_flag_sub_placeholders : frame.

Lemma keeps_flag_join_affixes accessor rules vars :
  preserves keeps_flag (join_affixes accessor rules vars).
Proof.
  induction rules as [|x rules IH]; simpl; [auto with frame|].
  repeat frame_step.
Qed.
#[global] Hint Resolve keeps_flag_join_affixes : frame.

Lemma keeps_flag_test_affix_rules re key has loc name vars rules is_prefix n s :
  preserves keeps_flag (test_affix_rules re key has loc name vars rules is_prefix n s).
Proof. unfold test_affix_rules. repeat frame_step. Qed.

Lemma keeps_flag_parent_vars re cursor rule loc vars :
  preserves keeps_flag (parent_vars re cursor rule loc vars).
Proof. unfold parent_vars. repeat frame_step. Qed.

Lemma keeps_flag_test_body re key has cursor rule loc vars ep es n s :
  preserves keeps_flag (test_body re key has cursor rule loc vars ep es n s).
Proof. unfold test_body. repeat frame_step. Qed.
#[global] Hint Resolve keeps_flag_test_affix_rules keeps_flag_parent_vars
  keeps_flag_test_body : frame.

Lemma keeps_flag_test_affixes re key has cursor rule pre suf loc vars :
  preserves keeps_flag (test_affixes re key has cursor rule pre suf loc vars).
Proof. unfold test_affixes. repeat frame_step. Qed.
#[global] Hint Resolve keeps_flag_test_affixes : frame.

Lemma keeps_flag_test_rule re cursor rule pre suf loc vars :
  preserves keeps_flag (_test_rule re cursor rule pre suf loc vars).
Proof. unfold _test_rule. repeat frame_step. Qed.

Lemma keeps_flag_get_config_kind cursor file :
  preserves keeps_flag (_get_config_kind cursor file).
Proof. unfold _get_config_kind, tag_kind. repeat frame_step. Qed.
#[global] Hint Resolve keeps_flag_test_rule keeps_flag_get_config_kind : frame.

Lemma keeps_flag_rules_loop re cursor k v pl loc rules : forall pre suf vars,
  preserves keeps_flag (rules_loop re cursor k v pl loc rules pre suf vars).
Proof.
  induction rules as [|rule0 rest IH]; intros pre suf vars; simpl; [auto with frame|].
  repeat frame_step.
Qed.
#[global] Hint Resolve keeps_flag_rules_loop : frame.

Lemma keeps_flag_process_node re cursor : preserves keeps_flag (_process_node re cursor).
Proof. unfold _process_node. repeat frame_step. Qed.

Lemma keeps_flag_process_token translation_unit token :
  preserves keeps_flag (process_token translation_unit token).
Proof. unfold process_token. repeat frame_step. Qed.
#[global] Hint Resolve keeps_flag_process_token : frame.

Lemma keeps_flag_process_tokens translation_unit :
  preserves keeps_flag (_process_tokens translation_unit).
Proof.
  unfold _process_tokens.
  induction (TranslationUnit.tokens translation_unit) as [|t rest IH]; simpl;
    [auto with frame|].
  repeat frame_step.
Qed.

Lemma keeps_flag_print_all ds : preserves keeps_flag (print_all ds).
Proof.
  induction ds as [|d rest IH]; simpl; [auto with frame|].
  repeat frame_step.
Qed.

(** A reported failure stays in the output. *)
Lemma failure_reported_then p q r :
  failure_reported p q -> (exists out, stdout r = stdout q ++ out) ->
  failure_reported p r.
Proof.
  intros (out1 & H1 & He) (out2 & H2). exists (out1 ++ out2).
  split; [rewrite H2, H1, app_assoc; reflexivity|].
  apply Exists_app. left. exact He.
Qed.

Lemma failure_reported_after p q r :
  (exists out, stdout q = stdout p ++ out) -> failure_reported q r ->
  failure_reported p r.
Proof.
  intros (out1 & H1) (out2 & H2 & He). exists (out1 ++ out2).
  split; [rewrite H2, H1, app_assoc; reflexivity|].
  apply Exists_app. right. exact He.
Qed.

Lemma failure_reported_print d p : is_failure d = true -> failure_reported p (printed d p).
Proof.
  intros Hd. exists [d]. split; [reflexivity|]. constructor. exact Hd.
Qed.

(** The closure changes [success] only to [False], and prints the
    missing affix when it does. *)
Lemma test_affix_rules_reports re key has loc name vars rules is_prefix n s p r p' :
  test_affix_rules re key has loc name vars rules is_prefix n s p = Ok (r, p') ->
  r.2.2 = s \/ (r.2.2 = Some false /\ failure_reported p p').
Proof.
  unfold test_affix_rules. destruct (Nat.ltb 0 (length rules)).
  - intros H. apply bind_inv in H as (e & p1 & He & H).
    apply keeps_flag_join_affixes in He as [_ He].
    apply bind_inv in H as (m & p2 & Hm & H).
    apply (preserves_lift keeps_flag _ keeps_flag_refl) in Hm as [_ Hm].
    destruct m as [[ms me]|].
    + inversion H. left. reflexivity.
    + destruct has.
      * apply bind_inv in H as ([] & p3 & _ & H). inversion H. left. reflexivity.
      * apply bind_inv in H as ([] & p3 & Hp & H). inversion H. subst. clear H.
        right. split; [reflexivity|]. unfold print in Hp. injection Hp as Hp. rewrite <- Hp.
        apply (failure_reported_after _ p1); [exact He|].
        apply (failure_reported_after _ p2); [exact Hm|].
        apply (failure_reported_print (MissingAffix _ _ _ _ _)). reflexivity.
  - intros H. inversion H. left. reflexivity.
Qed.

Lemma test_affixes_reports re key has cursor rule pre suf loc vars p r p' :
  test_affixes re key has cursor rule pre suf loc vars p = Ok (r, p') ->
  r.2.2 = Some true \/ (r.2.2 = Some false /\ failure_reported p p').
Proof.
  unfold test_affixes. intros H.
  apply bind_inv in H as (r1 & p1 & H1 & H).
  apply bind_inv in H as (r2 & p2 & H2 & H). inversion H. subst. clear H.
  cbn [snd].
  assert (Hr1 : r1.2.2 = Some true \/ (r1.2.2 = Some false /\ failure_reported p p1)).
  { destruct (bool_decide (Rule.prefix rule ≠ Some "")).
    - exact (test_affix_rules_reports _ _ _ _ _ _ _ _ _ _ _ _ _ H1).
    - inversion H1. left. reflexivity. }
  assert (Hg1 : exists out, stdout p1 = stdout p ++ out).
  { destruct (bool_decide (Rule.prefix rule ≠ Some "")).
    - exact (proj2 (keeps_flag_test_affix_rules _ _ _ _ _ _ _ _ _ _ _ _ _ H1)).
    - inversion H1. exact (proj2 (keeps_flag_refl _)). }
  assert (Hg2 : exists out, stdout p' = stdout p1 ++ out).
  { destruct (bool_decide (Rule.suffix rule ≠ Some "")).
    - exact (proj2 (keeps_flag_test_affix_rules _ _ _ _ _ _ _ _ _ _ _ _ _ H2)).
    - inversion H2. exact (proj2 (keeps_flag_refl _)). }
  assert (Hr2 : r2.2.2 = r1.2.2 \/ (r2.2.2 = Some false /\ failure_reported p1 p')).
  { destruct (bool_decide (Rule.suffix rule ≠ Some "")).
    - exact (test_affix_rules_reports _ _ _ _ _ _ _ _ _ _ _ _ _ H2).
    - inversion H2. left. reflexivity. }
  destruct Hr2 as [-> | [-> Hf]].
  - destruct Hr1 as [Hr1 | [Hr1 Hf]]; [left; exact Hr1|].
    right. split; [exact Hr1|]. exact (failure_reported_then _ _ _ Hf Hg2).
  - right. split; [reflexivity|]. exact (failure_reported_after _ _ _ Hg1 Hf).
Qed.

Lemma test_body_reports re key has cursor rule loc vars ep es n s p r p' :
  test_body re key has cursor rule loc vars ep es n s p = Ok (r, p') ->
  r = s \/ r = None \/ (r = Some false /\ failure_reported p p').
Proof.
  unfold test_body. destruct (is_None _); [discriminate|].
  destruct (py_or _ _) as [template|]; [|discriminate].
  intros H. apply bind_inv in H as (regex & p1 & Hs & H).
  apply keeps_flag_sub_placeholders in Hs as [_ Hs].
  apply bind_inv in H as (matched & p2 & Hm & H).
  apply (preserves_lift keeps_flag _ keeps_flag_refl) in Hm as [_ Hm].
  destruct matched; [inversion H; left; reflexivity|].
  destruct has.
  { apply bind_inv in H as ([] & p3 & _ & H). inversion H. left. reflexivity. }
  destruct (negb (is_None (Rule.rule rule))).
  - apply bind_inv in H as ([] & p3 & Hp & H). inversion H. subst. clear H.
    right. right. split; [reflexivity|]. unfold print in Hp. injection Hp as Hp. rewrite <- Hp.
    apply (failure_reported_after _ p1); [exact Hs|].
    apply (failure_reported_after _ p2); [exact Hm|].
    apply (failure_reported_print (FailsRule _ _ _ _ _ _)). reflexivity.
  - destruct (is_None (Rule.allow_rule rule)); [discriminate|].
    inversion H. right. left. reflexivity.
Qed.

Lemma test_rule_reports re cursor rule pre suf loc vars p vars' p' :
  _test_rule re cursor rule pre suf loc vars p = Ok ((Some false, vars'), p') ->
  failure_reported p p'.
Proof.
  intros H. unfold _test_rule in H.
  apply bind_inv in H as (p0 & q & Hg & H). inversion Hg. subst p0 q. clear Hg.
  apply bind_inv in H as (a & p1 & Ha & H).
  apply bind_inv in H as (vars1 & p2 & Hv & H).
  apply bind_inv in H as (success & p3 & Hb & H). inversion H. subst. clear H.
  pose proof (proj2 (keeps_flag_test_affixes _ _ _ _ _ _ _ _ _ _ _ _ Ha)) as Hg1.
  pose proof (proj2 (keeps_flag_parent_vars _ _ _ _ _ _ _ _ Hv)) as Hg2.
  pose proof (proj2 (keeps_flag_test_body _ _ _ _ _ _ _ _ _ _ _ _ _ _ Hb)) as Hg3.
  apply test_affixes_reports in Ha. apply test_body_reports in Hb.
  destruct Hb as [Hb | [Hb | [_ Hf]]].
  - destruct Ha as [Ha | [_ Hf]]; [congruence|].
    apply (failure_reported_then _ p2); [|exact Hg3].
    exact (failure_reported_then _ _ _ Hf Hg2).
  - discriminate Hb.
  - apply (failure_reported_after _ p1); [exact Hg1|].
    exact (failure_reported_after _ _ _ Hg2 Hf).
Qed.

Lemma rules_loop_reports re cursor k v pl loc rules : forall pre suf vars p rules' p',
  rules_loop re cursor k v pl loc rules pre suf vars p = Ok ((false, rules'), p') ->
  failure_reported p p'.
Proof.
  induction rules as [|rule0 rest IH]; intros pre suf vars p rules' p' H.
  - inversion H.
  - simpl in H. apply bind_inv in H as ([b0 rule] & p1 & H1 & H).
    unfold lift in H1.
    destruct (_rule_applies re cursor rule0 k v pl) as [[b0' rule1]|e]; [|discriminate].
    inversion H1. subst b0' rule1 p1. clear H1. simpl in H.
    destruct b0; simpl in H.
    + destruct (negb (is_None (Rule.rule rule)) || negb (is_None (Rule.allow_rule rule))).
      * apply bind_inv in H as ([res vars'] & p2 & H2 & H). simpl in H.
        destruct res as [result|].
        -- inversion H. subst. exact (test_rule_reports _ _ _ _ _ _ _ _ _ _ H2).
        -- apply bind_inv in H as ([b1 rs1] & p3 & H3 & H). inversion H. subst.
           apply (failure_reported_after _ p2);
             [exact (proj2 (keeps_flag_test_rule _ _ _ _ _ _ _ _ _ _ H2))|].
           exact (IH _ _ _ _ _ _ H3).
      * apply bind_inv in H as ([b1 rs1] & p3 & H3 & H). inversion H. subst.
        exact (IH _ _ _ _ _ _ H3).
    + apply bind_inv in H as ([b1 rs1] & p3 & H3 & H). inversion H. subst.
      exact (IH _ _ _ _ _ _ H3).
Qed.

(** A declaration is failed only with a failure printed. *)
Lemma process_node_reports re cursor p p' :
  _process_node re cursor p = Ok (false, p') -> failure_reported p p'.
Proof.
  intros H. unfold _process_node in H.
  destruct (negb (Location.is_from_main_file (Cursor.location cursor)));
    [discriminate|].
  apply bind_inv in H as ([ck vis] & p1 & H1 & H). simpl in H.
  apply keeps_flag_get_config_kind in H1 as [_ H1].
  destruct ck as [config_kind|]; [|discriminate].
  apply bind_inv in H as (p0 & q & Hg & H). inversion Hg. subst p0 q. clear Hg.
  apply bind_inv in H as ([b1 rs1] & p2 & H2 & H).
  apply bind_inv in H as ([] & p3 & H3 & H). inversion H. subst. clear H.
  simpl in H2.
  apply (failure_reported_after _ p1); [exact H1|].
  apply (failure_reported_then _ p2); [exact (rules_loop_reports _ _ _ _ _ _ _ _ _ _ _ _ _ H2)|].
  exact (proj2 (keeps_flag_set_rules _ _ _ _ H3)).
Qed.

Lemma walk_reports re nodes : forall p p',
  process_nodes re nodes p = Ok (tt, p') ->
  _has_failures p' = true ->
  _has_failures p = true \/ failure_reported p p'.
Proof.
  induction nodes as [|c rest IH]; intros p p' H Hflag.
  - inversion H. subst. left. exact Hflag.
  - simpl in H. apply bind_inv in H as (b & p1 & Hn & H).
    apply bind_inv in H as ([] & p2 & Hf & Hrest).
    pose proof (keeps_flag_process_node _ _ _ _ _ Hn) as [Hk1 Hg1].
    destruct b.
    + inversion Hf. subst p2.
      destruct (IH _ _ Hrest Hflag) as [Hp1 | Hfr].
      * left. congruence.
      * right. exact (failure_reported_after _ _ _ Hg1 Hfr).
    + right. apply (failure_reported_then _ p1);
        [exact (process_node_reports _ _ _ _ Hn)|].
      destruct (grows_set_has_failures _ _ _ Hf) as (_ & _ & _ & _ & out1 & Ho1).
      destruct (grows_process_nodes _ _ _ _ _ Hrest) as (_ & _ & _ & _ & out2 & Ho2).
      exists (out1 ++ out2). rewrite Ho2, Ho1, app_assoc. reflexivity.
Qed.

Lemma walk_flag_origin re nodes : forall p p',
  process_nodes re nodes p = Ok (tt, p') ->
  _has_failures p' = true ->
  _has_failures p = true
  \/ exists before c after p1 p2,
       nodes = before ++ c :: after
       /\ process_nodes re before p = Ok (tt, p1)
       /\ _process_node re c p1 = Ok (false, p2).
Proof.
  induction nodes as [|c rest IH]; intros p p' H Hflag.
  - inversion H. subst. left. exact Hflag.
  - pose proof H as Hrun. simpl in H. apply bind_inv in H as (b & p1 & Hn & H).
    apply bind_inv in H as ([] & p2 & Hf & Hrest).
    destruct b.
    + inversion Hf. subst p2.
      destruct (IH _ _ Hrest Hflag) as [Hp1 | (before & c' & after & q1 & q2 & -> & Hb & Hc)].
      * left. destruct (keeps_flag_process_node _ _ _ _ _ Hn) as [Hk _]. congruence.
      * right. exists (c :: before), c', after, q1, q2.
        split; [reflexivity|]. split; [|exact Hc].
        simpl. unfold bind at 1. rewrite Hn. exact Hb.
    + right. exists [], c, rest, p, p1. repeat split. exact Hn.
Qed.

Lemma walk_flag_set re before c after p p1 p2 p' :
  process_nodes re (before ++ c :: after) p = Ok (tt, p') ->
  process_nodes re before p = Ok (tt, p1) ->
  _process_node re c p1 = Ok (false, p2) ->
  _has_failures p' = true.
Proof.
  intros H Hb Hc. rewrite process_nodes_app in H. unfold bind at 1 in H.
  rewrite Hb in H. simpl in H. unfold bind at 1 in H. rewrite Hc in H.
  apply bind_inv in H as ([] & p3 & Hf & Hrest). inversion Hf. subst p3.
  destruct (grows_process_nodes _ _ _ _ _ Hrest) as (_ & _ & _ & Hk & _).
  apply Hk. reflexivity.
Qed.

Lemma print_all_run ds : forall p p',
  print_all ds p = Ok (tt, p') ->
  p' = {| _rule_set := _rule_set p;
          _ignore_comments := _ignore_comments p;
          _has_failures := _has_failures p;
          stdout := stdout p ++ ds |}.
Proof.
  induction ds as [|d ds IH]; intros p p' H.
  - inversion H. subst. rewrite app_nil_r. destruct p'. reflexivity.
  - simpl in H. apply bind_inv in H as ([] & p2 & Hd & H).
    unfold print in Hd. injection Hd as Hd. subst p2.
    rewrite (IH _ _ H). cbn [_rule_set _ignore_comments _has_failures stdout].
    rewrite <- app_assoc. reflexivity.
Qed.

Lemma process_inv re translation_unit p b p' :
  process re translation_unit p = Ok (b, p') ->
  exists p0 p1,
    _process_tokens translation_unit p = Ok (tt, p0)
    /\ process_nodes re (visits (TranslationUnit.cursor translation_unit)) p0 = Ok (tt, p1)
    /\ b = negb (_has_failures p1)
    /\ p' = {| _rule_set := _rule_set p1;
               _ignore_comments := _ignore_comments p1;
               _has_failures := _has_failures p1;
               stdout := stdout p1
                         ++ (unused_warning <$>
                               filter (fun ic => used ic = false)
                                 ((map_to_list (_ignore_comments p1)).*2)) |}.
Proof.
  intros H. unfold process in H.
  apply bind_inv in H as ([] & p0 & Ht & H).
  apply bind_inv in H as ([] & p1 & Hw & H).
  apply bind_inv in H as (q & q' & Hg & H). inversion Hg. subst q q'. clear Hg.
  apply bind_inv in H as ([] & p2 & Hp & H). inversion H. subst. clear H.
  rewrite process_visits in Hw.
  exists p0, p1. split; [exact Ht|]. split; [exact Hw|]. split; [reflexivity|].
  exact (print_all_run _ _ _ Hp).
Qed.

(** X17.  A run that fails says why.  When [process] starts with the
    failure flag clear and returns [False], its output holds a line that
    reports a failure: a missing affix or a name that fails its rule. *)
Theorem failing_run_reports re translation_unit p p' :
  _has_failures p = false ->
  process re translation_unit p = Ok (false, p') ->
  exists out, stdout p' = stdout p ++ out
              /\ Exists (fun d => is_failure d = true) out.
Proof.
  intros H0 H. apply process_inv in H as (p0 & p1 & Ht & Hw & Hb & ->).
  destruct (keeps_flag_process_tokens _ _ _ _ Ht) as [Hk0 Hg0].
  assert (Hflag : _has_failures p1 = true) by (destruct (_has_failures p1); [reflexivity | discriminate]).
  destruct (walk_reports _ _ _ _ Hw Hflag) as [Hp0 | Hfr]; [congruence|].
  apply (failure_reported_after _ p0); [exact Hg0|].
  apply (failure_reported_then _ p1); [exact Hfr|].
  eexists. reflexivity.
Qed.

Example widget_run :
  exists p',
    process Literal.engine widget_unit (new_processor Examples.value_rules) = Ok (false, p')
    /\ stdout p' = [baz_fails; IgnoreCommentNotUsed "src/widget.c" 8 12].
Proof. eexists. split; vm_compute; reflexivity. Qed.

Lemma failing_run_reports_witness :
  exists p',
    process Literal.engine widget_unit (new_processor Examples.value_rules) = Ok (false, p')
    /\ exists out, stdout p' = stdout (new_processor Examples.value_rules) ++ out
                   /\ Exists (fun d => is_failure d = true) out.
Proof.
  destruct widget_run as (p' & H & _). exists p'. split; [exact H|].
  exact (failing_run_reports Literal.engine widget_unit
           (new_processor Examples.value_rules) p' eq_refl H).
Defined.

(** X18.  The verdict of a run.  Started with the failure flag clear,
    [process] returns [False] exactly when the evaluation of one of the
    declarations the walk visits, made in the state the pre-pass and
    the declarations before it left, returned [False].  The walk goes
    on after a failure, and the warnings about unused comments have no
    part in the verdict. *)
Theorem verdict_of_run re translation_unit p b p' :
  _has_failures p = false ->
  process re translation_unit p = Ok (b, p') ->
  b = false
  <-> exists before c after p0 p1 p2,
        _process_tokens translation_unit p = Ok (tt, p0)
        /\ visits (TranslationUnit.cursor translation_unit) = before ++ c :: after
        /\ process_nodes re before p0 = Ok (tt, p1)
        /\ _process_node re c p1 = Ok (false, p2).
Proof.
  intros H0 H. apply process_inv in H as (p0 & p1 & Ht & Hw & -> & _).
  destruct (keeps_flag_process_tokens _ _ _ _ Ht) as [Hk0 _].
  split.
  - intros Hb.
    assert (Hflag : _has_failures p1 = true)
      by (destruct (_has_failures p1); [reflexivity | discriminate]).
    destruct (walk_flag_origin _ _ _ _ Hw Hflag)
      as [Hp0 | (before & c & after & q1 & q2 & Hv & Hb' & Hc)]; [congruence|].
    exists before, c, after, p0, q1, q2. repeat split; assumption.
  - intros (before & c & after & p0' & q1 & q2 & Ht' & Hv & Hb' & Hc).
    rewrite Ht in Ht'. inversion Ht'. subst p0'.
    rewrite Hv in Hw. rewrite (walk_flag_set _ _ _ _ _ _ _ _ Hw Hb' Hc). reflexivity.
Qed.

Lemma verdict_of_run_witness :
  exists p',
    process Literal.engine widget_unit (new_processor Examples.value_rules) = Ok (false, p')
    /\ (false = false
        <-> exists before c after p0 p1 p2,
              _process_tokens widget_unit (new_processor Examples.value_rules) = Ok (tt, p0)
              /\ visits (TranslationUnit.cursor widget_unit) = before ++ c :: after
              /\ process_nodes Literal.engine before p0 = Ok (tt, p1)
              /\ _process_node Literal.engine c p1 = Ok (false, p2)).
Proof.
  destruct widget_run as (p' & H & _). exists p'. split; [exact H|].
  exact (verdict_of_run Literal.engine widget_unit
           (new_processor Examples.value_rules) false p' eq_refl H).
Defined.

(** ** What an evaluation can raise *)

Lemma bind_raise_inv {A B} (m : M A) (k : A -> M B) p e :
  bind m k p = Raise e ->
  m p = Raise e \/ exists a p', m p = Ok (a, p') /\ k a p' = Raise e.
Proof.
  unfold bind. destruct (m p) as [[a p']|e'].
  - intros H. right. exists a, p'. split; [reflexivity | exact H].
  - intros H. left. inversion H. reflexivity.
Qed.

Lemma raises_in_ret {A} E (a : A) : raises_in E (ret a).
Proof. intros p e H. discriminate H. Qed.

Lemma raises_in_get E : raises_in E get.
Proof. intros p e H. discriminate H. Qed.

Lemma raises_in_print E d : raises_in E (print d).
Proof. intros p e H. discriminate H. Qed.

Lemma raises_in_set_used E key : raises_in E (set_used key).
Proof. intros p e H. discriminate H. Qed.

Lemma raises_in_raise {A} (E : PyExn -> Prop) e : E e -> raises_in E (@raise A e).
Proof. intros He p e' H. inversion H. subst. exact He. Qed.

Lemma raises_in_bind {A B} E (m : M A) (k : A -> M B) :
  raises_in E m -> (forall a, raises_in E (k a)) -> raises_in E (bind m k).
Proof.
  intros Hm Hk p e H. apply bind_raise_inv in H as [H | (a & p' & _ & H)].
  - exact (Hm _ _ H).
  - exact (Hk _ _ _ H).
Qed.

Lemma raises_in_bind_lift {A B} E (r : Res A) (k : A -> M B) :
  (forall e, r = Raise e -> E e) -> (forall a, r = Ok a -> raises_in E (k a)) ->
  raises_in E (bind (lift r) k).
Proof.
  intros Hr Hk p e H. unfold bind, lift in H. destruct r as [a|e'].
  - exact (Hk a eq_refl _ _ H).
  - inversion H. subst. apply Hr. reflexivity.
Qed.

Lemma raises_in_weaken {A} (E E' : PyExn -> Prop) (m : M A) :
  (forall e, E e -> E' e) -> raises_in E m -> raises_in E' m.
Proof. intros HE Hm p e H. apply HE. exact (Hm _ _ H). Qed.

Ltac raise_step :=
  match goal with
  | |- raises_in _ (bind (lift _) _) => apply raises_in_bind_lift; [intros ? ? | intros ? ?]
  | |- raises_in _ (bind _ _) => apply raises_in_bind; [ | intros ?]
  | |- raises_in _ (ret _) => apply raises_in_ret
  | |- raises_in _ get => apply raises_in_get
  | |- raises_in _ (print _) => apply raises_in_print
  | |- raises_in _ (set_used _) => apply raises_in_set_used
  | |- raises_in _ (if ?b then _ else _) => destruct b eqn:?
  | |- raises_in _ (match ?x with _ => _ end) => destruct x eqn:?
  end.

Lemma raises_in_sub_placeholders E t vars : raises_in E (_sub_placeholders t vars).
Proof. unfold _sub_placeholders. repeat raise_step. Qed.

(** The affix of every accumulated rule is a string: the generator under
    [join] never meets [None]. *)
Lemma raises_in_join_affixes E (accessor : Rule -> option string) rules vars :
  Forall (fun r => accessor r <> None) rules ->
  raises_in E (join_affixes accessor rules vars).
Proof.
  induction 1 as [|x rules Hx _ IH]; simpl; [apply raises_in_ret|].
  destruct (accessor x); [|contradiction].
  apply raises_in_bind; [apply raises_in_sub_placeholders|]. intros a.
  apply raises_in_bind; [exact IH|]. intros b. apply raises_in_ret.
Qed.

Lemma raises_in_test_affix_rules re key has loc name vars (rules : list Rule)
    (is_prefix : bool) n s :
  raises_re_error_only re ->
  Forall (fun r => (if is_prefix then Rule.prefix r else Rule.suffix r) <> None) rules ->
  raises_in (fun e => e = ReError)
    (test_affix_rules re key has loc name vars rules is_prefix n s).
Proof.
  intros (_ & Hs & _) Hr. unfold test_affix_rules.
  destruct (Nat.ltb 0 (length rules)); [|apply raises_in_ret].
  apply raises_in_bind.
  { apply raises_in_join_affixes. destruct is_prefix; exact Hr. }
  intros expanded.
  apply raises_in_bind_lift; [intros e He; exact (Hs _ _ _ He)|]. intros m _.
  repeat raise_step.
Qed.

Lemma raises_in_test_affixes re key has cursor rule pre suf loc vars :
  raises_re_error_only re ->
  Forall (fun r => Rule.prefix r <> None) pre ->
  Forall (fun r => Rule.suffix r <> None) suf ->
  raises_in (fun e => e = ReError)
    (test_affixes re key has cursor rule pre suf loc vars).
Proof.
  intros Hre Hp Hs. unfold test_affixes.
  apply raises_in_bind.
  { destruct (bool_decide _); [|apply raises_in_ret].
    apply raises_in_test_affix_rules; assumption. }
  intros r1. apply raises_in_bind; [|intros r2; apply raises_in_ret].
  destruct (bool_decide _); [|apply raises_in_ret].
  apply raises_in_test_affix_rules; assumption.
Qed.

Lemma raises_in_parent_vars re cursor rule loc vars :
  raises_re_error_only re ->
  raises_in (test_rule_errors cursor rule) (parent_vars re cursor rule loc vars).
Proof.
  intros (_ & _ & Hg). unfold parent_vars.
  destruct (bool_decide (Cursor.kind cursor = ENUM_CONSTANT_DECL)) eqn:Hk;
    [|apply raises_in_ret].
  apply bool_decide_eq_true_1 in Hk.
  destruct (Rule.parent_match rule) as [parent_match|] eqn:Hpm.
  - assert (Hne : Some parent_match <> None) by discriminate.
    apply raises_in_bind.
    + destruct (Parent.is_anonymous (Cursor.semantic_parent cursor)) eqn:Ha.
      * apply raises_in_raise. right. left. split; [reflexivity|]. left.
        split; [exact Hk|]. split; [congruence | exact Ha].
      * apply raises_in_bind_lift; [intros e He; left; exact (Hg _ _ _ He)|].
        intros m _. repeat raise_step.
    + intros [pn|]; [apply raises_in_ret|].
      apply raises_in_raise. right. right.
      split; [reflexivity|]. split; [exact Hk | congruence].
  - intros p e H. cbv [bind ret] in H. discriminate H.
Qed.

Lemma raises_in_test_body re key has cursor rule loc vars ep es n s :
  raises_re_error_only re ->
  raises_in (test_rule_errors cursor rule)
    (test_body re key has cursor rule loc vars ep es n s).
Proof.
  intros (Hf & _ & _). unfold test_body.
  destruct (is_None (py_or (Rule.rule rule) (Rule.allow_rule rule))) eqn:Hn.
  { apply raises_in_raise. right. left. split; [reflexivity|]. right.
    unfold py_or in Hn. destruct (truthy (Rule.rule rule)) eqn:Ht.
    - destruct (Rule.rule rule); discriminate.
    - split; [reflexivity|]. destruct (Rule.allow_rule rule); [discriminate | reflexivity]. }
  destruct (py_or (py_or (Rule.rule rule) (Rule.allow_rule rule)) (Rule.allow_rule rule))
    as [template|] eqn:Ht.
  - apply raises_in_bind; [apply raises_in_sub_placeholders|]. intros regex.
    apply raises_in_bind_lift; [intros e He; left; exact (Hf _ _ _ He)|].
    intros matched _.
    destruct matched; [apply raises_in_ret|].
    destruct has; [repeat raise_step|].
    destruct (negb (is_None (Rule.rule rule))) eqn:Hr; [repeat raise_step|].
    destruct (is_None (Rule.allow_rule rule)) eqn:Ha; [|apply raises_in_ret].
    exfalso. destruct (Rule.rule rule); [discriminate Hr|].
    destruct (Rule.allow_rule rule); [discriminate Ha|]. discriminate Hn.
  - exfalso. destruct (py_or (Rule.rule rule) (Rule.allow_rule rule)) as [t|] eqn:Hi;
      [|discriminate Hn].
    unfold py_or in Ht. destruct (truthy (Some t)) eqn:Htt; [discriminate Ht|].
    unfold py_or in Hi. rewrite Ht in Hi.
    destruct (truthy (Rule.rule rule)) eqn:Htr; [|discriminate Hi].
    rewrite Hi in Htr. congruence.
Qed.

Lemma raises_in_test_rule re cursor rule pre suf loc vars :
  raises_re_error_only re ->
  Forall (fun r => Rule.prefix r <> None) pre ->
  Forall (fun r => Rule.suffix r <> None) suf ->
  raises_in (test_rule_errors cursor rule) (_test_rule re cursor rule pre suf loc vars).
Proof.
  intros Hre Hp Hs. unfold _test_rule.
  apply raises_in_bind; [apply raises_in_get|]. intros p0.
  apply raises_in_bind.
  { apply (raises_in_weaken (fun e => e = ReError)); [intros e He; left; exact He|].
    apply raises_in_test_affixes; assumption. }
  intros a. apply raises_in_bind; [apply raises_in_parent_vars; exact Hre|].
  intros vars'. apply raises_in_bind; [apply raises_in_test_body; exact Hre|].
  intros success. apply raises_in_ret.
Qed.

Lemma any_fullmatch_raises re types spelling e :
  raises_re_error_only re ->
  any_fullmatch re types spelling = Raise e -> e = ReError.
Proof.
  intros (Hf & _ & _). induction types as [|x rest IH]; simpl; [discriminate|].
  destruct (fullmatch re x spelling) as [[|]|e'] eqn:Hx.
  - discriminate.
  - exact IH.
  - intros H. inversion H. subst. exact (Hf _ _ _ Hx).
Qed.

Lemma rule_applies_raises re cursor rule k v pl e :
  raises_re_error_only re ->
  _rule_applies re cursor rule k v pl = Raise e -> e = ReError.
Proof.
  intros Hre. unfold _rule_applies.
  destruct (match Rule.kinds _ with Some _ => _ | None => _ end); [discriminate|].
  destruct (match pl with Some _ => _ | None => _ end); [discriminate|].
  destruct (Rule.types _) as [types|]; cbn [Rule.types].
  - destruct (any_fullmatch re types _) as [[|]|e'] eqn:Ha.
    + destruct (match v with Some _ => _ | None => _ end); [discriminate|].
      destruct (_ && _); discriminate.
    + discriminate.
    + intros H. inversion H. subst. exact (any_fullmatch_raises _ _ _ _ Hre Ha).
  - destruct (match v with Some _ => _ | None => _ end); [discriminate|].
    destruct (_ && _); discriminate.
Qed.

(** A rule with [parent_match] does not apply to the constants of an
    anonymous enum: the assertion on the parent cannot fail. *)
Lemma rule_applies_parent re cursor rule k v pl rule' :
  _rule_applies re cursor rule k v pl = Ok (true, rule') ->
  ~ (Cursor.kind cursor = ENUM_CONSTANT_DECL /\ Rule.parent_match rule' <> None
     /\ Parent.is_anonymous (Cursor.semantic_parent cursor) = true).
Proof.
  intros H (Hk & Hpm & Ha).
  pose proof (rule_applies_kinds _ _ _ _ _ _ _ _ H) as Hr.
  assert (Hpm' : Rule.parent_match
                   (Rule.set_kinds rule (expand_kinds <$> Rule.kinds rule)) <> None)
    by (rewrite <- Hr; exact Hpm).
  revert H. unfold _rule_applies.
  destruct (match Rule.kinds _ with Some _ => _ | None => _ end); [discriminate|].
  destruct (match pl with Some _ => _ | None => _ end); [discriminate|].
  destruct (match Rule.types _ with Some _ => _ | None => _ end) as [[|]|e'];
    [|discriminate|discriminate].
  destruct (match v with Some _ => _ | None => _ end); [discriminate|].
  rewrite Ha, (bool_decide_eq_true_2 _ Hk).
  destruct (Rule.parent_match (Rule.set_kinds rule (expand_kinds <$> Rule.kinds rule)))
    eqn:E; [|intros _; exact (Hpm' eq_refl)].
  intros H. cbv [negb is_None andb] in H. discriminate H.
Qed.

Lemma node_errors_cons cursor rule rules e :
  node_errors cursor rules e -> node_errors cursor (rule :: rules) e.
Proof.
  intros [H | [[H1 H2] | (H1 & H2 & H3)]].
  - left. exact H.
  - right. left. split; [exact H1 | apply Exists_cons_tl; exact H2].
  - right. right. split; [exact H1|]. split; [exact H2 | apply Exists_cons_tl; exact H3].
Qed.

Lemma accumulate_strings (accessor : Rule -> option string) rule affix_rules :
  Forall (fun r => accessor r <> None) affix_rules ->
  Forall (fun r => accessor r <> None) (accumulate (accessor rule) rule affix_rules).
Proof.
  intros H. unfold accumulate. destruct (truthy (accessor rule)) eqn:Ht; [|exact H].
  apply Forall_app. split; [exact H|]. constructor; [|constructor].
  destruct (accessor rule); [discriminate | discriminate Ht].
Qed.

Lemma raises_in_rules_loop re cursor k v pl loc :
  raises_re_error_only re ->
  forall rules pre suf vars,
    Forall (fun r => Rule.prefix r <> None) pre ->
    Forall (fun r => Rule.suffix r <> None) suf ->
    raises_in (node_errors cursor rules)
      (rules_loop re cursor k v pl loc rules pre suf vars).
Proof.
  intros Hre. induction rules as [|rule0 rest IH]; intros pre suf vars Hp Hs.
  - apply raises_in_ret.
  - assert (Hrest : forall pre' suf' vars',
               Forall (fun r => Rule.prefix r <> None) pre' ->
               Forall (fun r => Rule.suffix r <> None) suf' ->
               raises_in (node_errors cursor (rule0 :: rest))
                 (r <- rules_loop re cursor k v pl loc rest pre' suf' vars' ;;
                  ret (r.1, Rule.set_kinds rule0 (expand_kinds <$> Rule.kinds rule0) :: r.2))).
    { intros pre' suf' vars' Hp' Hs'. apply raises_in_bind; [|intros r; apply raises_in_ret].
      apply (raises_in_weaken (node_errors cursor rest)); [apply node_errors_cons|].
      apply IH; assumption. }
    simpl. apply raises_in_bind_lift.
    { intros e He. left. exact (rule_applies_raises _ _ _ _ _ _ _ Hre He). }
    intros [b0 rule] Ha. pose proof (rule_applies_kinds _ _ _ _ _ _ _ _ Ha) as Hk.
    subst rule. cbn [fst snd].
    set (rule := Rule.set_kinds rule0 (expand_kinds <$> Rule.kinds rule0)) in *.
    destruct b0; cbn [negb]; [|apply Hrest; assumption].
    pose proof (accumulate_strings Rule.prefix rule pre Hp) as Hp'.
    pose proof (accumulate_strings Rule.suffix rule suf Hs) as Hs'.
    destruct (negb (is_None (Rule.rule rule)) || negb (is_None (Rule.allow_rule rule)))
      eqn:Hbody; [|apply Hrest; assumption].
    apply raises_in_bind.
    + apply (raises_in_weaken (test_rule_errors cursor rule));
        [|apply raises_in_test_rule; assumption].
      intros e [He | [[He [Hpar | [Ht Hal]]] | (He & Hkind & Hpm)]].
      * left. exact He.
      * exfalso. exact (rule_applies_parent _ _ _ _ _ _ _ Ha Hpar).
      * right. left. split; [exact He|]. apply Exists_cons_hd.
        unfold empty_required_rule.
        change (Rule.rule rule0) with (Rule.rule rule).
        change (Rule.allow_rule rule0) with (Rule.allow_rule rule).
        split; [|exact Hal]. rewrite Hal in Hbody.
        destruct (Rule.rule rule) as [s|]; [|discriminate Hbody].
        simpl in Ht. apply negb_false_iff, String.eqb_eq in Ht. rewrite Ht. reflexivity.
      * right. right. split; [exact He|]. split; [exact Hkind|].
        apply Exists_cons_hd. exact Hpm.
    + intros t. destruct (t.1); [apply raises_in_ret|]. apply Hrest; assumption.
Qed.

Lemma process_node_errors re cursor p e :
  raises_re_error_only re ->
  _process_node re cursor p = Raise e ->
  node_errors cursor (RuleSet.rules (_rule_set p)) e.
Proof.
  intros Hre H. unfold _process_node in H.
  destruct (negb (Location.is_from_main_file (Cursor.location cursor)));
    [discriminate|].
  apply bind_raise_inv in H as [H | ([ck vis] & p1 & H1 & H)].
  { destruct (get_config_kind_cases cursor p) as [Hc | (_ & l & s & Hc)];
      rewrite Hc in H; discriminate H. }
  pose proof (same_rule_set_get_config_kind _ _ _ _ _ H1) as Hrs.
  unfold same_rule_set in Hrs. rewrite <- Hrs. cbn [fst snd] in H.
  destruct ck as [config_kind|]; [|discriminate H].
  apply bind_raise_inv in H as [H | (p0 & q & Hg & H)]; [discriminate H|].
  inversion Hg. subst p0 q. clear Hg.
  apply bind_raise_inv in H as [H | (r & p2 & _ & H)].
  - refine (raises_in_rules_loop _ _ _ _ _ _ Hre _ [] [] _ _ _ _ _ H); constructor.
  - cbv [bind set_rules ret] in H. discriminate H.
Qed.

(** X19.  What the evaluation of a declaration can raise, when the
    regular-expression engine raises nothing but [re.error].  An
    [AssertionError] comes from a rule whose [rule] field is the empty
    string, without an [allow-rule]: the assertion on the anonymous
    parent and the one on [allow_rule] cannot fail, nor can the lookup
    of the kind of an unnamed tag.  A [TypeError] comes from a rule
    with [parent_match] at an enum constant (a [name] group that took
    no part in the match): the affixes that are joined are never
    [None]. *)
Theorem evaluation_errors re cursor p e :
  raises_re_error_only re ->
  _process_node re cursor p = Raise e ->
  e = ReError
  \/ (e = AssertionError
      /\ Exists empty_required_rule (RuleSet.rules (_rule_set p)))
  \/ (e = TypeError /\ Cursor.kind cursor = ENUM_CONSTANT_DECL
      /\ Exists (fun r => Rule.parent_match r <> None) (RuleSet.rules (_rule_set p))).
Proof. intros Hre H. exact (process_node_errors _ _ _ _ Hre H). Qed.

Lemma literal_engine_errors : raises_re_error_only Literal.engine.
Proof.
  split; [|split]; intros pattern s e; simpl.
  - unfold Literal.lit_fullmatch. destruct (Literal.is_literal pattern); [discriminate|].
    intros H. inversion H. reflexivity.
  - unfold Literal.lit_search.
    repeat match goal with
           | |- context [match ?x with _ => _ end] => destruct x
           end; try discriminate; intros H; inversion H; reflexivity.
  - unfold Literal.lit_fullmatch_group. destruct (Literal.is_literal pattern); [discriminate|].
    intros H. inversion H. reflexivity.
Qed.

Example empty_rule_run :
  _process_node Literal.engine Examples.foo (new_processor (RuleSet.mk [empty_rule] ∅))
  = Raise AssertionError.
Proof. vm_compute. reflexivity. Qed.

Lemma evaluation_errors_witness :
  AssertionError = ReError
  \/ (AssertionError = AssertionError
      /\ Exists empty_required_rule
           (RuleSet.rules (_rule_set (new_processor (RuleSet.mk [empty_rule] ∅)))))
  \/ (AssertionError = TypeError /\ Cursor.kind Examples.foo = ENUM_CONSTANT_DECL
      /\ Exists (fun r => Rule.parent_match r <> None)
           (RuleSet.rules (_rule_set (new_processor (RuleSet.mk [empty_rule] ∅))))).
Proof.
  exact (evaluation_errors Literal.engine Examples.foo
           (new_processor (RuleSet.mk [empty_rule] ∅)) AssertionError
           literal_engine_errors empty_rule_run).
Defined.

(** X20.  An empty [rule].  A section whose [rule] field is the empty
    string, without [allow-rule], is loaded as a rule; the test of a
    declaration under that rule never returns, and ends in the
    [AssertionError] on [rule_text] when no affix has been accumulated
    and the declaration is not an enum constant. *)
Theorem empty_rule_aborts name (section : gmap string string) pointer
        re cursor pre suf loc vars p :
  section !! "rule" = Some "" ->
  section !! "allow-rule" = None ->
  RuleSet.get_pointer section = Ok pointer ->
  exists rule,
    RuleSet.load_rule name section = Ok rule
    /\ (exists e, _test_rule re cursor rule pre suf loc vars p = Raise e)
    /\ (Cursor.kind cursor <> ENUM_CONSTANT_DECL ->
        _test_rule re cursor rule [] [] loc vars p = Raise AssertionError).
Proof.
  intros Hr Ha Hp. unfold RuleSet.load_rule. rewrite Hp, Hr, Ha.
  eexists. split; [reflexivity|]. split.
  - destruct (_test_rule re cursor _ pre suf loc vars p) as [[r p']|e] eqn:H;
      [exfalso | exists e; reflexivity].
    unfold _test_rule in H.
    apply bind_inv in H as (p0 & q & _ & H).
    apply bind_inv in H as (a & p1 & _ & H).
    apply bind_inv in H as (vars1 & p2 & _ & H).
    apply bind_inv in H as (success & p3 & Hb & _).
    discriminate Hb.
  - intros Hk. unfold _test_rule, test_affixes, test_affix_rules, parent_vars, test_body.
    rewrite (bool_decide_eq_false_2 _ Hk).
    cbn [Rule.prefix Rule.suffix Rule.rule Rule.allow_rule length Nat.ltb Nat.leb].
    destruct (bool_decide (section !! "prefix" ≠ Some ""));
      destruct (bool_decide (section !! "suffix" ≠ Some "")); reflexivity.
Qed.

Lemma empty_rule_aborts_witness :
  exists rule,
    RuleSet.load_rule "empty" (<["kind" := "variable"]> (<["rule" := ""]> ∅)) = Ok rule
    /\ (exists e, _test_rule Literal.engine Examples.foo rule [Examples.t_prefix] []
                    "src/widget.c:7:5" (Examples.vars_of Examples.foo)
                    (new_processor (RuleSet.mk [] ∅)) = Raise e)
    /\ (Cursor.kind Examples.foo <> ENUM_CONSTANT_DECL ->
        _test_rule Literal.engine Examples.foo rule [] []
          "src/widget.c:7:5" (Examples.vars_of Examples.foo)
          (new_processor (RuleSet.mk [] ∅)) = Raise AssertionError).
Proof.
  apply (empty_rule_aborts "empty" (<["kind" := "variable"]> (<["rule" := ""]> ∅)) None).
  - vm_compute. reflexivity.
  - vm_compute. reflexivity.
  - vm_compute. reflexivity.
Defined.

(** ** The comments the run reports as unused *)

Global Instance keeps_entry_refl key : Reflexive (keeps_entry key).
Proof. intros p. reflexivity. Qed.

Global Instance keeps_entry_trans key : Transitive (keeps_entry key).
Proof. intros p q r H1 H2. unfold keeps_entry in *. congruence. Qed.

Lemma keeps_entry_print key d : preserves (keeps_entry key) (print d).
Proof. intros p a p' H. inversion H. reflexivity. Qed.

Lemma keeps_entry_set_rules key rs : preserves (keeps_entry key) (set_rules rs).
Proof. intros p a p' H. inversion H. reflexivity. Qed.

Lemma keeps_entry_set_has_failures key : preserves (keeps_entry key) set_has_failures.
Proof. intros p a p' H. inversion H. reflexivity. Qed.

Lemma keeps_entry_set_used key k : k <> key -> preserves (keeps_entry key) (set_used k).
Proof.
  intros Hne p a p' H. inversion H. unfold keeps_entry.
  cbn [_ignore_comments]. apply lookup_alter_ne. exact Hne.
Qed.

#[global] Hint Resolve keeps_entry_refl keeps_entry_trans keeps_entry_print
  keeps_entry_set_rules keeps_entry_set_has_failures keeps_entry_set_used : frame.

Lemma keeps_entry_sub_placeholders key t vars :
  preserves (keeps_entry key) (_sub_placeholders t vars).
Proof. unfold _sub_placeholders. repeat frame_step. Qed.
#[global] Hint Resolve keeps_entry_sub_placeholders : frame.

Lemma keeps_entry_join_affixes key accessor rules vars :
  preserves (keeps_entry key) (join_affixes accessor rules vars).
Proof.
  induction rules as [|x rules IH]; simpl; [auto with frame|].
  repeat frame_step.
Qed.
#[global] Hint Resolve keeps_entry_join_affixes : frame.

Lemma keeps_entry_test_rule key re cursor rule pre suf loc vars :
  ignore_key_for cursor <> key ->
  preserves (keeps_entry key) (_test_rule re cursor rule pre suf loc vars).
Proof.
  intros Hne.
  unfold _test_rule, test_affixes, test_affix_rules, parent_vars, test_body.
  repeat frame_step.
Qed.

Lemma keeps_entry_get_config_kind key cursor file :
  preserves (keeps_entry key) (_get_config_kind cursor file).
Proof. unfold _get_config_kind, tag_kind. repeat frame_step. Qed.
#[global] Hint Resolve keeps_entry_test_rule keeps_entry_get_config_kind : frame.

Lemma keeps_entry_rules_loop key re cursor k v pl loc rules :
  ignore_key_for cursor <> key ->
  forall pre suf vars,
    preserves (keeps_entry key) (rules_loop re cursor k v pl loc rules pre suf vars).
Proof.
  intros Hne.
  induction rules as [|rule0 rest IH]; intros pre suf vars; simpl; [auto with frame|].
  repeat frame_step.
Qed.
#[global] Hint Resolve keeps_entry_rules_loop : frame.

(** The evaluation of a declaration touches the comment of its own line
    and no other. *)
Lemma keeps_entry_process_node key re cursor :
  ignore_key_for cursor <> key ->
  preserves (keeps_entry key) (_process_node re cursor).
Proof. intros Hne. unfold _process_node. repeat frame_step. Qed.

Lemma keeps_entry_process_nodes key re nodes :
  Forall (fun c => ignore_key_for c <> key) nodes ->
  preserves (keeps_entry key) (process_nodes re nodes).
Proof.
  induction 1 as [|c rest Hc _ IH]; simpl; [auto with frame|].
  pose proof (keeps_entry_process_node key re c Hc).
  repeat frame_step.
Qed.

(** X21.  An ignore comment that no declaration can use.  When no
    declaration the walk visits lies on the line an ignore comment of
    the token stream is keyed to, the run ends with an unused comment
    under that key and its warning is in the output. *)
Theorem unvisited_comment_reported re translation_unit token p b p' :
  token ∈ TranslationUnit.tokens translation_unit ->
  is_ignore_comment token ->
  Forall (fun c => ignore_key_for c <> comment_key translation_unit token)
         (visits (TranslationUnit.cursor translation_unit)) ->
  process re translation_unit p = Ok (b, p') ->
  exists ic,
    _ignore_comments p' !! comment_key translation_unit token = Some ic
    /\ used ic = false
    /\ unused_warning ic ∈ stdout p'.
Proof.
  intros Hin Hi Hv H. apply process_inv in H as (p0 & p1 & Ht & Hw & _ & ->).
  destruct (process_tokens_loop_registers _ _ _ _ _ Hi Hin Ht) as (ic & Hic & Hu).
  pose proof (keeps_entry_process_nodes _ _ _ Hv _ _ _ Hw) as Hk.
  unfold keeps_entry in Hk. rewrite Hic in Hk.
  exists ic. cbn [_ignore_comments stdout]. split; [exact Hk|]. split; [exact Hu|].
  apply elem_of_app. right. apply list_elem_of_fmap_2.
  apply list_elem_of_filter. split; [exact Hu|].
  apply list_elem_of_fmap. exists (comment_key translation_unit token, ic).
  split; [reflexivity|]. apply elem_of_map_to_list. exact Hk.
Qed.


Example source_unit_run :
  exists p',
    process Literal.engine Examples.source_unit (new_processor (RuleSet.mk [] ∅))
    = Ok (true, p').
Proof. eexists. vm_compute. reflexivity. Qed.

Lemma unvisited_comment_reported_witness :
  exists p' ic,
    process Literal.engine Examples.source_unit (new_processor (RuleSet.mk [] ∅))
    = Ok (true, p')
    /\ _ignore_comments p'
         !! comment_key Examples.source_unit Examples.trailing_comment = Some ic
    /\ used ic = false
    /\ unused_warning ic ∈ stdout p'.
Proof.
  destruct source_unit_run as (p' & H). exists p'.
  destruct (unvisited_comment_reported Literal.engine Examples.source_unit
              Examples.trailing_comment
              (new_processor (RuleSet.mk [] ∅)) true p') as (ic & H1 & H2 & H3).
  - apply (list_elem_of_lookup_2 _ 3). reflexivity.
  - split; [reflexivity|]. eexists. split; vm_compute; reflexivity.
  - constructor; [|constructor]. vm_compute. intros E. discriminate E.
  - exact H.
  - exists ic. split; [exact H|]. split; [exact H1|]. split; [exact H2 | exact H3].
Defined.
